(** * lidarrscripts: a shallow embedding of the three command-line scripts

    The repository holds three independent Python scripts:
    - [import_nfo_albums.py]   (module [ImportNfoAlbums] below),
    - [mb_lidarr_import.py]    (module [MbLidarrImport]),
    - [spotify_playlist_checker.py] (module [SpotifyPlaylistChecker]).

    Every script is a one-shot batch job over HTTP services and local files.
    The embedding makes the outside world explicit: what a file read, an XML
    parse or an HTTP call answers is an input of the model, and what the
    script does with the answer is a function translated from the source.
    Python exceptions are values of an error monad; [try]/[except] blocks are
    written as matches on them. *)

From Stdlib Require Import Ascii String Floats QArith Lqa.
From stdpp Require Import gmap strings list pretty.

Open Scope string_scope.
Open Scope list_scope.
Set Warnings "-register-all".

(** ** Python values and exceptions

    A [str] is a Rocq [string], one [ascii] per character: the model covers
    text in the Latin-1 range. *)

Module Py.

(** The exception classes the scripts can meet. *)
Inductive exn :=
| AttributeError
| TypeError
| KeyError
| IndexError
| ZeroDivisionError
| OSError
| UnicodeDecodeError
| ParseError           (* xml.etree.ElementTree.ParseError *)
| RequestException     (* requests.RequestException other than HTTPError *)
| HTTPError            (* requests.exceptions.HTTPError *)
| JSONDecodeError.

(** A computation that returns a value or raises. *)
Inductive result (A : Type) :=
| Ok (a : A)
| Raise (e : exn).
Arguments Ok {A} a.
Arguments Raise {A} e.

#[global] Instance result_ret : MRet result := λ A a, Ok a.
#[global] Instance result_bind : MBind result := λ A B k m,
  match m with
  | Ok a => k a
  | Raise e => Raise e
  end.

(** What [json.loads] (and so [response.json()]) builds: [None], [bool],
    [int], [float], [str], [list] and [dict].  A [dict] keeps its keys in
    insertion order, so it is an association list with the first binding of a
    key being the live one. *)
Inductive json :=
| JNull
| JBool (b : bool)
| JInt (z : Z)
| JFloat (f : float)
| JStr (s : string)
| JList (l : list json)
| JDict (d : list (string * json)).

(** Truth value of an object in a condition ([if x], [not x]). *)
Definition truthy (v : json) : bool :=
  match v with
  | JNull => false
  | JBool b => b
  | JInt z => negb (z =? 0)%Z
  | JFloat f => negb (PrimFloat.eqb f 0%float)
  | JStr s => negb (String.eqb s "")
  | JList l => match l with [] => false | _ => true end
  | JDict d => match d with [] => false | _ => true end
  end.

(** [d[k]] lookup on the association list. *)
Fixpoint dict_lookup (d : list (string * json)) (k : string) : option json :=
  match d with
  | [] => None
  | (k', v) :: rest => if String.eqb k' k then Some v else dict_lookup rest k
  end.

(** [d[k] = v]: an existing key keeps its position, a new key goes last. *)
Fixpoint dict_set (d : list (string * json)) (k : string) (v : json)
  : list (string * json) :=
  match d with
  | [] => [(k, v)]
  | (k', v') :: rest =>
      if String.eqb k' k then (k', v) :: rest else (k', v') :: dict_set rest k v
  end.

(** [d.get(k, default)] on a dict. *)
Definition dict_get (d : list (string * json)) (k : string) (default : json) : json :=
  match dict_lookup d k with
  | Some v => v
  | None => default
  end.

(** [obj.get(k, default)] on an arbitrary value: only a dict has [get]. *)
Definition get (obj : json) (k : string) (default : json) : result json :=
  match obj with
  | JDict d => Ok (dict_get d k default)
  | _ => Raise AttributeError
  end.

(** [obj[k]] with a string key, on a value the scripts expect to be a dict. *)
Definition getitem (obj : json) (k : string) : result json :=
  match obj with
  | JDict d =>
      match dict_lookup d k with
      | Some v => Ok v
      | None => Raise KeyError
      end
  | JList _ | JStr _ => Raise TypeError   (* indices must be integers *)
  | _ => Raise TypeError                  (* not subscriptable *)
  end.

(** [needle in hay] on two strings. *)
Fixpoint str_contains (needle hay : string) : bool :=
  if String.prefix needle hay then true
  else match hay with
       | "" => false
       | String _ hay' => str_contains needle hay'
       end.

(** [k in obj] with a string [k]. *)
Definition contains (k : string) (obj : json) : result bool :=
  match obj with
  | JDict d => Ok (bool_decide (is_Some (dict_lookup d k)))
  | JList l =>
      Ok (existsb (fun v => match v with JStr s => String.eqb s k | _ => false end) l)
  | JStr s => Ok (str_contains k s)
  | _ => Raise TypeError                  (* not iterable *)
  end.

(** [v == s] for a string [s]. *)
Definition eq_str (v : json) (s : string) : bool :=
  match v with
  | JStr t => String.eqb t s
  | _ => false
  end.

(** [for x in v]: the sequence a [for] loop walks. *)
Definition iterate (v : json) : result (list json) :=
  match v with
  | JList l => Ok l
  | JDict d => Ok (map (fun kv => JStr kv.1) d)
  | JStr s => Ok (map (fun c => JStr (String c "")) (list_ascii_of_string s))
  | _ => Raise TypeError
  end.

(** [s.endswith(suffix)]. *)
Fixpoint endswith (s suffix : string) : bool :=
  if String.eqb s suffix then true
  else match s with
       | "" => false
       | String _ s' => endswith s' suffix
       end.

(** [str.isspace] on one character of the Latin-1 range. *)
Definition isspace (c : ascii) : bool :=
  let n := nat_of_ascii c in
  (((9 <=? n) && (n <=? 13)) || ((28 <=? n) && (n <=? 32))
   || (n =? 133) || (n =? 160))%nat.

Fixpoint lstrip (s : string) : string :=
  match s with
  | "" => ""
  | String c s' => if isspace c then lstrip s' else s
  end.

(** [s.strip()]: whitespace removed at both ends. *)
Definition strip (s : string) : string :=
  String.rev (lstrip (String.rev (lstrip s))).

(** Every character of [s] passes the test [p]. *)
Fixpoint all_chars (p : ascii → bool) (s : string) : bool :=
  match s with
  | "" => true
  | String c s' => p c && all_chars p s'
  end.

(** [s.startswith(prefix)] *)
Definition startswith (s prefix : string) : bool := String.prefix prefix s.

(** [s.lower()], on the letters A to Z and the capital letters of Latin-1. *)
Definition lower_char (c : ascii) : ascii :=
  let n := nat_of_ascii c in
  if (((65 <=? n) && (n <=? 90))
      || ((192 <=? n) && (n <=? 222) && negb (n =? 215)))%nat
  then ascii_of_nat (n + 32) else c.

Fixpoint lower (s : string) : string :=
  match s with
  | "" => ""
  | String c s' => String (lower_char c) (lower s')
  end.

(** [s.split(sep)] for a separator of one character: the pieces between the
    separators, at least one. *)
Fixpoint split (sep : ascii) (s : string) : list string :=
  match s with
  | "" => [""]
  | String c s' =>
      if Ascii.eqb c sep then "" :: split sep s'
      else match split sep s' with
           | piece :: pieces => String c piece :: pieces
           | [] => [String c ""]
           end
  end.

(** [s.lstrip(c)], [s.rstrip(c)] and [s.strip(c)] for one character [c]. *)
Fixpoint lstrip_char (c : ascii) (s : string) : string :=
  match s with
  | "" => ""
  | String c' s' => if Ascii.eqb c' c then lstrip_char c s' else s
  end.
Definition rstrip_char (c : ascii) (s : string) : string :=
  String.rev (lstrip_char c (String.rev s)).
Definition strip_char (c : ascii) (s : string) : string :=
  rstrip_char c (lstrip_char c s).

(** [seq[0]] *)
Definition index0 (seq : json) : result json :=
  match seq with
  | JList (x :: _) => Ok x
  | JList [] => Raise IndexError
  | JStr (String c _) => Ok (JStr (String c ""))
  | JStr "" => Raise IndexError
  | JDict _ => Raise KeyError
  | _ => Raise TypeError
  end.

(** Keys of a [dict] and members of a [set]: lists and dicts cannot be
    hashed. *)
Definition hashable (v : json) : bool :=
  match v with
  | JList _ | JDict _ => false
  | _ => true
  end.

(** The integer a float is equal to, if any. *)
Definition float_integer (f : float) : option Z :=
  match Prim2SF f with
  | S754_zero _ => Some 0%Z
  | S754_finite negative m e =>
      let magnitude :=
        if (0 <=? e)%Z then Some (Z.pos m * 2 ^ e)%Z
        else if (Z.pos m mod 2 ^ (- e) =? 0)%Z then Some (Z.pos m / 2 ^ (- e))%Z
        else None in
      (fun z => if negative then (- z)%Z else z) <$> magnitude
  | _ => None
  end.

(** The integer a [bool] or an [int] is. *)
Definition integer (v : json) : option Z :=
  match v with
  | JBool b => Some (if b then 1 else 0)%Z
  | JInt z => Some z
  | _ => None
  end.

(** [a == b] on two hashable values, as the lookup of a key compares them:
    numbers by value across [bool], [int] and [float], strings by their text,
    [None] with itself. *)
Definition key_eq (a b : json) : bool :=
  match a, b with
  | JNull, JNull => true
  | JStr s, JStr t => String.eqb s t
  | JFloat f, JFloat g => PrimFloat.eqb f g
  | JFloat f, (JBool _ | JInt _) =>
      bool_decide (float_integer f = integer b)
  | (JBool _ | JInt _), JFloat g =>
      bool_decide (integer a = float_integer g)
  | (JBool _ | JInt _), (JBool _ | JInt _) =>
      bool_decide (integer a = integer b)
  | _, _ => false
  end.

(** No two members of a list equal as keys, an earlier one compared with a
    later one. *)
Definition distinct_keys (ks : list json) : Prop :=
  ∀ (i j : nat) (a b : json), (i < j)%nat →
    ks !! i = Some a → ks !! j = Some b → key_eq a b = false.

End Py.

(** ** The fragment of [re] the scripts use

    All five patterns of the repository are sequences of single-character
    matchers: literals, escaped punctuation, one character set with ranges, a
    fixed repetition count [{n}] and one capturing group.  [parse] reads that
    fragment from the pattern text as it stands in the source; anything else
    is outside the fragment and refused.

    A character is one [ascii] of a Rocq string, and [re.IGNORECASE] folds
    the case of the letters A to Z only, which is what it does on the ASCII
    letters the patterns are made of. *)

Module Re.

Inductive atom :=
| Lit (c : ascii)
| CharSet (ranges : list (ascii * ascii)).

Inductive node :=
| Atom (a : atom) (count : nat)
| GroupOpen
| GroupClose.

Definition is_upper (c : ascii) : bool :=
  ((65 <=? nat_of_ascii c) && (nat_of_ascii c <=? 90))%nat.
Definition is_lower (c : ascii) : bool :=
  ((97 <=? nat_of_ascii c) && (nat_of_ascii c <=? 122))%nat.
Definition is_digit (c : ascii) : bool :=
  ((48 <=? nat_of_ascii c) && (nat_of_ascii c <=? 57))%nat.

Definition lower (c : ascii) : ascii :=
  if is_upper c then ascii_of_nat (nat_of_ascii c + 32) else c.
Definition upper (c : ascii) : ascii :=
  if is_lower c then ascii_of_nat (nat_of_ascii c - 32) else c.

Definition in_range (r : ascii * ascii) (c : ascii) : bool :=
  ((nat_of_ascii r.1 <=? nat_of_ascii c) && (nat_of_ascii c <=? nat_of_ascii r.2))%nat.

(** One character against one matcher; [ignorecase] is [re.IGNORECASE]. *)
Definition atom_matches (ignorecase : bool) (a : atom) (c : ascii) : bool :=
  match a with
  | Lit l =>
      if ignorecase then Ascii.eqb (lower c) (lower l) else Ascii.eqb c l
  | CharSet ranges =>
      existsb (fun r =>
        in_range r c
        || (ignorecase && (in_range r (lower c) || in_range r (upper c)))) ranges
  end.

(** The body of a character set, after the opening bracket. *)
Fixpoint parse_set (s : string) (acc : list (ascii * ascii))
  : option (list (ascii * ascii) * string) :=
  match s with
  | "" => None
  | String "]" rest => match acc with [] => None | _ => Some (rev acc, rest) end
  | String "\" _ => None
  | String "^" _ => None
  | String lo (String "-" (String hi rest)) =>
      if Ascii.eqb hi "]" then Some (rev (("-", "-") :: (lo, lo) :: acc), rest)%char
      else parse_set rest ((lo, hi) :: acc)
  | String c rest => parse_set rest ((c, c) :: acc)
  end.

(** The digits of a repetition count, after the opening brace. *)
Fixpoint parse_count (s : string) (acc : option nat) : option (nat * string) :=
  match s with
  | "" => None
  | String "}" rest => match acc with Some n => Some (n, rest) | None => None end
  | String c rest =>
      if is_digit c
      then parse_count rest (Some (10 * default 0 acc + (nat_of_ascii c - 48)))%nat
      else None
  end.

(** An optional [{n}] after an atom. *)
Definition parse_repeat (s : string) : option (nat * string) :=
  match s with
  | String "{" rest => parse_count rest None
  | _ => Some (1, s)%nat
  end.

Definition is_meta (c : ascii) : bool :=
  existsb (Ascii.eqb c) (list_ascii_of_string ".^$*+?{}[]|()\").

Definition is_alnum (c : ascii) : bool := is_upper c || is_lower c || is_digit c.

Fixpoint parse_nodes (fuel : nat) (s : string) : option (list node) :=
  match fuel with
  | O => match s with "" => Some [] | _ => None end
  | S fuel' =>
      match s with
      | "" => Some []
      | String "(" (String "?" _) => None
      | String "(" rest => cons GroupOpen <$> parse_nodes fuel' rest
      | String ")" rest => cons GroupClose <$> parse_nodes fuel' rest
      | String "\" (String c rest) =>
          if is_alnum c then None
          else '(n, rest') ← parse_repeat rest;
               cons (Atom (Lit c) n) <$> parse_nodes fuel' rest'
      | String "[" rest =>
          '(ranges, rest') ← parse_set rest [];
          '(n, rest'') ← parse_repeat rest';
          cons (Atom (CharSet ranges) n) <$> parse_nodes fuel' rest''
      | String c rest =>
          if is_meta c then None
          else '(n, rest') ← parse_repeat rest;
               cons (Atom (Lit c) n) <$> parse_nodes fuel' rest'
      end
  end.

Definition parse (pattern : string) : option (list node) :=
  parse_nodes (String.length pattern) pattern.

(** [count] characters of [s], each matching [a]: the text consumed and the
    rest. *)
Fixpoint match_atom (ignorecase : bool) (a : atom) (count : nat) (s : string)
  : option (string * string) :=
  match count with
  | O => Some ("", s)
  | S count' =>
      match s with
      | "" => None
      | String c s' =>
          if atom_matches ignorecase a c
          then '(consumed, rest) ← match_atom ignorecase a count' s';
               Some (String c consumed, rest)
          else None
      end
  end.

(** A match of the whole node sequence at the start of [s]; the answer is the
    text captured by the group ([""] when the pattern has none). *)
Fixpoint match_here (ignorecase : bool) (nodes : list node) (s : string)
    (in_group : bool) (captured : string) : option string :=
  match nodes with
  | [] => Some captured
  | GroupOpen :: nodes' => match_here ignorecase nodes' s true captured
  | GroupClose :: nodes' => match_here ignorecase nodes' s false captured
  | Atom a count :: nodes' =>
      '(consumed, rest) ← match_atom ignorecase a count s;
      match_here ignorecase nodes' rest in_group
        (if in_group then captured +:+ consumed else captured)
  end.

(** How many characters the group captures, for nodes read in or out of it. *)
Fixpoint captured_length (nodes : list node) (in_group : bool) : nat :=
  match nodes with
  | [] => 0
  | GroupOpen :: nodes' => captured_length nodes' true
  | GroupClose :: nodes' => captured_length nodes' false
  | Atom _ count :: nodes' =>
      ((if in_group then count else 0) + captured_length nodes' in_group)%nat
  end.

(** Leftmost match anywhere in [s]. *)
Fixpoint search_nodes (ignorecase : bool) (nodes : list node) (s : string)
  : option string :=
  match match_here ignorecase nodes s false "" with
  | Some captured => Some captured
  | None =>
      match s with
      | "" => None
      | String _ s' => search_nodes ignorecase nodes s'
      end
  end.

(** [re.search(pattern, s, flags)]: [Some g] is a match object whose
    [group(1)] is [g], [None] is Python's [None]. *)
Definition search (pattern : string) (ignorecase : bool) (s : string) : option string :=
  nodes ← parse pattern; search_nodes ignorecase nodes s.

(** Inside the group, the pattern only lets characters through that pass
    the test [p]. *)
Fixpoint captures_only (p : ascii → bool) (ignorecase : bool)
    (nodes : list node) (in_group : bool) : Prop :=
  match nodes with
  | [] => True
  | GroupOpen :: nodes' => captures_only p ignorecase nodes' true
  | GroupClose :: nodes' => captures_only p ignorecase nodes' false
  | Atom a _ :: nodes' =>
      (in_group = true → ∀ c, atom_matches ignorecase a c = true → p c = true)
      ∧ captures_only p ignorecase nodes' in_group
  end.

(** The nodes of a pattern that is plain text. *)
Definition literal_nodes (text : string) : list node :=
  map (fun c => Atom (Lit c) 1) (list_ascii_of_string text).

End Re.

(** ** What the scripts see of the outside world *)

Module World.
Import Py.

(** A [requests.Response]: the status and what [response.json()] gives. *)
Record response := Response {
  status_code : Z;
  json_body : result json;
}.

(** [response.raise_for_status()]: an HTTPError for 4xx and 5xx. *)
Definition raise_for_status (r : response) : result unit :=
  if ((400 <=? status_code r) && (status_code r <? 600))%Z
  then Raise HTTPError else Ok ().

(** An element of an [xml.etree.ElementTree] tree, with the two attributes the
    scripts read ([tag] and [text]) and its children in document order. *)
Inductive Element :=
| Elem (tag : string) (text : option string) (children : list Element).

Definition tag (e : Element) : string := let 'Elem t _ _ := e in t.
Definition text (e : Element) : option string := let 'Elem _ t _ := e in t.
Definition children (e : Element) : list Element := let 'Elem _ _ c := e in c.

(** [next(e.iter(name), None)]: the element itself or its first descendant in
    document order with that tag. *)
Fixpoint iter_first (name : string) (e : Element) : option Element :=
  let 'Elem t _ cs := e in
  if String.eqb t name then Some e
  else (fix first_of (l : list Element) : option Element :=
          match l with
          | [] => None
          | c :: l' =>
              match iter_first name c with
              | Some hit => Some hit
              | None => first_of l'
              end
          end) cs.

Fixpoint first_of (name : string) (l : list Element) : option Element :=
  match l with
  | [] => None
  | c :: l' =>
      match iter_first name c with
      | Some hit => Some hit
      | None => first_of name l'
      end
  end.

(** [root.find('.//name')]: the first descendant of [root] with that tag, the
    root itself excluded. *)
Definition find (root : Element) (name : string) : option Element :=
  first_of name (children root).

End World.

(** ** import_nfo_albums.py

    [print] calls are left out: they raise nothing and no return value depends
    on them. *)

Module ImportNfoAlbums.
Import Py World.

(** Configuration *)
Definition QUALITY_PROFILE_ID : Z := 1.
Definition METADATA_PROFILE_ID : Z := 1.
Definition ROOT_FOLDER_PATH : string := "/music".

(** What Lidarr answers during one call of [add_album_to_lidarr]. *)
Record lidarr := Lidarr {
  get_album : result response;             (* GET  /api/v1/album *)
  get_search : string → result response;   (* GET  /api/v1/search?term=... *)
  post_album : json → result response;     (* POST /api/v1/album *)
}.

(** One entry of [nfo_files] with what the world answers while it is being
    processed: [ET.parse(nfo_path)], [open(nfo_path).read()] and Lidarr. *)
Record nfo_file := NfoFile {
  nfo_path : string;
  et_parse : result Element;
  read_text : result string;
  service : lidarr;
}.

Definition RELEASE_GROUP_RE : string :=
  "<musicbrainzreleasegroupid>([a-f0-9-]{36})</musicbrainzreleasegroupid>".
Definition ALBUM_RE : string :=
  "<musicbrainzalbumid>([a-f0-9-]{36})</musicbrainzalbumid>".

(** [mb_id is not None and mb_id.text] *)
Definition has_text (mb_id : option Element) : option string :=
  e ← mb_id;
  t ← text e;
  if String.eqb t "" then None else Some t.

(** The regex fallback, on the file's text. *)
Definition extract_by_regex (content : string) : option string :=
  match Re.search RELEASE_GROUP_RE true content with
  | Some group1 => Some group1
  | None =>
      match Re.search ALBUM_RE true content with
      | Some group1 => Some group1
      | None => None
      end
  end.

Definition extract_musicbrainz_id (f : nfo_file) : result (option string) :=
  match et_parse f with
  | Ok root =>
      match has_text (find root "musicbrainzreleasegroupid") with
      | Some t => Ok (Some (strip t))
      | None =>
          match has_text (find root "musicbrainzalbumid") with
          | Some t => Ok (Some (strip t))
          | None => Ok None
          end
      end
  | Raise ParseError =>
      (* inner try: any exception while reading is printed and dropped *)
      match read_text f with
      | Ok content => Ok (extract_by_regex content)
      | Raise _ => Ok None
      end
  | Raise e => Raise e
  end.

(** The loop of [check_album_exists]. *)
Fixpoint album_listed (albums : list json) (mb_id : string) : result bool :=
  match albums with
  | [] => Ok false
  | album :: rest =>
      fid ← get album "foreignAlbumId" JNull;
      if eq_str fid mb_id then Ok true else album_listed rest mb_id
  end.

Definition check_album_exists (srv : lidarr) (mb_id : string) : bool :=
  let body : result bool :=
    response ← get_album srv;
    if (status_code response =? 200)%Z then
      albums ← json_body response;
      items ← iterate albums;
      album_listed items mb_id
    else Ok false in
  match body with
  | Ok b => b
  | Raise _ => false
  end.

(** [len(v)] succeeds on strings, lists and dicts only. *)
Definition len (v : json) : result nat :=
  match v with
  | JStr s => Ok (String.length s)
  | JList l => Ok (length l)
  | JDict d => Ok (length d)
  | _ => Raise TypeError
  end.

(** The test [foreign_id == mb_id or foreign_id.endswith(mb_id)]. *)
Definition is_our_album (foreign_id : json) (mb_id : string) : result bool :=
  if eq_str foreign_id mb_id then Ok true
  else match foreign_id with
       | JStr f => Ok (endswith f mb_id)
       | _ => Raise AttributeError
       end.

(** The album and artist objects of one search result. *)
Definition unpack_result (result : json) : Py.result (json * json) :=
  nested ← get result "album" JNull;
  if truthy nested then
    current_album ← getitem result "album";
    current_artist ← get result "artist" JNull;
    Ok (current_album, current_artist)
  else
    current_artist ← get result "artist" JNull;
    Ok (result, current_artist).

(** The search loop: [(album_data, artist_data)] at the [break], or the two
    [None] they were initialised with. *)
Fixpoint find_album (results : list json) (mb_id : string)
  : result (option (json * json)) :=
  match results with
  | [] => Ok None
  | res :: rest =>
      '(current_album, current_artist) ← unpack_result res;
      foreign_id ← get current_album "foreignAlbumId" (JStr "");
      hit ← is_our_album foreign_id mb_id;
      if (hit : bool) then Ok (Some (current_album, current_artist))
      else find_album rest mb_id
  end.

(** [obj[k] = v] *)
Definition setitem (obj : json) (k : string) (v : json) : result json :=
  match obj with
  | JDict d => Ok (JDict (dict_set d k v))
  | _ => Raise TypeError
  end.

(** [if not artist_data.get(k): artist_data[k] = default] *)
Definition ensure_field (artist_data : json) (k : string) (default : json)
  : result json :=
  v ← get artist_data k JNull;
  if negb (truthy v) then setitem artist_data k default else Ok artist_data.

(** "Ensure artist has required fields" *)
Definition ensure_required_fields (artist_data : json) : result json :=
  a1 ← ensure_field artist_data "qualityProfileId" (JInt QUALITY_PROFILE_ID);
  a2 ← ensure_field a1 "metadataProfileId" (JInt METADATA_PROFILE_ID);
  a3 ← ensure_field a2 "rootFolderPath" (JStr ROOT_FOLDER_PATH);
  ensure_field a3 "monitored" (JBool true).

(** The request body of the POST.  [album_data] is a dict here. *)
Definition make_payload (album_data : list (string * json)) (artist_data : json)
    (mb_id : string) : json :=
  JDict [
    ("title", dict_get album_data "title" JNull);
    ("foreignAlbumId", JStr mb_id);
    ("monitored", JBool true);
    ("anyReleaseOk", JBool true);
    ("profileId", JInt QUALITY_PROFILE_ID);
    ("duration", dict_get album_data "duration" (JInt 0));
    ("albumType", dict_get album_data "albumType" (JStr ""));
    ("secondaryTypes", dict_get album_data "secondaryTypes" (JList []));
    ("mediumCount", dict_get album_data "mediumCount" (JInt 0));
    ("ratings", dict_get album_data "ratings"
                  (JDict [("votes", JInt 0); ("value", JFloat 0%float)]));
    ("releaseDate", dict_get album_data "releaseDate" JNull);
    ("releases", dict_get album_data "releases" (JList []));
    ("genres", dict_get album_data "genres" (JList []));
    ("media", dict_get album_data "media" (JList []));
    ("artist", artist_data);
    ("images", dict_get album_data "images" (JList []));
    ("links", dict_get album_data "links" (JList []));
    ("addOptions", JDict [("searchForNewAlbum", JBool false)])
  ].

(** The [try] block of [add_album_to_lidarr]: the returned boolean and the
    bodies POSTed on the way (none or one). *)
Definition add_album_body (srv : lidarr) (mb_id : string)
  : result (bool * list json) :=
  response ← get_search srv ("lidarr:" +:+ mb_id);
  if negb (status_code response =? 200)%Z then Ok (false, [])
  else
    results ← json_body response;
    if negb (truthy results) then Ok (false, [])
    else
      _ ← len results;
      items ← iterate results;
      found ← find_album items mb_id;
      match found with
      | None => Ok (false, [])
      | Some (album_data, _) =>
          if negb (truthy album_data) then Ok (false, [])
          else
            artist_data ← get album_data "artist" JNull;
            if negb (truthy artist_data) then Ok (false, [])
            else
              artist_data ← ensure_required_fields artist_data;
              match album_data with
              | JDict album =>
                  let payload := make_payload album artist_data mb_id in
                  match post_album srv payload with
                  | Ok response =>
                      if ((status_code response =? 200)
                          || (status_code response =? 201))%Z
                      then Ok (true, [payload])
                      else Ok (false, [payload])
                  | Raise e => Ok (false, [payload])
                  end
              | _ => Raise AttributeError
              end
      end.

(** [add_album_to_lidarr]: [Some true] is [True], [Some false] is [False] and
    [None] is Python's [None] ("already exists"). *)
Definition add_album_to_lidarr (srv : lidarr) (mb_id : string)
  : option bool * list json :=
  if check_album_exists srv mb_id then (None, [])
  else match add_album_body srv mb_id with
       | Ok (b, posted) => (Some b, posted)
       | Raise _ => (Some false, [])
       end.

Record counters := Counters {
  added : nat;
  failed : nat;
  skipped : nat;
  already_exists : nat;
}.

(** [not mb_id] on the [Optional[str]] that extraction returns. *)
Definition no_id (mb_id : option string) : bool :=
  match mb_id with
  | None => true
  | Some s => String.eqb s ""
  end.

(** One turn of the [for nfo_path in nfo_files] loop. *)
Definition process_file (c : counters) (f : nfo_file) : result counters :=
  mb_id ← extract_musicbrainz_id f;
  if no_id mb_id then
    Ok (Counters (added c) (failed c) (skipped c + 1) (already_exists c))
  else
    match (add_album_to_lidarr (service f) (default "" mb_id)).1 with
    | Some true =>
        Ok (Counters (added c + 1) (failed c) (skipped c) (already_exists c))
    | None =>
        Ok (Counters (added c) (failed c) (skipped c) (already_exists c + 1))
    | Some false =>
        Ok (Counters (added c) (failed c + 1) (skipped c) (already_exists c))
    end.

Fixpoint process_files (c : counters) (nfo_files : list nfo_file) : result counters :=
  match nfo_files with
  | [] => Ok c
  | f :: rest => c' ← process_file c f; process_files c' rest
  end.

(** [main], from the counters' initialisation to the summary: the counters
    the summary prints, or the exception that ends the process. *)
Definition main (nfo_files : list nfo_file) : result counters :=
  process_files (Counters 0 0 0 0) nfo_files.

(** The four fields and their run-wide defaults, in the order they are
    ensured. *)
Definition REQUIRED_FIELDS : list (string * json) := [
  ("qualityProfileId", JInt QUALITY_PROFILE_ID);
  ("metadataProfileId", JInt METADATA_PROFILE_ID);
  ("rootFolderPath", JStr ROOT_FOLDER_PATH);
  ("monitored", JBool true)
].



(** [if not d.get(k): d[k] = default] on a dict, as a function. *)
Definition backfilled (d : list (string * json)) (k : string) (default : json)
  : list (string * json) :=
  if truthy (dict_get d k JNull) then d else dict_set d k default.


(** A character of an identifier as the fallback accepts it: a digit, a
    letter a to f in either case, or a hyphen. *)
Definition id_char (c : ascii) : bool :=
  let n := nat_of_ascii c in
  (((48 <=? n) && (n <=? 57)) || ((97 <=? n) && (n <=? 102))
   || ((65 <=? n) && (n <=? 70)) || (n =? 45))%nat.

Definition not_space (c : ascii) : bool := negb (isspace c).
Definition not_lt (c : ascii) : bool := negb (Ascii.eqb c "<").

(** *** Sample data: a Lidarr stub and a few sidecar files *)

Definition sample_id : string := "b1392450-e666-3926-a536-22c65f834433".

Definition sample_artist : list (string * json) := [
  ("artistName", JStr "Radiohead");
  ("foreignArtistId", JStr "a74b1b7f-71a5-4011-9441-d0b5e4122711");
  ("qualityProfileId", JInt 0);
  ("metadataProfileId", JInt 2);
  ("monitored", JBool false)
].

Definition sample_album : json := JDict [
  ("title", JStr "OK Computer");
  ("foreignAlbumId", JStr sample_id);
  ("albumType", JStr "Album");
  ("artist", JDict sample_artist)
].

(** Another album of the same artist, and [sample_album] as Lidarr would
    list it with a qualified id. *)
Definition other_album : json := JDict [
  ("title", JStr "Kid A");
  ("foreignAlbumId", JStr "7d4a2c1e-9b3f-4e6a-8c5d-1f2e3a4b5c6d");
  ("artist", JDict sample_artist)
].

Definition qualified_album : json := JDict [
  ("title", JStr "OK Computer");
  ("foreignAlbumId", JStr ("mbid:" +:+ sample_id));
  ("artist", JDict sample_artist)
].

(** An empty library; every search finds [sample_album]; every POST is
    answered 201. *)
Definition sample_lidarr : lidarr := {|
  get_album := Ok (Response 200 (Ok (JList [])));
  get_search := fun _ => Ok (Response 200 (Ok (JList [sample_album])));
  post_album := fun payload => Ok (Response 201 (Ok payload));
|}.



(** The release-group tag holds blanks only; the release tag holds an id. *)
Definition blank_tag_nfo : nfo_file := {|
  nfo_path := "/music/Radiohead/Kid A/album.nfo";
  et_parse := Ok (Elem "album" None [
    Elem "musicbrainzreleasegroupid" (Some "   ") [];
    Elem "musicbrainzalbumid" (Some sample_id) []]);
  read_text := Ok "";
  service := sample_lidarr;
|}.

(** The same file with the release-group tag empty, and with it absent. *)
Definition empty_tag_nfo : nfo_file := {|
  nfo_path := "/music/Radiohead/Kid A/album.nfo";
  et_parse := Ok (Elem "album" None [
    Elem "musicbrainzreleasegroupid" None [];
    Elem "musicbrainzalbumid" (Some sample_id) []]);
  read_text := Ok "";
  service := sample_lidarr;
|}.

Definition missing_tag_nfo : nfo_file := {|
  nfo_path := "/music/Radiohead/Kid A/album.nfo";
  et_parse := Ok (Elem "album" None [
    Elem "musicbrainzalbumid" (Some sample_id) []]);
  read_text := Ok "";
  service := sample_lidarr;
|}.

(** Markup the parser rejects, with the tag present in the text. *)
Definition malformed_nfo : nfo_file := {|
  nfo_path := "/music/Radiohead/Amnesiac/album.nfo";
  et_parse := Raise ParseError;
  read_text := Ok ("<album><MusicBrainzReleaseGroupId>" +:+ sample_id
                   +:+ "</MusicBrainzReleaseGroupId><title>Amnesiac</album>");
  service := sample_lidarr;
|}.

(** A tag whose text has the id between line breaks and indentation. *)
Definition padded_nfo : nfo_file := {|
  nfo_path := "/music/Radiohead/The Bends/album.nfo";
  et_parse := Ok (Elem "album" None [
    Elem "musicbrainzreleasegroupid"
      (Some (String "010" "    " +:+ sample_id +:+ String "010" "  ")) []]);
  read_text := Ok "";
  service := sample_lidarr;
|}.

(** Markup the parser rejects: the tag is in the text after a byte-order
    mark and a title with a stray ampersand. *)
Definition ampersand_nfo : nfo_file := {|
  nfo_path := "/music/Simon & Garfunkel/Bookends/album.nfo";
  et_parse := Raise ParseError;
  read_text := Ok ("album: Simon & Garfunkel "
                   +:+ "<musicbrainzreleasegroupid>" +:+ sample_id
                   +:+ "</musicbrainzreleasegroupid>" +:+ "</album>");
  service := sample_lidarr;
|}.


End ImportNfoAlbums.

(** ** mb_lidarr_import.py *)

Module MbLidarrImport.
Import Py World.

Section Repr.

(** [repr] of a float (the shortest decimal text that reads back as the same
    float) is a library routine; the model takes it as given. *)
Variable float_repr : float → string.

Definition is_printable (c : ascii) : bool :=
  let n := nat_of_ascii c in
  (((32 <=? n) && (n <=? 126)) || ((161 <=? n) && negb (n =? 173)))%nat.

Definition hex_digit (n : nat) : ascii :=
  ascii_of_nat (if (n <? 10)%nat then 48 + n else 87 + n).

(** One character inside a string literal delimited by [quote]. *)
Definition repr_char (quote : ascii) (c : ascii) : string :=
  if Ascii.eqb c "\" then "\\"
  else if Ascii.eqb c quote then String "\" (String c "")
  else if Ascii.eqb c "010" then "\n"
  else if Ascii.eqb c "013" then "\r"
  else if Ascii.eqb c "009" then "\t"
  else if is_printable c then String c ""
  else String "\" (String "x" (String (hex_digit (nat_of_ascii c / 16))
                                 (String (hex_digit (nat_of_ascii c mod 16)) ""))).

Definition has_char (c : ascii) (s : string) : bool :=
  existsb (Ascii.eqb c) (list_ascii_of_string s).

(** [repr(s)]: single quotes unless the text has one and no double quote. *)
Definition repr_str (s : string) : string :=
  let dquote : ascii := ascii_of_nat 34 in
  let quote : ascii :=
    if has_char "'" s && negb (has_char dquote s) then dquote else "'"%char in
  String quote
    (String.concat "" (map (repr_char quote) (list_ascii_of_string s))
     +:+ String quote "").

(** [repr(v)] for what [response.json()] returns. *)
Fixpoint repr (v : json) : string :=
  match v with
  | JNull => "None"
  | JBool true => "True"
  | JBool false => "False"
  | JInt z => pretty z
  | JFloat f => float_repr f
  | JStr s => repr_str s
  | JList l => "[" +:+ String.concat ", " (map repr l) +:+ "]"
  | JDict d =>
      "{" +:+ String.concat ", "
                (map (fun kv => repr_str kv.1 +:+ ": " +:+ repr kv.2) d) +:+ "}"
  end.

(** [str(v)]: a string is itself, everything else is its [repr]. *)
Definition str (v : json) : string :=
  match v with
  | JStr s => s
  | _ => repr v
  end.

End Repr.

(** What [add_artist] prints, one constructor per [print] statement. *)
Inductive message :=
| ArtistAlreadyInLidarr      (* "Artist already in Lidarr" *)
| ErrorAddingArtist.         (* "Error adding artist: ..." *)

Section AddArtist.

Variable float_repr : float → string.

(** The request body of [add_artist]; subscripting [artist_data] is outside
    the [try]. *)
Definition artist_payload (artist_data : json) (root_folder : string)
    (quality_profile metadata_profile : Z) (monitor search : bool) : result json :=
  foreign ← getitem artist_data "foreignArtistId";
  name ← getitem artist_data "artistName";
  Ok (JDict [
    ("foreignArtistId", foreign);
    ("artistName", name);
    ("qualityProfileId", JInt quality_profile);
    ("metadataProfileId", JInt metadata_profile);
    ("rootFolderPath", JStr root_folder);
    ("monitored", JBool monitor);
    ("addOptions", JDict [
       ("monitor", JStr (if monitor then "all" else "none"));
       ("searchForMissingAlbums", JBool search)])
  ]).

(** [LidarrAPI.add_artist]: the returned boolean and the lines printed.
    [post] is [requests.post] on /api/v1/artist; when it raises, it raises a
    transport error, and an HTTPError comes from [raise_for_status] only. *)
Definition add_artist (post : json → result response) (artist_data : json)
    (root_folder : string) (quality_profile metadata_profile : Z)
    (monitor search : bool) : result (bool * list message) :=
  payload ← artist_payload artist_data root_folder quality_profile
              metadata_profile monitor search;
  match post payload with
  | Raise _ => Ok (false, [ErrorAddingArtist])        (* except Exception *)
  | Ok resp =>
      match raise_for_status resp with
      | Ok _ => Ok (true, [])
      | Raise _ =>                                    (* except HTTPError as e *)
          if (status_code resp =? 400)%Z then
            error ← json_body resp;
            if str_contains "Artist already exists" (str float_repr error)
            then Ok (false, [ArtistAlreadyInLidarr])
            else Ok (false, [ErrorAddingArtist])
          else Ok (false, [ErrorAddingArtist])
      end
  end.

(** The two counters of [main]. *)
Record tally := Tally { added : nat; skipped : nat }.

(** The part of [main]'s loop after the search: the caller of [add_artist]. *)
Definition count_artist (t : tally) (post : json → result response)
    (artist_data : json) (root_folder : string)
    (quality_profile metadata_profile : Z) (monitor search : bool) : result tally :=
  if negb (truthy artist_data) then Ok (Tally (added t) (skipped t + 1))
  else
    '(success, _) ← add_artist post artist_data root_folder quality_profile
                       metadata_profile monitor search;
    if (success : bool) then Ok (Tally (added t + 1) (skipped t))
    else Ok (Tally (added t) (skipped t + 1)).

End AddArtist.

(** *** Sample data: one artist and three answers to the POST *)

Definition sample_artist_data : json := JDict [
  ("artistName", JStr "Radiohead");
  ("foreignArtistId", JStr "a74b1b7f-71a5-4011-9441-d0b5e4122711")
].

(** Lidarr's validation failure for an artist that is already there. *)
Definition conflict_post (payload : json) : result response :=
  Ok (Response 400 (Ok (JList [JDict [
    ("propertyName", JStr "ForeignArtistId");
    ("errorMessage", JStr "Artist already exists in the database");
    ("severity", JStr "error")]]))).

(** A server error. *)
Definition broken_post (payload : json) : result response :=
  Ok (Response 500 (Ok (JDict [("message", JStr "Internal Server Error")]))).

(** Success. *)
Definition created_post (payload : json) : result response :=
  Ok (Response 201 (Ok payload)).

(** The sample bodies hold no float, so any rendering of floats will do. *)
Definition sample_float_repr : float → string := fun _ => "0.0".

(** *** The rest of the script *)

(** [LidarrAPI.__init__]: [self.url]. *)
Definition base_url (url : string) : string := rstrip_char "/" url.

(** The shared body of [get_root_folder], [get_quality_profile_id] and
    [get_metadata_profile_id]: [items[0][field] if items else None], and None
    on any exception.  [JNull] is Python's None. *)
Definition first_field (field : string) (answer : result response) : json :=
  let body : result json :=
    resp ← answer;
    _ ← raise_for_status resp;
    items ← json_body resp;
    if truthy items then first ← index0 items; getitem first field
    else Ok JNull in
  match body with
  | Ok v => v
  | Raise _ => JNull
  end.

Definition get_root_folder (answer : result response) : json :=
  first_field "path" answer.
Definition get_quality_profile_id (answer : result response) : json :=
  first_field "id" answer.
Definition get_metadata_profile_id (answer : result response) : json :=
  first_field "id" answer.

(** [LidarrAPI.search_artist] *)
Definition search_artist (answer : result response) : json :=
  let body : result json :=
    resp ← answer;
    _ ← raise_for_status resp;
    results ← json_body resp;
    if truthy results then index0 results else Ok JNull in
  match body with
  | Ok v => v
  | Raise _ => JNull
  end.

(** [mb_id not in seen_ids], on a set kept as the list of its members. *)
Definition seen (seen_ids : list json) (mb_id : json) : result bool :=
  if hashable mb_id then Ok (existsb (fun k => key_eq k mb_id) seen_ids)
  else Raise TypeError.

(** One turn of the loop over the artist credits: the lists [artists] and
    [seen_ids] afterwards. *)
Definition add_credit (credit : json) (acc : list json * list json)
  : result (list json * list json) :=
  let '(artists, seen_ids) := acc in
  match credit with
  | JDict c =>
      match dict_lookup c "artist" with
      | None => Ok acc
      | Some artist =>
          mb_id ← getitem artist "id";
          known ← seen seen_ids mb_id;
          if (known : bool) then Ok acc
          else
            name ← getitem artist "name";
            name' ← getitem artist "name";
            sort_name ← get artist "sort-name" name';
            Ok (artists ++ [JDict [("id", mb_id); ("name", name);
                                   ("sort_name", sort_name)]],
                seen_ids ++ [mb_id])
      end
  | _ => Ok acc
  end.

Fixpoint add_credits (credits : list json) (acc : list json * list json)
  : result (list json * list json) :=
  match credits with
  | [] => Ok acc
  | credit :: rest => acc' ← add_credit credit acc; add_credits rest acc'
  end.

(** [get_release_artists]; [fetched] is what
    [musicbrainzngs.get_release_by_id] returns or raises. *)
Definition get_release_artists (fetched : result json) : list json :=
  let body : result (list json) :=
    result ← fetched;
    release ← getitem result "release";
    credited ← contains "artist-credit" release;
    if (credited : bool) then
      credit_list ← getitem release "artist-credit";
      credits ← iterate credit_list;
      acc ← add_credits credits ([], []);
      Ok acc.1
    else Ok [] in
  match body with
  | Ok artists => artists
  | Raise _ => []
  end.

(** The ids of the artists returned, in order. *)
Definition artist_ids (artists : list json) : list json :=
  map (fun a => match a with JDict d => dict_get d "id" JNull | _ => JNull end)
      artists.

Section Main.

Variable float_repr : float → string.

(** [add_artist] as [main] calls it, with whatever the three configuration
    requests returned. *)
Definition add_artist_with (post : json → result response) (artist_data : json)
    (root_folder quality_profile metadata_profile : json)
    (monitor search : bool) : result (bool * list message) :=
  foreign ← getitem artist_data "foreignArtistId";
  name ← getitem artist_data "artistName";
  let payload := JDict [
    ("foreignArtistId", foreign);
    ("artistName", name);
    ("qualityProfileId", quality_profile);
    ("metadataProfileId", metadata_profile);
    ("rootFolderPath", root_folder);
    ("monitored", JBool monitor);
    ("addOptions", JDict [
       ("monitor", JStr (if monitor then "all" else "none"));
       ("searchForMissingAlbums", JBool search)])
  ] in
  match post payload with
  | Raise _ => Ok (false, [ErrorAddingArtist])
  | Ok resp =>
      match raise_for_status resp with
      | Ok _ => Ok (true, [])
      | Raise _ =>
          if (status_code resp =? 400)%Z then
            error ← json_body resp;
            if str_contains "Artist already exists" (str float_repr error)
            then Ok (false, [ArtistAlreadyInLidarr])
            else Ok (false, [ErrorAddingArtist])
          else Ok (false, [ErrorAddingArtist])
      end
  end.

(** What Lidarr does while one artist of the release is processed: the
    answer to the search and to the POST. *)
Record artist_world := ArtistWorld {
  search_answer : result response;
  post_answer : json → result response;
}.

(** What the world does during a run of [main]. *)
Record world := World {
  rootfolder_answer : result response;
  qualityprofile_answer : result response;
  metadataprofile_answer : result response;
  release_fetched : result json;
  per_artist : list artist_world;
}.

(** How a run of [main] ends: [sys.exit(1)], an exception nobody catches, or
    the summary with its counters. *)
Inductive ending :=
| Exit1
| Crashed (e : exn)
| Summary (t : tally) (total : nat).

(** One turn of the loop over [artists]. *)
Definition process_artist (root_folder quality_profile metadata_profile : json)
    (monitor search : bool) (t : tally) (w : artist_world) : result tally :=
  let artist_data := search_artist (search_answer w) in
  if negb (truthy artist_data) then Ok (Tally (added t) (skipped t + 1))
  else
    '(success, _) ← add_artist_with (post_answer w) artist_data root_folder
                       quality_profile metadata_profile monitor search;
    if (success : bool) then Ok (Tally (added t + 1) (skipped t))
    else Ok (Tally (added t) (skipped t + 1)).

(** The loop: the artists in order, each with its share of the world; an
    artist the world says nothing about finds Lidarr unreachable. *)
Fixpoint process_artists (root_folder quality_profile metadata_profile : json)
    (monitor search : bool) (t : tally) (artists : list json)
    (ws : list artist_world) : result tally :=
  match artists with
  | [] => Ok t
  | _ :: rest =>
      let w := match ws with
               | w :: _ => w
               | [] => ArtistWorld (Raise RequestException)
                         (fun _ => Raise RequestException)
               end in
      t' ← process_artist root_folder quality_profile metadata_profile
             monitor search t w;
      process_artists root_folder quality_profile metadata_profile
        monitor search t' rest (tail ws)
  end.

(** [main], after the arguments are parsed. *)
Definition main (monitor search : bool) (w : world) : ending :=
  let root_folder := get_root_folder (rootfolder_answer w) in
  let quality_profile := get_quality_profile_id (qualityprofile_answer w) in
  let metadata_profile := get_metadata_profile_id (metadataprofile_answer w) in
  if negb (truthy root_folder && truthy quality_profile && truthy metadata_profile)
  then Exit1
  else
    let artists := get_release_artists (release_fetched w) in
    match artists with
    | [] => Exit1
    | _ =>
        match process_artists root_folder quality_profile metadata_profile
                monitor search (Tally 0 0) artists (per_artist w) with
        | Ok t => Summary t (length artists)
        | Raise e => Crashed e
        end
    end.

End Main.

(** *** Sample data: a release with two credited artists *)

Definition sample_release : json := JDict [
  ("release", JDict [
     ("id", JStr "f5093c06-23e3-404f-aeaa-40f72885ee3a");
     ("title", JStr "Judgment Night");
     ("artist-credit", JList [
        JDict [("artist", JDict [
          ("id", JStr "a74b1b7f-71a5-4011-9441-d0b5e4122711");
          ("name", JStr "Radiohead");
          ("sort-name", JStr "Radiohead")])];
        JStr " & ";
        JDict [("artist", JDict [
          ("id", JStr "83d91898-7763-47d7-b03b-b92132375c47");
          ("name", JStr "Pink Floyd")])];
        JStr " feat. ";
        JDict [("artist", JDict [
          ("id", JStr "a74b1b7f-71a5-4011-9441-d0b5e4122711");
          ("name", JStr "Radiohead (live)")])]])])
].

Definition ok_list (items : list json) : result response :=
  Ok (Response 200 (Ok (JList items))).

Definition sample_world : world := {|
  rootfolder_answer := ok_list [JDict [("id", JInt 1); ("path", JStr "/music")]];
  qualityprofile_answer := ok_list [JDict [("id", JInt 1); ("name", JStr "Any")]];
  metadataprofile_answer := ok_list [JDict [("id", JInt 1)]];
  release_fetched := Ok sample_release;
  per_artist := [
    ArtistWorld (ok_list [sample_artist_data]) conflict_post;
    ArtistWorld (ok_list []) created_post
  ];
|}.

End MbLidarrImport.

(** ** spotify_playlist_checker.py

    Time is the idealised clock of the rate limiter: a rational number of
    seconds that only moves when the script sleeps, waits for a response or is
    idle between two calls.  [time.time()] reads it without moving it. *)

Module SpotifyPlaylistChecker.
Import Py World.

(** Seconds between requests. *)
Definition MB_RATE_LIMIT : Q := 1.

(** Streaming service URL patterns, in the order of the dict literal. *)
Definition SERVICE_PATTERNS : list (string * string) := [
  ("spotify", "open\.spotify\.com/artist/");
  ("tidal", "tidal\.com/artist/");
  ("deezer", "deezer\.com/artist/")
].

(** What can be observed of a [MusicBrainzClient] over time. *)
Inductive event :=
| Slept (seconds : Q)        (* time.sleep(seconds) returned *)
| Stamped (t : Q)            (* self.last_request_time = t *)
| Issued (t : Q)             (* self.session.get(...) called at time t *)
| Answered (t : Q).          (* ... and returned or raised at time t *)

(** The client's field, the clock and the history so far (oldest first). *)
Record state := State {
  clock : Q;
  last_request_time : Q;
  trace : list event;
}.

(** [MusicBrainzClient.__init__] at a given time. *)
Definition init (t0 : Q) : state := State t0 0 [].

(** What the world does during one call of a client method: how long the
    script was busy elsewhere before the call, by how much [time.sleep]
    oversleeps, how long the request takes and what comes back. *)
Record net := Net {
  idle : Q;
  oversleep : Q;
  latency : Q;
  answer : result response;
}.

Definition time_sleep (seconds over : Q) (st : state) : state :=
  State (clock st + seconds + over)%Q (last_request_time st)
        (trace st ++ [Slept seconds]).

Definition Qltb (x y : Q) : bool := negb (Qle_bool y x).

Definition _rate_limit (over : Q) (st : state) : state :=
  let elapsed := (clock st - last_request_time st)%Q in
  let st' :=
    if Qltb elapsed MB_RATE_LIMIT
    then time_sleep (MB_RATE_LIMIT - elapsed)%Q over st
    else st in
  State (clock st') (clock st') (trace st' ++ [Stamped (clock st')]).

(** [self.session.get(...)] *)
Definition session_get (n : net) (st : state) : result response * state :=
  (answer n,
   State (clock st + latency n)%Q (last_request_time st)
         (trace st ++ [Issued (clock st); Answered (clock st + latency n)%Q])).

(** The classes [except requests.RequestException] catches. *)
Definition is_request_exception (e : exn) : bool :=
  match e with
  | RequestException | HTTPError | JSONDecodeError => true
  | _ => false
  end.

(** [try: body except requests.RequestException: return fallback] *)
Definition on_request_exception {A} (fallback : A) (body : result A) : result A :=
  match body with
  | Raise e => if is_request_exception e then Ok fallback else Raise e
  | ok => ok
  end.

Definition search_artist_by_spotify_id (n : net) (spotify_id : string) (st : state)
  : result json * state :=
  let st1 := _rate_limit (oversleep n) st in
  let '(got, st2) := session_get n st1 in
  (on_request_exception (JDict [])
     (response ← got;
      _ ← raise_for_status response;
      json_body response),
   st2).

Definition get_artist_urls (n : net) (mb_artist_id : json) (st : state)
  : result json * state :=
  let st1 := _rate_limit (oversleep n) st in
  let '(got, st2) := session_get n st1 in
  (on_request_exception (JList [])
     (response ← got;
      _ ← raise_for_status response;
      data ← json_body response;
      get data "relations" (JList [])),
   st2).

(** A call through the client, and any sequence of them (with the world's
    behaviour during each): what "a sequence of N calls" ranges over. *)
Inductive call :=
| SearchArtist (spotify_id : string)
| GetArtistUrls (mb_artist_id : json).

(** The script is busy elsewhere for [idle n] seconds. *)
Definition pass_time (n : net) (st : state) : state :=
  State (clock st + idle n)%Q (last_request_time st) (trace st).

Definition do_call (c : call * net) (st : state) : state :=
  match c.1 with
  | SearchArtist spotify_id =>
      (search_artist_by_spotify_id c.2 spotify_id (pass_time c.2 st)).2
  | GetArtistUrls mb_artist_id =>
      (get_artist_urls c.2 mb_artist_id (pass_time c.2 st)).2
  end.

Definition run_calls (calls : list (call * net)) (st : state) : state :=
  foldl (fun st c => do_call c st) st calls.

(** The times at which requests were issued, oldest first. *)
Definition issue_time (e : event) : option Q :=
  match e with
  | Issued t => Some t
  | _ => None
  end.
Definition issue_times (tr : list event) : list Q := omap issue_time tr.

(** [timestamp[i+1] - timestamp[i] >= interval] for all [i]. *)
Definition spaced (interval : Q) (ts : list Q) : Prop :=
  ∀ (i : nat) (a b : Q),
    ts !! i = Some a → ts !! S i = Some b → (interval <= b - a)%Q.

(** The world never runs backwards. *)
Definition forward (n : net) : Prop :=
  (0 <= idle n)%Q ∧ (0 <= oversleep n)%Q ∧ (0 <= latency n)%Q.

(** "Updated only after the request has been issued": every assignment to the
    timestamp has an issued request before it. *)
Definition stamped_after_issue (tr : list event) : Prop :=
  ∀ (i : nat) (t : Q), tr !! i = Some (Stamped t) →
    ∃ (j : nat) (u : Q), (j < i)%nat ∧ tr !! j = Some (Issued u).

(** The invariant of a client between two calls: the requests so far are
    spaced, and the latest one was issued at the stored timestamp, which is
    not in the future. *)
Definition paced (st : state) : Prop :=
  spaced MB_RATE_LIMIT (issue_times (trace st))
  ∧ ∀ t, last (issue_times (trace st)) = Some t →
         t = last_request_time st ∧ (last_request_time st <= clock st)%Q.

(** "A slow response delays the start of the next request": every request
    issued after a response starts at least the interval after it. *)
Definition response_delays_next (tr : list event) : Prop :=
  ∀ (i j : nat) (t u : Q), (i < j)%nat →
    tr !! i = Some (Answered t) → tr !! j = Some (Issued u) →
    (MB_RATE_LIMIT <= u - t)%Q.

(** A small session: a search answered after half a second, a lookup that
    takes five seconds, and another search right after it. *)
Definition ok_json (j : json) : result response := Ok (Response 200 (Ok j)).
Definition sample_calls : list (call * net) := [
  (SearchArtist "4Z8W4fKeB5YxbusRsdQVPb", Net 0 0 (1#2) (ok_json (JDict [])));
  (GetArtistUrls (JStr "a74b1b7f-71a5-4011-9441-d0b5e4122711"),
   Net (1#4) (1#100) 5 (ok_json (JDict [])));
  (SearchArtist "0OdUWJ0sBjDrqHygGUXeCF", Net 0 0 (1#2) (ok_json (JDict [])))
].

(** The inner loop over [SERVICE_PATTERNS.items()]. *)
Definition mark_services (url : string) (services : gmap string bool)
  : gmap string bool :=
  foldl (fun acc sp =>
           match Re.search sp.2 true url with
           | Some _ => <[sp.1 := true]> acc
           | None => acc
           end)
        services SERVICE_PATTERNS.

(** [re.search] wants a string. *)
Definition as_subject (url : json) : result string :=
  match url with
  | JStr s => Ok s
  | _ => Raise TypeError
  end.

Definition check_relation (relation : json) (services : gmap string bool)
  : result (gmap string bool) :=
  kind ← get relation "type" JNull;
  if eq_str kind "streaming" then
    has_url ← contains "url" relation;
    if (has_url : bool) then
      target ← getitem relation "url";
      url ← get target "resource" (JStr "");
      subject ← as_subject url;
      Ok (mark_services subject services)
    else Ok services
  else Ok services.

Fixpoint check_relations (relations : list json) (services : gmap string bool)
  : result (gmap string bool) :=
  match relations with
  | [] => Ok services
  | relation :: rest =>
      services' ← check_relation relation services;
      check_relations rest services'
  end.

Definition no_services : gmap string bool :=
  <["spotify" := false]> (<["tidal" := false]> (<["deezer" := false]> ∅)).

Definition check_streaming_services (relations : json)
  : result (gmap string bool) :=
  items ← iterate relations;
  check_relations items no_services.

(** A relation "of type streaming whose url.resource matches the pattern
    case-insensitively". *)
Definition links_to (pattern : string) (relation : json) : Prop :=
  ∃ (d target : list (string * json)) (url : string),
    relation = JDict d
    ∧ dict_lookup d "type" = Some (JStr "streaming")
    ∧ dict_lookup d "url" = Some (JDict target)
    ∧ dict_get target "resource" (JStr "") = JStr url
    ∧ is_Some (Re.search pattern true url).

(** The shape MusicBrainz gives a relation: an object, and when it is a
    streaming relation with a [url], that [url] is an object whose [resource]
    (if any) is a string. *)
Definition relation_shaped (relation : json) : Prop :=
  ∃ d : list (string * json),
    relation = JDict d
    ∧ (dict_lookup d "type" = Some (JStr "streaming") →
       ∀ target, dict_lookup d "url" = Some target →
         ∃ (t : list (string * json)) (url : string),
           target = JDict t ∧ dict_get t "resource" (JStr "") = JStr url).

(** Two streaming relations: a Spotify artist page and a page of a service
    that is not in [SERVICE_PATTERNS]. *)
Definition sample_relations : list json := [
  JDict [("type", JStr "streaming");
         ("url", JDict [("id", JStr "b1f4b2ef-8c3a-4d0e-9f51-0c2d7c9a1e11");
                        ("resource",
                         JStr "https://open.spotify.com/artist/4Z8W4fKeB5YxbusRsdQVPb")])];
  JDict [("type", JStr "streaming");
         ("url", JDict [("resource",
                         JStr "https://music.apple.com/us/artist/radiohead/657515")])]
].

(** One artist of the playlist, as [get_playlist_artists] returns it, with
    what the network does during the two MusicBrainz calls made for it. *)
Record artist := Artist {
  id : string;
  name : string;
  search_net : net;
  urls_net : net;
}.

(** One entry of [results]. *)
Record artist_result := ArtistResult {
  r_name : string;
  r_spotify_id : string;
  mb_found : bool;
  services : gmap string bool;
}.

(** [seq[0]] *)
Definition first_item (seq : json) : result json :=
  match seq with
  | JList (x :: _) => Ok x
  | JList [] => Raise IndexError
  | JStr (String c _) => Ok (JStr (String c ""))
  | JStr "" => Raise IndexError
  | JDict _ => Raise KeyError
  | _ => Raise TypeError
  end.

(** The body of the loop over [artists] in [main]. *)
Definition check_artist (a : artist) (st : state) : result artist_result * state :=
  let '(searched, st1) :=
    search_artist_by_spotify_id (search_net a) (id a) (pass_time (search_net a) st) in
  match searched with
  | Raise e => (Raise e, st1)
  | Ok mb_search =>
      match get mb_search "artists" JNull with
      | Raise e => (Raise e, st1)
      | Ok listed =>
          if truthy listed then
            match first_item listed ≫= (fun mb_artist => getitem mb_artist "id") with
            | Raise e => (Raise e, st1)
            | Ok mb_id =>
                let '(fetched, st2) :=
                  get_artist_urls (urls_net a) mb_id (pass_time (urls_net a) st1) in
                (relations ← fetched;
                 services ← check_streaming_services relations;
                 Ok (ArtistResult (name a) (id a) true services),
                 st2)
            end
          else (Ok (ArtistResult (name a) (id a) false no_services), st1)
      end
  end.

(** The loop itself: [results] in order, or the exception that ends the
    process, and the client's final state. *)
Fixpoint check_artists (artists : list artist) (st : state)
  : result (list artist_result) * state :=
  match artists with
  | [] => (Ok [], st)
  | a :: rest =>
      match check_artist a st with
      | (Raise e, st') => (Raise e, st')
      | (Ok r, st') =>
          match check_artists rest st' with
          | (Raise e, st'') => (Raise e, st'')
          | (Ok rs, st'') => (Ok (r :: rs), st'')
          end
      end
  end.

(** [r["services"][k]] *)
Definition service_flag (k : string) (r : artist_result) : result bool :=
  match services r !! k with
  | Some b => Ok b
  | None => Raise KeyError
  end.

(** [all(r["services"].values())] *)
Definition all_services (r : artist_result) : bool :=
  forallb (fun kv => kv.2) (map_to_list (services r)).

(** [sum(1 for r in results if flag(r))] *)
Fixpoint count_if (flag : artist_result → result bool) (results : list artist_result)
  : result nat :=
  match results with
  | [] => Ok 0
  | r :: rest =>
      b ← flag r;
      n ← count_if flag rest;
      Ok (if (b : bool) then S n else n)
  end.

(** [n/total*100] *)
Definition percent (n total : nat) : result Q :=
  if (total =? 0)%nat then Raise ZeroDivisionError
  else Ok (inject_Z (Z.of_nat n) / inject_Z (Z.of_nat total) * 100)%Q.

(** The figures [print_summary] prints; the percentages are exact, their
    rounding to one decimal is left out. *)
Record summary := Summary {
  total : nat;
  in_mb : nat;
  has_spotify : nat;
  has_tidal : nat;
  has_deezer : nat;
  has_all : nat;
  pct_in_mb : Q;
  pct_spotify : Q;
  pct_tidal : Q;
  pct_deezer : Q;
  pct_all : Q;
  missing_any : list artist_result;
}.

Definition print_summary (results : list artist_result) : result summary :=
  let total := length results in
  in_mb ← count_if (fun r => Ok (mb_found r)) results;
  has_spotify ← count_if (service_flag "spotify") results;
  has_tidal ← count_if (service_flag "tidal") results;
  has_deezer ← count_if (service_flag "deezer") results;
  has_all ← count_if (fun r => Ok (all_services r)) results;
  p_mb ← percent in_mb total;
  p_spotify ← percent has_spotify total;
  p_tidal ← percent has_tidal total;
  p_deezer ← percent has_deezer total;
  p_all ← percent has_all total;
  Ok (Summary total in_mb has_spotify has_tidal has_deezer has_all
        p_mb p_spotify p_tidal p_deezer p_all
        (filter (fun r => mb_found r && negb (all_services r)) results)).

(** [--output] *)
Inductive output_format := OutSummary | OutDetailed | OutCsv.

(** What the chosen printer shows: the summary figures, or one block or one
    line per artist (the text of the lines is left out). *)
Inductive report :=
| SummaryReport (s : summary)
| DetailedReport (rows : list artist_result)
| CsvReport (rows : list artist_result).

(** The three flags a line of [print_csv] reads. *)
Definition read_flags (r : artist_result) : result artist_result :=
  _ ← service_flag "spotify" r;
  _ ← service_flag "tidal" r;
  _ ← service_flag "deezer" r;
  Ok r.

Fixpoint print_csv (results : list artist_result) : result (list artist_result) :=
  match results with
  | [] => Ok []
  | r :: rest =>
      row ← read_flags r;
      rows ← print_csv rest;
      Ok (row :: rows)
  end.

Fixpoint print_detailed (results : list artist_result) : result (list artist_result) :=
  match results with
  | [] => Ok []
  | r :: rest =>
      row ← (if mb_found r then read_flags r else Ok r);
      rows ← print_detailed rest;
      Ok (row :: rows)
  end.

(** The end of [main]: filter, then print. *)
Definition print_results (missing_only : bool) (output : output_format)
    (results : list artist_result) : result report :=
  let results :=
    if missing_only then filter (fun r => negb (all_services r)) results
    else results in
  match output with
  | OutCsv => rows ← print_csv results; Ok (CsvReport rows)
  | OutDetailed => rows ← print_detailed results; Ok (DetailedReport rows)
  | OutSummary => s ← print_summary results; Ok (SummaryReport s)
  end.

(** A presence report with all three flags, and an entry of [results] as
    [main] builds them. *)
Definition all_flags (services : gmap string bool) : Prop :=
  is_Some (services !! "spotify")
  ∧ is_Some (services !! "tidal")
  ∧ is_Some (services !! "deezer").

Definition reported (r : artist_result) : Prop := all_flags (services r).

(** Two artists: one on all three services, one unknown to MusicBrainz. *)
Definition sample_results : list artist_result := [
  ArtistResult "Radiohead" "4Z8W4fKeB5YxbusRsdQVPb" true
    {[ "spotify" := true; "tidal" := true; "deezer" := true ]};
  ArtistResult "Garage Band Nobody Knows" "0OdUWJ0sBjDrqHygGUXeCF" false no_services
].

(** [main] from the MusicBrainz loop on, for a client created at [t0]. *)
Definition main (missing_only : bool) (output : output_format)
    (artists : list artist) (t0 : Q) : result report * state :=
  let '(checked, st) := check_artists artists (init t0) in
  (checked ≫= print_results missing_only output, st).

(** *** The playlist *)

(** How a function that may call [sys.exit] ends. *)
Inductive outcome (A : Type) :=
| Returned (a : A)
| Exited (code : Z).
Arguments Returned {A} a.
Arguments Exited {A} code.

(** [tracks.extend(more)]: only a list has [extend]. *)
Definition extend (tracks : json) (more : list json) : result json :=
  match tracks with
  | JList l => Ok (JList (l ++ more))
  | _ => Raise AttributeError
  end.

(** The pagination loop.  [pages] is what [spotify_client.next] answers, call
    after call; when the script asks for more pages than the service has, the
    call fails. *)
Fixpoint follow_pages (pages : list (result json)) (results tracks : json)
  : result json :=
  next ← getitem results "next";
  if truthy next then
    match pages with
    | [] => Raise RequestException
    | page :: pages' =>
        results' ← page;
        items ← getitem results' "items";
        more ← iterate items;
        tracks' ← extend tracks more;
        follow_pages pages' results' tracks'
    end
  else Ok tracks.

(** [artist_id not in artists_dict], on a dict kept as the list of its
    entries. *)
Definition known_artist (artists_dict : list (json * json)) (artist_id : json)
  : result bool :=
  if hashable artist_id
  then Ok (existsb (fun kv => key_eq kv.1 artist_id) artists_dict)
  else Raise TypeError.

(** The body of the loop over the artists of a track. *)
Definition note_artist (artist : json) (artists_dict : list (json * json))
  : result (list (json * json)) :=
  artist_id ← getitem artist "id";
  known ← known_artist artists_dict artist_id;
  if (known : bool) then Ok artists_dict
  else
    name ← getitem artist "name";
    Ok (artists_dict ++ [(artist_id, JDict [("id", artist_id); ("name", name)])]).

Fixpoint note_artists (artists : list json) (artists_dict : list (json * json))
  : result (list (json * json)) :=
  match artists with
  | [] => Ok artists_dict
  | artist :: rest =>
      d ← note_artist artist artists_dict; note_artists rest d
  end.

(** The body of the loop over the tracks. *)
Definition note_item (item : json) (artists_dict : list (json * json))
  : result (list (json * json)) :=
  track ← getitem item "track";
  if truthy track then
    credited ← getitem track "artists";
    if truthy credited then
      artists ← iterate credited;
      note_artists artists artists_dict
    else Ok artists_dict
  else Ok artists_dict.

Fixpoint note_items (items : list json) (artists_dict : list (json * json))
  : result (list (json * json)) :=
  match items with
  | [] => Ok artists_dict
  | item :: rest => d ← note_item item artists_dict; note_items rest d
  end.

(** The first half of [get_playlist_artists], up to the loop over [tracks]:
    what that loop will iterate.  [first_page] is what
    [spotify_client.playlist_tracks] answers. *)
Definition gather_tracks (first_page : result json)
    (pages : list (result json)) : result (list json) :=
  results ← first_page;
  tracks ← getitem results "items";
  tracks ← follow_pages pages results tracks;
  iterate tracks.

(** [get_playlist_artists] *)
Definition get_playlist_artists (first_page : result json)
    (pages : list (result json)) : outcome (list json) :=
  let body : result (list json) :=
    items ← gather_tracks first_page pages;
    artists_dict ← note_items items [];
    Ok (artists_dict.*2) in
  match body with
  | Ok artists => Returned artists
  | Raise _ => Exited 1
  end.

(** The ids of the entries returned, in order. *)
Definition entry_ids (artists : list json) : list json :=
  map (fun a => match a with JDict d => dict_get d "id" JNull | _ => JNull end)
      artists.

(** The artist objects the tracks credit, in order, when everything has the
    shape [note_item] can walk. *)
Definition credited_artists (item : json) : list json :=
  match getitem item "track" with
  | Ok track =>
      if truthy track then
        match getitem track "artists" with
        | Ok credited =>
            if truthy credited
            then match iterate credited with Ok l => l | Raise _ => [] end
            else []
        | Raise _ => []
        end
      else []
  | Raise _ => []
  end.

(** Pages that follow one another: [chained results pages gathered] when
    [results] and each of [pages] but the last name a next page, the last
    names none, and [gathered] is the items of [pages], in order. *)
Inductive chained : json → list json → list json → Prop :=
| chained_last (results next : json) :
    getitem results "next" = Ok next → truthy next = false →
    chained results [] []
| chained_next (results next page items : json) (pages more rest : list json) :
    getitem results "next" = Ok next → truthy next = true →
    getitem page "items" = Ok items → iterate items = Ok more →
    chained page pages rest →
    chained results (page :: pages) (more ++ rest).

(** A playlist of three tracks on two pages, one of them a local file
    without track object. *)
Definition sample_first_page : json := JDict [
  ("items", JList [
     JDict [("track", JDict [("name", JStr "Creep"); ("artists", JList [
       JDict [("id", JStr "4Z8W4fKeB5YxbusRsdQVPb"); ("name", JStr "Radiohead")]])])];
     JDict [("track", JNull)]]);
  ("next", JStr "https://api.spotify.com/v1/playlists/37i9dQZF1DXcBWIGoYBM5M/tracks?offset=2")
].
Definition sample_second_page : json := JDict [
  ("items", JList [
     JDict [("track", JDict [("name", JStr "Mask Off (remix)"); ("artists", JList [
       JDict [("id", JStr "1RyvyyTE3xzB2ZywiAwp0i"); ("name", JStr "Future")];
       JDict [("id", JStr "4Z8W4fKeB5YxbusRsdQVPb"); ("name", JStr "Radiohead")]])])]]);
  ("next", JNull)
].

(** *** The playlist URL *)

Section PlaylistId.

(** [urllib.parse.urlparse], as far as the script reads its result: the
    [netloc] and the [path], or None when it raises ValueError. *)
Variable urlparse : string → option (string * string).

(** [extract_playlist_id]; None is the ValueError. *)
Definition extract_playlist_id (playlist_url : string) : option string :=
  if startswith playlist_url "spotify:playlist:"
  then Some (List.last (split ":" playlist_url) "")
  else
    '(netloc, path) ← urlparse playlist_url;
    if str_contains "open.spotify.com" netloc then
      let path_parts := split "/" (strip_char "/" path) in
      match path_parts with
      | first :: second :: _ =>
          if String.eqb first "playlist"
          then Some (List.hd "" (split "?" second))
          else None
      | _ => None
      end
    else None.

End PlaylistId.

(** What [urlparse] makes of one address, and of nothing else. *)
Definition sample_urlparse (url : string) : option (string * string) :=
  if String.eqb url "https://open.spotify.com/playlist/37i9dQZF1DXcBWIGoYBM5M"
  then Some ("open.spotify.com", "/playlist/37i9dQZF1DXcBWIGoYBM5M")
  else None.

(** *** Further vocabulary for the client and the loop *)

(** The request of a call ends in an exception that
    [except requests.RequestException] catches: a transport error, a 4xx or
    5xx status, or a body that is not JSON. *)
Definition request_fails (n : net) : bool :=
  match answer n with
  | Raise e => is_request_exception e
  | Ok r =>
      match raise_for_status r with
      | Raise _ => true
      | Ok _ =>
          match json_body r with
          | Raise e => is_request_exception e
          | Ok _ => false
          end
      end
  end.

(** The same behaviour of the world, with another answer to the request. *)
Definition with_answer (n : net) (r : result response) : net :=
  Net (idle n) (oversleep n) (latency n) r.

Definition with_search_answer (a : artist) (r : result response) : artist :=
  Artist (id a) (name a) (with_answer (search_net a) r) (urls_net a).
Definition with_urls_answer (a : artist) (r : result response) : artist :=
  Artist (id a) (name a) (search_net a) (with_answer (urls_net a) r).

(** Two artists of a playlist: MusicBrainz is down for the first search; the
    second search finds an artist whose relations cannot be fetched. *)
Definition artist_while_down : artist :=
  Artist "4Z8W4fKeB5YxbusRsdQVPb" "Radiohead"
    (Net 0 0 (1#2) (Raise RequestException))
    (Net 0 0 (1#2) (ok_json (JDict [("relations", JList sample_relations)]))).
Definition artist_without_lookup : artist :=
  Artist "0OdUWJ0sBjDrqHygGUXeCF" "Future"
    (Net 0 0 (1#2)
       (ok_json (JDict [("artists", JList [JDict [("id", JStr "48262e82")]])])))
    (Net 0 0 (1#2) (Ok (Response 503 (Raise JSONDecodeError)))).
Definition sample_artists : list artist :=
  [artist_while_down; artist_without_lookup].

(** The durations [time.sleep] was called with, oldest first. *)
Definition sleep_time (e : event) : option Q :=
  match e with
  | Slept d => Some d
  | _ => None
  end.
Definition sleep_times (tr : list event) : list Q := omap sleep_time tr.

(** The client's timestamp is not in the future, and every sleep so far was
    asked for a positive time of at most the interval. *)
Definition rested (st : state) : Prop :=
  (last_request_time st <= clock st)%Q
  ∧ ∀ d, d ∈ sleep_times (trace st) → (0 < d)%Q ∧ (d <= MB_RATE_LIMIT)%Q.

End SpotifyPlaylistChecker.

(** * Properties *)

(** ** The rate limiter *)

Section RateLimit.
Import Py World SpotifyPlaylistChecker.

Lemma Qltb_true (x y : Q) : Qltb x y = true ↔ (x < y)%Q.
Proof.
  unfold Qltb. rewrite negb_true_iff, <- not_true_iff_false, Qle_bool_iff.
  split; [apply Qnot_le_lt | apply Qlt_not_le].
Qed.

Lemma Qltb_false (x y : Q) : Qltb x y = false ↔ (y <= x)%Q.
Proof.
  unfold Qltb. rewrite negb_false_iff. apply Qle_bool_iff.
Qed.

Lemma issue_times_app (tr1 tr2 : list event) :
  issue_times (tr1 ++ tr2) = issue_times tr1 ++ issue_times tr2.
Proof. unfold issue_times. apply omap_app. Qed.

Lemma spaced_snoc (interval t : Q) (ts : list Q) :
  spaced interval ts →
  (∀ x, last ts = Some x → (interval <= t - x)%Q) →
  spaced interval (ts ++ [t]).
Proof.
  intros Hts Hlast i a b Ha Hb.
  destruct (decide (S i < length ts)%nat) as [Hlt | Hge].
  - rewrite lookup_app_l in Ha by lia. rewrite lookup_app_l in Hb by lia.
    eauto.
  - apply lookup_lt_Some in Hb as Hlen. rewrite length_app in Hlen; simpl in Hlen.
    assert (S i = length ts) as Hi by lia.
    rewrite lookup_app_l in Ha by lia.
    rewrite lookup_app_r in Hb by lia.
    rewrite Hi, Nat.sub_diag in Hb. injection Hb as <-.
    apply Hlast. rewrite last_lookup, <- Hi. exact Ha.
Qed.

(** What [_rate_limit] does to the clock: afterwards the stored timestamp is
    the current time, and the previous timestamp is at least the interval
    behind it. *)
Lemma rate_limit_waits (over : Q) (st : state) :
  (0 <= over)%Q →
  let st' := _rate_limit over st in
  last_request_time st' = clock st'
  ∧ (MB_RATE_LIMIT <= clock st' - last_request_time st)%Q
  ∧ (clock st <= clock st')%Q.
Proof.
  intros Hover. unfold _rate_limit.
  destruct (Qltb (clock st - last_request_time st) MB_RATE_LIMIT) eqn:Hlt; simpl.
  - apply Qltb_true in Hlt. unfold MB_RATE_LIMIT in *. repeat split; lra.
  - apply Qltb_false in Hlt. unfold MB_RATE_LIMIT in *. repeat split; lra.
Qed.

(** The events one call appends, whichever method it is. *)
Lemma do_call_trace (c : call * net) (st : state) :
  let st1 := _rate_limit (oversleep c.2) (pass_time c.2 st) in
  trace (do_call c st)
    = trace st1 ++ [Issued (clock st1); Answered (clock st1 + latency c.2)%Q]
  ∧ last_request_time (do_call c st) = clock st1
  ∧ clock (do_call c st) = (clock st1 + latency c.2)%Q.
Proof.
  destruct c as [[spotify_id | mb_artist_id] n]; simpl;
    unfold do_call, search_artist_by_spotify_id, get_artist_urls; simpl;
    auto.
Qed.

Lemma rate_limit_trace (over : Q) (st : state) :
  issue_times (trace (_rate_limit over st)) = issue_times (trace st).
Proof.
  unfold _rate_limit, time_sleep.
  destruct (Qltb _ _); simpl; rewrite !issue_times_app; simpl;
    rewrite ?app_nil_r; reflexivity.
Qed.

Lemma paced_init (t0 : Q) : paced (init t0).
Proof. split; [intros i a b Ha; inversion Ha | intros t Ht; inversion Ht]. Qed.

Lemma paced_do_call (c : call * net) (st : state) :
  forward c.2 → paced st → paced (do_call c st).
Proof.
  intros (Hidle & Hover & Hlat) [Hsp Hlast].
  destruct (do_call_trace c st) as (Htr & Hstamp & Hclock).
  destruct (rate_limit_waits (oversleep c.2) (pass_time c.2 st) Hover)
    as (_ & Hwait & Hmono).
  simpl in Hwait, Hmono.
  unfold paced. rewrite Htr, issue_times_app, rate_limit_trace. simpl.
  split.
  - apply spaced_snoc; [exact Hsp |].
    intros x Hx. destruct (Hlast x Hx) as [-> _]. exact Hwait.
  - intros t Ht. rewrite last_snoc in Ht. injection Ht as <-.
    rewrite Hstamp, Hclock. split; [reflexivity | lra].
Qed.

Lemma paced_run_calls (calls : list (call * net)) (st : state) :
  Forall (fun c => forward c.2) calls → paced st → paced (run_calls calls st).
Proof.
  intros Hfw. revert st.
  induction Hfw as [| c calls Hc _ IH]; intros st Hst; [exact Hst |].
  simpl. apply IH. apply paced_do_call; assumption.
Qed.

(** C1. In any sequence of calls through the client, made on a clock that
    never runs backwards and with a sleep that lasts at least as long as
    asked, two consecutive requests are issued at least [MB_RATE_LIMIT]
    (one second) apart. *)
Theorem requests_spaced_by_rate_limit (calls : list (call * net)) (t0 : Q) :
  Forall (fun c => forward c.2) calls →
  spaced MB_RATE_LIMIT (issue_times (trace (run_calls calls (init t0)))).
Proof.
  intros Hfw. apply (paced_run_calls calls (init t0) Hfw (paced_init t0)).
Qed.

Lemma requests_spaced_by_rate_limit_witness :
  spaced MB_RATE_LIMIT (issue_times (trace (run_calls sample_calls (init 1000)))).
Proof.
  apply (requests_spaced_by_rate_limit sample_calls 1000).
  repeat constructor; simpl; lra.
Defined.

(** The same session, run: the second request waits a quarter of a second
    (and oversleeps), the third is issued the moment the five-second response
    has arrived. *)
Example sample_calls_trace :
  trace (run_calls sample_calls (init 1000))
  = [Stamped 1000; Issued 1000; Answered (2001 # 2);
     Slept (2 # 8); Stamped (6406464 # 6400); Issued (6406464 # 6400);
     Answered (6438464 # 6400);
     Stamped (6438464 # 6400); Issued (6438464 # 6400);
     Answered (12883328 # 12800)].
Proof. vm_compute. reflexivity. Qed.

(** C4, as stated, fails: in the first call of the sample session the
    timestamp is assigned at position 0 of the trace, before any request has
    been issued; and the third request starts at the very moment the slow
    second response arrives, not an interval later. *)
Lemma stamp_after_issue_counterexample :
  ¬ stamped_after_issue (trace (run_calls sample_calls (init 1000)))
  ∧ ¬ response_delays_next (trace (run_calls sample_calls (init 1000))).
Proof.
  rewrite sample_calls_trace. split.
  - intros H. destruct (H 0%nat 1000%Q eq_refl) as (j & u & Hj & _). lia.
  - intros H.
    specialize (H 6%nat 8%nat (6438464 # 6400) (6438464 # 6400)
                  ltac:(lia) eq_refl eq_refl).
    unfold MB_RATE_LIMIT in H. lra.
Qed.

(** C4, amended. In every call the timestamp is assigned inside
    [_rate_limit], after the wait (if any) and before the request is issued;
    its value is the time at which the request is then issued, and it is still
    that when the response has arrived.  The wait is computed from the time
    the call starts, so the time the previous response took counts towards
    the interval. *)
Theorem stamp_taken_before_issue (c : call * net) (st : state) :
  let elapsed := (clock st + idle c.2 - last_request_time st)%Q in
  ∃ (waited : list event) (t : Q),
    trace (do_call c st)
      = trace st ++ waited ++ [Stamped t; Issued t; Answered (t + latency c.2)%Q]
    ∧ last_request_time (do_call c st) = t
    ∧ ((waited = [] ∧ (MB_RATE_LIMIT <= elapsed)%Q)
       ∨ (waited = [Slept (MB_RATE_LIMIT - elapsed)%Q] ∧ (elapsed < MB_RATE_LIMIT)%Q)).
Proof.
  intros elapsed.
  destruct (do_call_trace c st) as (Htr & Hstamp & _). simpl in Htr, Hstamp.
  rewrite Htr, Hstamp. clear Htr Hstamp.
  unfold _rate_limit, time_sleep, pass_time. simpl. fold elapsed.
  destruct (Qltb elapsed MB_RATE_LIMIT) eqn:Hlt; simpl.
  - apply Qltb_true in Hlt.
    eexists [Slept (MB_RATE_LIMIT - elapsed)%Q], _.
    split; [| split; [reflexivity | right; split; [reflexivity | exact Hlt]]].
    rewrite <- !app_assoc. reflexivity.
  - apply Qltb_false in Hlt.
    eexists [], _.
    split; [| split; [reflexivity | left; split; [reflexivity | exact Hlt]]].
    rewrite <- !app_assoc. reflexivity.
Qed.

Lemma run_calls_app (calls1 calls2 : list (call * net)) (st : state) :
  run_calls (calls1 ++ calls2) st = run_calls calls2 (run_calls calls1 st).
Proof. unfold run_calls. apply foldl_app. Qed.

(** The loop body of [main] goes through the client once or twice. *)
Lemma check_artist_calls (a : artist) (st : state) :
  ∃ calls, (check_artist a st).2 = run_calls calls st
    ∧ Forall (fun c => c.2 = search_net a ∨ c.2 = urls_net a) calls.
Proof.
  unfold check_artist.
  destruct (search_artist_by_spotify_id (search_net a) (id a)
              (pass_time (search_net a) st)) as [searched st1] eqn:Hsearch.
  assert (st1 = run_calls [(SearchArtist (id a), search_net a)] st) as Hst1.
  { change (run_calls [(SearchArtist (id a), search_net a)] st)
      with (search_artist_by_spotify_id (search_net a) (id a)
              (pass_time (search_net a) st)).2.
    by rewrite Hsearch. }
  assert (Forall (fun c : call * net => c.2 = search_net a ∨ c.2 = urls_net a)
            [(SearchArtist (id a), search_net a)]) as Hone.
  { repeat constructor. }
  destruct searched as [mb_search | e]; [| eauto].
  destruct (get mb_search "artists" JNull) as [listed | e]; [| eauto].
  destruct (truthy listed); [| eauto].
  destruct (first_item listed ≫= _) as [mb_id | e]; [| eauto].
  destruct (get_artist_urls (urls_net a) mb_id (pass_time (urls_net a) st1))
    as [fetched st2] eqn:Hurls.
  exists [(SearchArtist (id a), search_net a); (GetArtistUrls mb_id, urls_net a)].
  split; [| constructor; [by left |]; constructor; [by right | constructor]].
  change (run_calls _ st) with
    (get_artist_urls (urls_net a) mb_id
       (pass_time (urls_net a)
          (run_calls [(SearchArtist (id a), search_net a)] st))).2.
  rewrite <- Hst1, Hurls. reflexivity.
Qed.

Lemma check_artists_calls (artists : list artist) (st : state) :
  ∃ calls, (check_artists artists st).2 = run_calls calls st
    ∧ Forall (fun c => ∃ a, a ∈ artists ∧ (c.2 = search_net a ∨ c.2 = urls_net a))
        calls.
Proof.
  revert st. induction artists as [| a artists IH]; intros st; simpl.
  - exists []. split; [reflexivity | constructor].
  - destruct (check_artist_calls a st) as (calls1 & Hst1 & Hnets1).
    destruct (check_artist a st) as [[r | e] st1]; simpl in Hst1.
    + destruct (IH st1) as (calls2 & Hst2 & Hnets2).
      exists (calls1 ++ calls2). split.
      * rewrite run_calls_app, <- Hst1, <- Hst2.
        by destruct (check_artists artists st1) as [[rs | e] st2].
      * apply Forall_app. split.
        -- apply (Forall_impl _ _ _ Hnets1). intros c Hc. exists a. split;
             [apply list_elem_of_here | exact Hc].
        -- apply (Forall_impl _ _ _ Hnets2). intros c (a' & Hin & Hc).
           exists a'. split; [by apply list_elem_of_further | exact Hc].
    + exists calls1. split; [exact Hst1 |].
      apply (Forall_impl _ _ _ Hnets1). intros c Hc. exists a. split;
        [apply list_elem_of_here | exact Hc].
Qed.

(** The requests [main] makes for a playlist are spaced, however the run
    ends. *)
Corollary main_requests_spaced (missing_only : bool) (output : output_format)
    (artists : list artist) (t0 : Q) :
  Forall (fun a => forward (search_net a) ∧ forward (urls_net a)) artists →
  spaced MB_RATE_LIMIT (issue_times (trace (main missing_only output artists t0).2)).
Proof.
  intros Hfw. unfold main.
  destruct (check_artists_calls artists (init t0)) as (calls & Hst & Hnets).
  destruct (check_artists artists (init t0)) as [checked st]. simpl in *. subst st.
  apply (paced_run_calls calls (init t0)); [| apply paced_init].
  apply (Forall_impl _ _ _ Hnets). intros c (a & Hin & Hc).
  rewrite Forall_forall in Hfw. destruct (Hfw a Hin) as [Hs Hu].
  destruct Hc as [-> | ->]; assumption.
Qed.

End RateLimit.

(** ** The presence report *)

Section Presence.
Import Py World SpotifyPlaylistChecker.

Lemma eq_str_true (v : json) (s : string) : eq_str v s = true ↔ v = JStr s.
Proof.
  destruct v; simpl; try (split; [discriminate | intros [=]]).
  rewrite String.eqb_eq. split; [intros -> | intros [= ->]]; reflexivity.
Qed.

Lemma dict_get_null (d : list (string * json)) (k s : string) :
  dict_get d k JNull = JStr s ↔ dict_lookup d k = Some (JStr s).
Proof.
  unfold dict_get. destruct (dict_lookup d k); split; intros H;
    try discriminate; congruence.
Qed.

(** The three patterns are in the fragment [Re.parse] reads. *)
Lemma service_patterns_parse :
  Forall (fun sp => is_Some (Re.parse sp.2)) SERVICE_PATTERNS.
Proof. repeat constructor; vm_compute; eauto. Qed.

(** One pass over the patterns turns on exactly the flags whose pattern is
    found in the URL. *)
Lemma mark_services_lookup (url platform pattern : string)
    (services : gmap string bool) :
  (platform, pattern) ∈ SERVICE_PATTERNS →
  mark_services url services !! platform
  = if bool_decide (is_Some (Re.search pattern true url)) then Some true
    else services !! platform.
Proof.
  intros Hin. unfold mark_services, SERVICE_PATTERNS in *. simpl.
  repeat (apply elem_of_cons in Hin as [[= -> ->] | Hin]);
    [ | | | by apply elem_of_nil in Hin ];
    repeat match goal with
           | |- context [Re.search ?p true url] =>
               destruct (Re.search p true url) eqn:?
           end;
    repeat case_bool_decide;
    simplify_map_eq; try done;
    match goal with
    | H : ¬ is_Some (Some _) |- _ => exfalso; apply H; eauto
    | H : is_Some None |- _ => by destruct H
    end.
Qed.

(** A relation of the expected shape never makes the loop body raise, and
    changes the report only when it is a streaming relation with a URL. *)
Lemma check_relation_shaped (relation : json) (services : gmap string bool) :
  relation_shaped relation →
  ∃ services', check_relation relation services = Ok services'
    ∧ ∀ platform pattern, (platform, pattern) ∈ SERVICE_PATTERNS →
        ∃ b : bool, (b = true ↔ links_to pattern relation)
          ∧ services' !! platform = if b then Some true else services !! platform.
Proof.
  intros (d & -> & Hshape). unfold check_relation. simpl.
  assert (∀ pattern, ¬ (dict_lookup d "type" = Some (JStr "streaming")
                        ∧ is_Some (dict_lookup d "url")) →
                     false = true ↔ links_to pattern (JDict d)) as Hnot.
  { intros pattern Hno. split; [discriminate |].
    intros (d' & target & url & [= <-] & Hty & Hurl & _).
    exfalso. apply Hno. rewrite Hurl. eauto. }
  destruct (eq_str (dict_get d "type" JNull) "streaming") eqn:Hkind.
  - apply eq_str_true, dict_get_null in Hkind.
    destruct (dict_lookup d "url") as [target |] eqn:Hurl; simpl.
    + destruct (Hshape Hkind target eq_refl) as (t & url & -> & Hres).
      simpl. rewrite Hres. simpl.
      eexists; split; [reflexivity |].
      intros platform pattern Hin.
      exists (bool_decide (is_Some (Re.search pattern true url))).
      rewrite (mark_services_lookup url platform pattern services Hin).
      split; [| reflexivity].
      rewrite bool_decide_eq_true. split.
      * intros Hm. exists d, t, url. auto.
      * intros (d' & t' & url' & [= <-] & _ & Hurl' & Hres' & Hm).
        rewrite Hurl in Hurl'. injection Hurl' as <-.
        rewrite Hres in Hres'. injection Hres' as <-. exact Hm.
    + eexists; split; [reflexivity |].
      intros platform pattern _. exists false. split; [| reflexivity].
      apply Hnot. intros [_ [? [=]]].
  - eexists; split; [reflexivity |].
    intros platform pattern _. exists false. split; [| reflexivity].
    apply Hnot. intros [Hty _].
    apply dict_get_null, eq_str_true in Hty. congruence.
Qed.

Lemma check_relations_shaped (relations : list json) (services : gmap string bool) :
  Forall relation_shaped relations →
  ∃ services', check_relations relations services = Ok services'
    ∧ ∀ platform pattern, (platform, pattern) ∈ SERVICE_PATTERNS →
        ∃ b : bool, (b = true ↔ Exists (links_to pattern) relations)
          ∧ services' !! platform = if b then Some true else services !! platform.
Proof.
  intros Hall. revert services.
  induction Hall as [| relation relations Hrel _ IH]; intros services.
  - exists services. split; [reflexivity |].
    intros platform pattern _. exists false. split; [| reflexivity].
    rewrite Exists_nil. split; [discriminate | tauto].
  - destruct (check_relation_shaped relation services Hrel) as (s1 & Hs1 & Hl1).
    destruct (IH s1) as (s2 & Hs2 & Hl2).
    exists s2. simpl. rewrite Hs1. simpl. split; [exact Hs2 |].
    intros platform pattern Hin.
    destruct (Hl1 platform pattern Hin) as (b1 & Hb1 & Hv1).
    destruct (Hl2 platform pattern Hin) as (b2 & Hb2 & Hv2).
    exists (b1 || b2). rewrite Exists_cons, orb_true_iff, Hb1, Hb2.
    split; [tauto |].
    rewrite Hv2, Hv1. destruct b1, b2; reflexivity.
Qed.

(** C9. For a list of relations of the MusicBrainz shape the presence report
    is returned, and it marks a platform true exactly when some relation of
    type "streaming" has a [url.resource] in which the platform's pattern is
    found, case-insensitively; otherwise it marks the platform false.  In
    particular two streaming relations, one to a Spotify artist page and one
    to a service without a pattern, give spotify true, tidal and deezer
    false. *)
Theorem presence_is_or_over_relations :
  (∀ relations : list json,
     Forall relation_shaped relations →
     ∃ services : gmap string bool,
       check_streaming_services (JList relations) = Ok services
       ∧ ∀ platform pattern, (platform, pattern) ∈ SERVICE_PATTERNS →
           (services !! platform = Some true
            ↔ Exists (links_to pattern) relations)
           ∧ (services !! platform = Some false
              ↔ ¬ Exists (links_to pattern) relations))
  ∧ check_streaming_services (JList sample_relations)
    = Ok {[ "spotify" := true; "tidal" := false; "deezer" := false ]}.
Proof.
  split; [| vm_compute; reflexivity].
  intros relations Hall.
  destruct (check_relations_shaped relations no_services Hall) as (s & Hs & Hl).
  exists s. split; [exact Hs |].
  intros platform pattern Hin.
  destruct (Hl platform pattern Hin) as (b & Hb & ->).
  assert (no_services !! platform = Some false) as Hinit.
  { unfold SERVICE_PATTERNS in Hin.
    repeat (apply elem_of_cons in Hin as [[= -> ->] | Hin]);
      [ | | | by apply elem_of_nil in Hin ]; reflexivity. }
  rewrite Hinit, <- Hb. destruct b; split; split; intros; done.
Qed.

Lemma presence_is_or_over_relations_witness :
  Forall relation_shaped sample_relations
  ∧ ∃ services : gmap string bool,
      check_streaming_services (JList sample_relations) = Ok services
      ∧ ∀ platform pattern, (platform, pattern) ∈ SERVICE_PATTERNS →
          (services !! platform = Some true
           ↔ Exists (links_to pattern) sample_relations)
          ∧ (services !! platform = Some false
             ↔ ¬ Exists (links_to pattern) sample_relations).
Proof.
  assert (Forall relation_shaped sample_relations) as Hshaped.
  { repeat constructor;
      (eexists; split; [reflexivity |]);
      intros _ target [= <-]; eexists _, _; split; reflexivity. }
  split; [exact Hshaped |].
  apply (proj1 presence_is_or_over_relations sample_relations Hshaped).
Defined.

End Presence.

(** ** The summary report *)

Section SummaryReport.
Import Py World SpotifyPlaylistChecker.

Lemma count_if_ok (flag : artist_result → result bool) (results : list artist_result) :
  Forall (fun r => ∃ b, flag r = Ok b) results →
  ∃ n, count_if flag results = Ok n ∧ (n <= length results)%nat.
Proof.
  induction 1 as [| r results [b Hb] _ (n & Hn & Hle)]; simpl.
  - exists 0%nat. split; [reflexivity | lia].
  - rewrite Hb, Hn. simpl. destruct b; eexists; (split; [reflexivity | lia]).
Qed.

Lemma service_flag_reported (k : string) (results : list artist_result) :
  k ∈ ["spotify"; "tidal"; "deezer"] →
  Forall reported results →
  Forall (fun r => ∃ b, service_flag k r = Ok b) results.
Proof.
  intros Hk Hrep. apply (Forall_impl _ _ _ Hrep). intros r (Hs & Ht & Hd).
  unfold service_flag.
  repeat (apply elem_of_cons in Hk as [-> | Hk]); [ | | | by apply elem_of_nil in Hk ].
  - destruct Hs as [b ->]. eauto.
  - destruct Ht as [b ->]. eauto.
  - destruct Hd as [b ->]. eauto.
Qed.

Lemma percent_ok (n total : nat) :
  total ≠ 0%nat →
  percent n total = Ok (inject_Z (Z.of_nat n) / inject_Z (Z.of_nat total) * 100)%Q.
Proof.
  intros Hne. unfold percent.
  destruct (Nat.eqb_spec total 0); [contradiction | reflexivity].
Qed.

Lemma mark_services_flags (url : string) (services : gmap string bool) :
  all_flags services → all_flags (mark_services url services).
Proof.
  intros (Hs & Ht & Hd). unfold all_flags.
  rewrite (mark_services_lookup url "spotify" "open\.spotify\.com/artist/"),
          (mark_services_lookup url "tidal" "tidal\.com/artist/"),
          (mark_services_lookup url "deezer" "deezer\.com/artist/")
    by (unfold SERVICE_PATTERNS; set_solver).
  repeat split; case_bool_decide; eauto.
Qed.

Lemma check_relations_flags (relations : list json) (services services' : gmap string bool) :
  all_flags services →
  check_relations relations services = Ok services' →
  all_flags services'.
Proof.
  revert services. induction relations as [| relation rest IH]; intros services Hall.
  - intros [= <-]. exact Hall.
  - simpl. destruct (check_relation relation services) as [s1 | e] eqn:Hstep;
      simpl; [| discriminate].
    apply IH. unfold check_relation in Hstep.
    unfold mbind, result_bind in Hstep.
    repeat match type of Hstep with
           | context [match ?x with _ => _ end] =>
               destruct x; try discriminate Hstep
           | context [if ?x then _ else _] =>
               destruct x; try discriminate Hstep
           end;
      injection Hstep as <-; auto using mark_services_flags.
Qed.

(** Every entry [main] appends to [results] has its three flags. *)
Lemma check_artists_reported (artists : list artist) (st st' : state)
    (results : list artist_result) :
  check_artists artists st = (Ok results, st') → Forall reported results.
Proof.
  assert (all_flags no_services) as Hinit by (repeat split; vm_compute; eauto).
  revert st st' results.
  induction artists as [| a artists IH]; intros st st' results; simpl.
  - intros [= <- _]. constructor.
  - destruct (check_artist a st) as [[r | e] st1] eqn:Hone; [| discriminate].
    destruct (check_artists artists st1) as [[rs | e] st2] eqn:Hrest; [| discriminate].
    intros [= <- _]. constructor; [| exact (IH _ _ _ Hrest)].
    unfold check_artist in Hone.
    destruct (search_artist_by_spotify_id _ _ _) as [[mb_search | e] s1];
      [| discriminate].
    destruct (get mb_search "artists" JNull) as [listed | e]; [| discriminate].
    destruct (truthy listed).
    + destruct (first_item listed ≫= _) as [mb_id | e]; [| discriminate].
      destruct (get_artist_urls _ _ _) as [[relations | e] s2]; [| discriminate].
      simpl in Hone.
      destruct (check_streaming_services relations) as [services |] eqn:Hcheck;
        [| discriminate].
      injection Hone as <- _. unfold reported. simpl.
      unfold check_streaming_services in Hcheck.
      destruct (iterate relations) as [items |]; [| discriminate].
      exact (check_relations_flags items no_services services Hinit Hcheck).
    + injection Hone as <- _. exact Hinit.
Qed.

(** On a non-empty list of entries with their flags, [print_summary]
    returns its figures. *)
Lemma print_summary_returns (results : list artist_result) :
  results ≠ [] → Forall reported results →
  ∃ s : summary,
    print_summary results = Ok s
    ∧ total s = length results
    ∧ pct_in_mb s
      = (inject_Z (Z.of_nat (in_mb s)) / inject_Z (Z.of_nat (total s)) * 100)%Q
    ∧ pct_all s
      = (inject_Z (Z.of_nat (has_all s)) / inject_Z (Z.of_nat (total s)) * 100)%Q.
Proof.
  intros Hne Hrep.
  assert (length results ≠ 0%nat) as Hlen by (destruct results; simpl; congruence).
  destruct (count_if_ok (fun r => Ok (mb_found r)) results) as (n1 & H1 & _).
  { apply Forall_forall. eauto. }
  destruct (count_if_ok (service_flag "spotify") results) as (n2 & H2 & _).
  { apply service_flag_reported; [set_solver | exact Hrep]. }
  destruct (count_if_ok (service_flag "tidal") results) as (n3 & H3 & _).
  { apply service_flag_reported; [set_solver | exact Hrep]. }
  destruct (count_if_ok (service_flag "deezer") results) as (n4 & H4 & _).
  { apply service_flag_reported; [set_solver | exact Hrep]. }
  destruct (count_if_ok (fun r => Ok (all_services r)) results) as (n5 & H5 & _).
  { apply Forall_forall. eauto. }
  unfold print_summary. rewrite H1, H2, H3, H4, H5. simpl.
  rewrite !percent_ok by exact Hlen. simpl.
  eexists. split; [reflexivity |]. simpl. auto.
Qed.

(** With at least one artist and a loop that ran to its end, [main] prints
    the summary. *)
Lemma main_summary_returns (artists : list artist) (t0 : Q)
    (results : list artist_result) (st : state) :
  artists ≠ [] →
  check_artists artists (init t0) = (Ok results, st) →
  ∃ s, (main false OutSummary artists t0).1 = Ok (SummaryReport s).
Proof.
  intros Hne Hloop.
  assert (Forall reported results) as Hrep
    by exact (check_artists_reported _ _ _ _ Hloop).
  assert (results ≠ []) as Hres.
  { intros ->. destruct artists as [| a artists]; [contradiction |].
    simpl in Hloop. destruct (check_artist a (init t0)) as [[r | e] st1];
      [| discriminate].
    destruct (check_artists artists st1) as [[rs | e] st2]; discriminate. }
  destruct (print_summary_returns results Hres Hrep) as (s & Hs & _).
  exists s. unfold main. rewrite Hloop. simpl. unfold print_results.
  rewrite Hs. reflexivity.
Qed.

(** C10. [print_summary] divides by the number of results with no guard.
    On a non-empty list (of entries as [main] builds them) it returns its
    figures, each percentage being the count over the total times 100.  On
    an empty list it raises ZeroDivisionError; [main] lets that through, both
    for a playlist without artists and when [--missing-only] has filtered
    every artist out. *)
Theorem summary_divides_by_result_count :
  (∀ results : list artist_result,
     results ≠ [] → Forall reported results →
     ∃ s : summary,
       print_summary results = Ok s
       ∧ total s = length results
       ∧ pct_in_mb s
         = (inject_Z (Z.of_nat (in_mb s)) / inject_Z (Z.of_nat (total s)) * 100)%Q
       ∧ pct_all s
         = (inject_Z (Z.of_nat (has_all s)) / inject_Z (Z.of_nat (total s)) * 100)%Q)
  ∧ print_summary [] = Raise ZeroDivisionError
  ∧ (∀ (missing_only : bool) (t0 : Q),
       (main missing_only OutSummary [] t0).1 = Raise ZeroDivisionError)
  ∧ (∀ results : list artist_result,
       Forall (fun r => all_services r = true) results →
       print_results true OutSummary results = Raise ZeroDivisionError).
Proof.
  split; [exact print_summary_returns |]. split; [reflexivity |]. split.
  - intros [] t0; reflexivity.
  - intros results Hall. unfold print_results.
    replace (filter (fun r => negb (all_services r)) results) with (@nil artist_result).
    + reflexivity.
    + symmetry. induction Hall as [| r results Hr _ IH]; [reflexivity |].
      rewrite filter_cons, Hr. simpl. exact IH.
Qed.

Lemma summary_divides_by_result_count_witness :
  ∃ s : summary,
    print_summary sample_results = Ok s
    ∧ total s = length sample_results
    ∧ pct_in_mb s
      = (inject_Z (Z.of_nat (in_mb s)) / inject_Z (Z.of_nat (total s)) * 100)%Q
    ∧ pct_all s
      = (inject_Z (Z.of_nat (has_all s)) / inject_Z (Z.of_nat (total s)) * 100)%Q.
Proof.
  apply (proj1 summary_divides_by_result_count sample_results).
  - discriminate.
  - repeat constructor; vm_compute; eauto.
Defined.

End SummaryReport.

(** ** The NFO import batch *)

Section NfoBatch.
Import Py World ImportNfoAlbums.











End NfoBatch.

(** ** Identifier extraction *)

Section Extraction.
Import Py World ImportNfoAlbums.

Lemma match_atom_length (ignorecase : bool) (a : Re.atom) (count : nat)
    (s consumed rest : string) :
  Re.match_atom ignorecase a count s = Some (consumed, rest) →
  String.length consumed = count.
Proof.
  revert s consumed rest.
  induction count as [| count IH]; intros s consumed rest; simpl.
  - intros [= <- _]. reflexivity.
  - destruct s as [| c s]; [discriminate |].
    destruct (Re.atom_matches ignorecase a c); [| discriminate].
    destruct (Re.match_atom ignorecase a count s) as [[consumed' rest'] |] eqn:Hm;
      [| discriminate].
    simpl. intros [= <- _]. simpl. f_equal. exact (IH _ _ _ Hm).
Qed.

Lemma append_length (s1 s2 : string) :
  String.length (s1 +:+ s2) = (String.length s1 + String.length s2)%nat.
Proof. induction s1 as [| c s1 IH]; simpl; [reflexivity | by rewrite IH]. Qed.

Lemma match_here_length (ignorecase : bool) (nodes : list Re.node) (s : string)
    (in_group : bool) (captured out : string) :
  Re.match_here ignorecase nodes s in_group captured = Some out →
  String.length out
  = (String.length captured + Re.captured_length nodes in_group)%nat.
Proof.
  revert s in_group captured.
  induction nodes as [| [a count | |] nodes IH]; intros s in_group captured; simpl.
  - intros [= <-]. lia.
  - destruct (Re.match_atom ignorecase a count s) as [[consumed rest] |] eqn:Hm;
      [| discriminate].
    simpl. intros Hrest. rewrite (IH _ _ _ Hrest).
    apply match_atom_length in Hm.
    destruct in_group; [rewrite append_length |]; lia.
  - apply IH.
  - apply IH.
Qed.

Lemma search_nodes_length (ignorecase : bool) (nodes : list Re.node)
    (s out : string) :
  Re.search_nodes ignorecase nodes s = Some out →
  String.length out = Re.captured_length nodes false.
Proof.
  induction s as [| c s IH]; simpl.
  - destruct (Re.match_here ignorecase nodes "" false "") eqn:Hm; [| discriminate].
    intros [= <-]. by rewrite (match_here_length _ _ _ _ _ _ Hm).
  - destruct (Re.match_here ignorecase nodes (String c s) false "") eqn:Hm.
    + intros [= <-]. by rewrite (match_here_length _ _ _ _ _ _ Hm).
    + exact IH.
Qed.

(** What the regex fallback returns is 36 characters long. *)
Lemma fallback_identifier_length (content mb_id : string) :
  extract_by_regex content = Some mb_id → String.length mb_id = 36%nat.
Proof.
  unfold extract_by_regex, Re.search.
  destruct (Re.parse RELEASE_GROUP_RE) as [nodes1 |] eqn:Hp1; [| discriminate Hp1].
  destruct (Re.parse ALBUM_RE) as [nodes2 |] eqn:Hp2; [| discriminate Hp2].
  simpl.
  destruct (Re.search_nodes true nodes1 content) as [g1 |] eqn:Hs1.
  - intros [= <-]. rewrite (search_nodes_length _ _ _ _ Hs1).
    injection Hp1 as <-. reflexivity.
  - destruct (Re.search_nodes true nodes2 content) as [g2 |] eqn:Hs2; [| discriminate].
    intros [= <-]. rewrite (search_nodes_length _ _ _ _ Hs2).
    injection Hp2 as <-. reflexivity.
Qed.

(** An empty string can only come from the XML path: the file parsed and
    the first tag with text held nothing but whitespace. *)
Lemma empty_identifier_from_xml_only (f : nfo_file) :
  extract_musicbrainz_id f = Ok (Some "") →
  ∃ root t, et_parse f = Ok root ∧ strip t = "" ∧ t ≠ ""
    ∧ (has_text (find root "musicbrainzreleasegroupid") = Some t
       ∨ (has_text (find root "musicbrainzreleasegroupid") = None
          ∧ has_text (find root "musicbrainzalbumid") = Some t)).
Proof.
  assert (∀ o t, has_text o = Some t → t ≠ "") as Hnonempty.
  { intros [[tg [tx |] cs] |] t; simpl; try discriminate.
    destruct (String.eqb_spec tx ""); [discriminate |]. by intros [= <-]. }
  unfold extract_musicbrainz_id.
  destruct (et_parse f) as [root | e].
  - destruct (has_text (find root "musicbrainzreleasegroupid")) as [t |] eqn:H1.
    + intros [= Hs]. exists root, t. eauto 10.
    + destruct (has_text (find root "musicbrainzalbumid")) as [t |] eqn:H2;
        [| discriminate].
      intros [= Hs]. exists root, t. eauto 10.
  - destruct e; try discriminate.
    destruct (read_text f) as [content | e']; [| discriminate].
    intros [= Hs]. apply fallback_identifier_length in Hs. discriminate Hs.
Qed.

(** C7. A release-group tag that holds only blanks passes the test on
    [mb_id.text] and is returned stripped: extraction answers the empty
    string, and does not look at the release tag.  With the tag empty or
    absent, extraction falls through to the release tag. *)
Theorem blank_tag_yields_empty_string :
  extract_musicbrainz_id blank_tag_nfo = Ok (Some "")
  ∧ extract_musicbrainz_id empty_tag_nfo = Ok (Some sample_id)
  ∧ extract_musicbrainz_id missing_tag_nfo = Ok (Some sample_id).
Proof. repeat split; vm_compute; reflexivity. Qed.

End Extraction.

(** ** Protocol A: matching and submission *)

Section AlbumImport.
Import Py World ImportNfoAlbums.

Lemma endswith_cons (c : ascii) (s suffix : string) :
  endswith (String c s) suffix
  = if String.eqb (String c s) suffix then true else endswith s suffix.
Proof. reflexivity. Qed.

Lemma endswith_refl (s : string) : endswith s s = true.
Proof.
  destruct s as [| c s]; [reflexivity |].
  by rewrite endswith_cons, String.eqb_refl.
Qed.

Lemma endswith_app (prefix s : string) : endswith (prefix +:+ s) s = true.
Proof.
  induction prefix as [| c prefix IH]; [apply endswith_refl |].
  change (String c prefix +:+ s) with (String c (prefix +:+ s)).
  rewrite endswith_cons, IH. by destruct (String.eqb _ s).
Qed.

(** [endswith] is "has this suffix". *)
Lemma endswith_spec (s suffix : string) :
  endswith s suffix = true ↔ ∃ prefix, s = prefix +:+ suffix.
Proof.
  split; [| intros [prefix ->]; apply endswith_app].
  induction s as [| c s IH].
  - simpl. destruct suffix; [exists ""; reflexivity | discriminate].
  - rewrite endswith_cons.
    destruct (String.eqb (String c s) suffix) eqn:Heq.
    + apply String.eqb_eq in Heq. intros _. exists "". exact Heq.
    + intros H. destruct (IH H) as [prefix ->].
      exists (String c prefix). reflexivity.
Qed.






Lemma dict_lookup_set_eq (d : list (string * json)) (k : string) (v : json) :
  dict_lookup (dict_set d k v) k = Some v.
Proof.
  induction d as [| [k' v'] d IH]; simpl.
  - by rewrite String.eqb_refl.
  - destruct (String.eqb k' k) eqn:Heq; simpl; rewrite Heq; [reflexivity | exact IH].
Qed.

Lemma dict_lookup_set_ne (d : list (string * json)) (k k' : string) (v : json) :
  k ≠ k' → dict_lookup (dict_set d k v) k' = dict_lookup d k'.
Proof.
  intros Hne. induction d as [| [k0 v0] d IH]; simpl.
  - destruct (String.eqb_spec k k'); [contradiction | reflexivity].
  - destruct (String.eqb_spec k0 k) as [-> | Hk0]; simpl.
    + destruct (String.eqb_spec k k'); [contradiction | reflexivity].
    + destruct (String.eqb k0 k'); [reflexivity | exact IH].
Qed.

Lemma backfilled_same (d : list (string * json)) (k : string) (default : json) :
  dict_get (backfilled d k default) k JNull
  = if truthy (dict_get d k JNull) then dict_get d k JNull else default.
Proof.
  unfold backfilled. destruct (truthy (dict_get d k JNull)); [reflexivity |].
  unfold dict_get. by rewrite dict_lookup_set_eq.
Qed.

Lemma backfilled_other (d : list (string * json)) (k k' : string) (default : json) :
  k ≠ k' → dict_lookup (backfilled d k default) k' = dict_lookup d k'.
Proof.
  intros Hne. unfold backfilled. destruct (truthy _); [reflexivity |].
  by apply dict_lookup_set_ne.
Qed.

Lemma dict_get_backfilled_other (d : list (string * json)) (k k' : string)
    (default : json) :
  k ≠ k' → dict_get (backfilled d k default) k' JNull = dict_get d k' JNull.
Proof. intros Hne. unfold dict_get. by rewrite backfilled_other. Qed.

Lemma ensure_field_dict (d : list (string * json)) (k : string) (default : json) :
  ensure_field (JDict d) k default = Ok (JDict (backfilled d k default)).
Proof.
  unfold ensure_field, backfilled. simpl. by destruct (truthy _).
Qed.

(** What "Ensure artist has required fields" leaves in a dict: each of the
    four fields keeps a truthy value and gets the default otherwise; every
    other key is untouched. *)
Lemma ensure_required_fields_dict (d : list (string * json)) :
  ∃ d', ensure_required_fields (JDict d) = Ok (JDict d')
    ∧ (∀ k default, (k, default) ∈ REQUIRED_FIELDS →
         dict_get d' k JNull
         = if truthy (dict_get d k JNull) then dict_get d k JNull else default)
    ∧ (∀ k, k ∉ REQUIRED_FIELDS.*1 → dict_lookup d' k = dict_lookup d k).
Proof.
  unfold ensure_required_fields.
  rewrite ensure_field_dict. simpl. rewrite ensure_field_dict. simpl.
  rewrite ensure_field_dict. simpl. rewrite ensure_field_dict.
  eexists. split; [reflexivity |]. split.
  - intros k default Hin. unfold REQUIRED_FIELDS in Hin.
    repeat (apply elem_of_cons in Hin as [[= -> ->] | Hin]);
      [ | | | | by apply elem_of_nil in Hin ];
      rewrite ?dict_get_backfilled_other by done;
      rewrite backfilled_same;
      rewrite ?dict_get_backfilled_other by done;
      reflexivity.
  - intros k Hk. simpl in Hk.
    rewrite !backfilled_other; [reflexivity | | | |];
      intros <-; apply Hk; set_solver.
Qed.

(** One case split on the scrutinee of a match or test in [H], dropping the
    branches where [H] equates a raise or an early return with the result. *)
Ltac step H :=
  match type of H with
  | context [match ?x with _ => _ end] =>
      destruct x eqn:?; simpl in H; try discriminate H
  | context [if ?x then _ else _] =>
      destruct x eqn:?; simpl in H; try discriminate H
  end.

(** Whenever the [try] block posts a body, the body was composed from a
    matched album whose artist sub-record is a dict, and carries that dict
    with the required fields ensured. *)
Lemma add_album_body_posted (srv : lidarr) (mb_id : string) (b : bool)
    (payload : json) :
  add_album_body srv mb_id = Ok (b, [payload]) →
  ∃ (response : response) (results : json) (items : list json) (other : json)
    (album artist : list (string * json)) (posted : json),
    get_search srv ("lidarr:" +:+ mb_id) = Ok response
    ∧ json_body response = Ok results
    ∧ iterate results = Ok items
    ∧ find_album items mb_id = Ok (Some (JDict album, other))
    ∧ dict_lookup album "artist" = Some (JDict artist)
    ∧ ensure_required_fields (JDict artist) = Ok posted
    ∧ payload = make_payload album posted mb_id.
Proof.
  intros H. unfold add_album_body in H. unfold mbind, result_bind in H.
  do 11 step H.
  match goal with
  | Hget : get ?album_data "artist" JNull = Ok ?artist_data |- _ =>
      destruct album_data as [| | | | | | album]; try discriminate Hget;
      simpl in Hget; injection Hget as Hartist
  end.
  do 2 step H.
  match goal with
  | Hens : ensure_required_fields ?artist_data = Ok ?posted |- _ =>
      destruct artist_data as [| | | | | | artist]; try discriminate Hens
  end.
  assert (dict_lookup album "artist" = Some (JDict artist)) as Hlookup.
  { unfold dict_get in Hartist.
    destruct (dict_lookup album "artist"); [congruence | discriminate]. }
  match goal with
  | Hens : ensure_required_fields (JDict artist) = Ok ?posted |- _ =>
      assert (payload = make_payload album posted mb_id) as ->
        by (repeat step H; congruence)
  end.
  subst. eauto 15.
Qed.

(** C2, as stated, fails: Lidarr's search result for [sample_album] has the
    artist's monitored flag populated with false and its quality profile id
    populated with 0; the body the script posts has them overwritten with
    true and with the default profile 1. *)
Lemma populated_falsy_fields_overwritten :
  dict_lookup sample_artist "monitored" = Some (JBool false)
  ∧ dict_lookup sample_artist "qualityProfileId" = Some (JInt 0)
  ∧ ∃ payload : json,
      add_album_to_lidarr sample_lidarr sample_id = (Some true, [payload])
      ∧ (getitem payload "artist" ≫= fun a => getitem a "monitored")
        = Ok (JBool true)
      ∧ (getitem payload "artist" ≫= fun a => getitem a "qualityProfileId")
        = Ok (JInt 1).
Proof.
  split; [reflexivity |]. split; [reflexivity |].
  eexists. repeat split; vm_compute; reflexivity.
Qed.

(** C2, amended. Whenever [add_album_to_lidarr] submits an album, the artist
    in the submitted body is the matched album's artist sub-record in which
    each of the four fields (quality profile id, metadata profile id, root
    folder path, monitored flag) keeps its value when that value is truthy,
    and is set to the run-wide default when the field is absent or holds a
    falsy value (null, 0, the empty string, false); every other field of the
    artist is as the remote service sent it. *)
Theorem submission_backfills_falsy_fields (srv : lidarr) (mb_id : string)
    (outcome : option bool) (payload : json) :
  add_album_to_lidarr srv mb_id = (outcome, [payload]) →
  ∃ (response : response) (results : json) (items : list json) (other : json)
    (album artist posted : list (string * json)),
    get_search srv ("lidarr:" +:+ mb_id) = Ok response
    ∧ json_body response = Ok results
    ∧ iterate results = Ok items
    ∧ find_album items mb_id = Ok (Some (JDict album, other))
    ∧ dict_lookup album "artist" = Some (JDict artist)
    ∧ payload = make_payload album (JDict posted) mb_id
    ∧ (∀ k default, (k, default) ∈ REQUIRED_FIELDS →
         dict_get posted k JNull
         = if truthy (dict_get artist k JNull) then dict_get artist k JNull
           else default)
    ∧ (∀ k, k ∉ REQUIRED_FIELDS.*1 → dict_lookup posted k = dict_lookup artist k).
Proof.
  unfold add_album_to_lidarr.
  destruct (check_album_exists srv mb_id); [discriminate |].
  destruct (add_album_body srv mb_id) as [[b posted_bodies] | e] eqn:Hbody;
    [| discriminate].
  intros [= <- ->].
  destruct (add_album_body_posted srv mb_id b payload Hbody)
    as (response & results & items & other & album & artist & posted
        & Hsearch & Hjson & Hiter & Hfound & Hartist & Hens & ->).
  destruct (ensure_required_fields_dict artist) as (d' & Hd' & Hkeep & Hframe).
  rewrite Hd' in Hens. injection Hens as <-.
  exists response, results, items, other, album, artist, d'. auto 10.
Qed.

Lemma submission_backfills_falsy_fields_witness :
  ∃ payload : json,
    add_album_to_lidarr sample_lidarr sample_id = (Some true, [payload])
    ∧ ∃ (response : response) (results : json) (items : list json) (other : json)
        (album artist posted : list (string * json)),
        get_search sample_lidarr ("lidarr:" +:+ sample_id) = Ok response
        ∧ json_body response = Ok results
        ∧ iterate results = Ok items
        ∧ find_album items sample_id = Ok (Some (JDict album, other))
        ∧ dict_lookup album "artist" = Some (JDict artist)
        ∧ payload = make_payload album (JDict posted) sample_id
        ∧ (∀ k default, (k, default) ∈ REQUIRED_FIELDS →
             dict_get posted k JNull
             = if truthy (dict_get artist k JNull) then dict_get artist k JNull
               else default)
        ∧ (∀ k, k ∉ REQUIRED_FIELDS.*1 →
             dict_lookup posted k = dict_lookup artist k).
Proof.
  eexists. split; [vm_compute; reflexivity |].
  apply (submission_backfills_falsy_fields sample_lidarr sample_id (Some true)).
  vm_compute. reflexivity.
Defined.

End AlbumImport.

(** ** Adding an artist that is already there *)

Section DuplicateArtist.
Import Py World MbLidarrImport.

Variable float_repr : float → string.

(** [add_artist] returns [True] exactly when the POST was answered with a
    status outside 4xx and 5xx. *)
Lemma add_artist_true_iff (post : json → result response) (artist_data : json)
    (root_folder : string) (quality_profile metadata_profile : Z)
    (monitor search : bool) (payload : json) (b : bool) (printed : list message) :
  artist_payload artist_data root_folder quality_profile metadata_profile
    monitor search = Ok payload →
  add_artist float_repr post artist_data root_folder quality_profile
    metadata_profile monitor search = Ok (b, printed) →
  b = true ↔ ∃ resp, post payload = Ok resp ∧ raise_for_status resp = Ok ().
Proof.
  intros Hpayload. unfold add_artist. rewrite Hpayload. simpl.
  destruct (post payload) as [resp | e].
  - destruct (raise_for_status resp) as [[] | e] eqn:Hstatus.
    + intros [= <- <-]. split; eauto.
    + intros Hret. assert (b = false) as ->.
      { destruct (status_code resp =? 400)%Z; [| congruence].
        destruct (json_body resp); simpl in Hret; [| discriminate].
        destruct (str_contains _ _); congruence. }
      split; [discriminate |]. intros (resp' & [= <-] & Hok). congruence.
  - intros [= <- <-]. split; [discriminate |]. intros (resp & [=] & _).
Qed.

(** C8, amended. When the POST is answered 400 with a body whose text
    contains "Artist already exists", [add_artist] raises nothing, prints the
    "Artist already in Lidarr" warning in place of the error line, and returns
    [False]: the value it returns for every POST that failed.  Its caller in
    [main] counts the artist as skipped. *)
Theorem duplicate_artist_warned_and_false (post : json → result response)
    (artist_data : json) (root_folder : string)
    (quality_profile metadata_profile : Z) (monitor search : bool)
    (payload : json) (resp : response) (error : json) (t : tally) :
  truthy artist_data = true →
  artist_payload artist_data root_folder quality_profile metadata_profile
    monitor search = Ok payload →
  post payload = Ok resp →
  status_code resp = 400%Z →
  json_body resp = Ok error →
  str_contains "Artist already exists" (str float_repr error) = true →
  add_artist float_repr post artist_data root_folder quality_profile
    metadata_profile monitor search = Ok (false, [ArtistAlreadyInLidarr])
  ∧ count_artist float_repr t post artist_data root_folder quality_profile
      metadata_profile monitor search = Ok (Tally (added t) (skipped t + 1)).
Proof.
  intros Htruthy Hpayload Hpost Hstatus Hbody Hfound.
  assert (add_artist float_repr post artist_data root_folder quality_profile
            metadata_profile monitor search = Ok (false, [ArtistAlreadyInLidarr]))
    as Hadd.
  { unfold add_artist. rewrite Hpayload. simpl. rewrite Hpost.
    unfold raise_for_status. rewrite Hstatus. simpl.
    rewrite Hbody. simpl. rewrite Hfound. reflexivity. }
  split; [exact Hadd |].
  unfold count_artist. rewrite Htruthy, Hadd. reflexivity.
Qed.

End DuplicateArtist.

Section DuplicateArtistSamples.
Import Py World MbLidarrImport.

(** C8, as stated, fails: for the duplicate-artist answer and for a server
    error [add_artist] returns the same value, [False]; only the printed line
    differs, and the caller's counters come out the same. *)
Lemma duplicate_artist_same_return_as_failure :
  add_artist sample_float_repr conflict_post sample_artist_data "/music" 1 1 true false
  = Ok (false, [ArtistAlreadyInLidarr])
  ∧ add_artist sample_float_repr broken_post sample_artist_data "/music" 1 1 true false
    = Ok (false, [ErrorAddingArtist])
  ∧ count_artist sample_float_repr (Tally 0 0) conflict_post sample_artist_data
      "/music" 1 1 true false
    = count_artist sample_float_repr (Tally 0 0) broken_post sample_artist_data
        "/music" 1 1 true false
  ∧ add_artist sample_float_repr created_post sample_artist_data "/music" 1 1 true false
    = Ok (true, []).
Proof. repeat split; vm_compute; reflexivity. Qed.

Lemma duplicate_artist_warned_and_false_witness :
  add_artist sample_float_repr conflict_post sample_artist_data "/music" 1 1 true false
  = Ok (false, [ArtistAlreadyInLidarr])
  ∧ count_artist sample_float_repr (Tally 3 1) conflict_post sample_artist_data
      "/music" 1 1 true false
    = Ok (Tally 3 2).
Proof.
  eapply (duplicate_artist_warned_and_false sample_float_repr conflict_post
            sample_artist_data "/music" 1 1 true false _ _ _ (Tally 3 1)).
  - reflexivity.
  - vm_compute. reflexivity.
  - reflexivity.
  - reflexivity.
  - reflexivity.
  - vm_compute. reflexivity.
Defined.

End DuplicateArtistSamples.

(** * Further properties *)

(** ** The client over a whole run *)

Section ClientRun.
Import Py World SpotifyPlaylistChecker.

Lemma sleep_times_app (tr1 tr2 : list event) :
  sleep_times (tr1 ++ tr2) = sleep_times tr1 ++ sleep_times tr2.
Proof. unfold sleep_times. apply omap_app. Qed.

Lemma rested_do_call (c : call * net) (st : state) :
  forward c.2 → rested st → rested (do_call c st).
Proof.
  intros (Hidle & Hover & Hlat) [Hle Hsleeps].
  destruct (do_call_trace c st) as (Htr & Hstamp & Hclock).
  unfold rested. rewrite Htr, Hstamp, Hclock. clear Htr Hstamp Hclock.
  split; [lra |].
  intros d. rewrite sleep_times_app. simpl. rewrite app_nil_r.
  unfold _rate_limit, time_sleep, pass_time. simpl.
  destruct (Qltb _ _) eqn:Hlt; simpl; rewrite !sleep_times_app; simpl;
    rewrite ?app_nil_r; [| apply Hsleeps].
  apply Qltb_true in Hlt. unfold MB_RATE_LIMIT in *.
  rewrite elem_of_app, list_elem_of_singleton. intros [Hd | ->]; [by apply Hsleeps |].
  split; lra.
Qed.

Lemma rested_run_calls (calls : list (call * net)) (st : state) :
  Forall (fun c => forward c.2) calls → rested st → rested (run_calls calls st).
Proof.
  intros Hfw. revert st.
  induction Hfw as [| c calls Hc _ IH]; intros st Hst; [exact Hst |].
  simpl. apply IH. by apply rested_do_call.
Qed.

(** X1. [time.sleep] is only ever asked for a positive time, and never for more
    than the interval. *)
Theorem sleeps_are_positive_and_short (calls : list (call * net)) (t0 d : Q) :
  (0 <= t0)%Q →
  Forall (fun c => forward c.2) calls →
  d ∈ sleep_times (trace (run_calls calls (init t0))) →
  (0 < d)%Q ∧ (d <= MB_RATE_LIMIT)%Q.
Proof.
  intros Ht0 Hfw.
  apply (rested_run_calls calls (init t0) Hfw).
  split; [exact Ht0 |]. intros d' Hd'. by apply elem_of_nil in Hd'.
Qed.

Lemma sleeps_are_positive_and_short_witness :
  sleep_times (trace (run_calls sample_calls (init 1000))) = [2 # 8]
  ∧ (0 < 2 # 8)%Q ∧ (2 # 8 <= MB_RATE_LIMIT)%Q.
Proof.
  split; [vm_compute; reflexivity |].
  apply (sleeps_are_positive_and_short sample_calls 1000 (2 # 8)).
  - discriminate.
  - repeat constructor; simpl; lra.
  - vm_compute. apply list_elem_of_here.
Defined.

Lemma spaced_span (interval : Q) (ts : list Q) (n : nat) (a b : Q) :
  spaced interval ts →
  ts !! 0%nat = Some a → ts !! n = Some b →
  (inject_Z (Z.of_nat n) * interval <= b - a)%Q.
Proof.
  intros Hsp Ha. revert b.
  induction n as [| n IH]; intros b Hb.
  - rewrite Ha in Hb. injection Hb as <-.
    change (inject_Z (Z.of_nat 0)) with 0%Q. lra.
  - destruct (ts !! n) as [m |] eqn:Hm.
    + specialize (IH m eq_refl). specialize (Hsp n m b Hm Hb).
      rewrite Nat2Z.inj_succ, <- Z.add_1_r, inject_Z_plus.
      change (inject_Z 1) with 1%Q. nra.
    + apply lookup_ge_None in Hm. apply lookup_lt_Some in Hb. lia.
Qed.

(** X2. A run that issues [n + 1] requests lasts at least [n] intervals from the
    first request to the last. *)
Theorem run_takes_an_interval_per_request (calls : list (call * net))
    (t0 first latest : Q) (n : nat) :
  Forall (fun c => forward c.2) calls →
  issue_times (trace (run_calls calls (init t0))) !! 0%nat = Some first →
  issue_times (trace (run_calls calls (init t0))) !! n = Some latest →
  (inject_Z (Z.of_nat n) * MB_RATE_LIMIT <= latest - first)%Q.
Proof.
  intros Hfw. apply spaced_span.
  apply (paced_run_calls calls (init t0) Hfw (paced_init t0)).
Qed.

Lemma run_takes_an_interval_per_request_witness :
  (inject_Z (Z.of_nat 2) * MB_RATE_LIMIT <= (6438464 # 6400) - 1000)%Q.
Proof.
  apply (run_takes_an_interval_per_request sample_calls 1000).
  - repeat constructor; simpl; lra.
  - vm_compute. reflexivity.
  - vm_compute. reflexivity.
Defined.

Lemma do_call_issues (c : call * net) (st : state) :
  ∃ t, issue_times (trace (do_call c st)) = issue_times (trace st) ++ [t].
Proof.
  destruct (do_call_trace c st) as (Htr & _ & _).
  rewrite Htr, issue_times_app, rate_limit_trace. simpl. eauto.
Qed.

Lemma search_fails (n : net) (spotify_id : string) (st : state) :
  request_fails n = true →
  (search_artist_by_spotify_id n spotify_id st).1 = Ok (JDict []).
Proof.
  unfold request_fails, search_artist_by_spotify_id, session_get. simpl.
  destruct (answer n) as [r | e]; simpl.
  - unfold raise_for_status. destruct (_ && _); simpl; [reflexivity |].
    destruct (json_body r) as [j | e]; simpl; [discriminate |].
    by intros ->.
  - by intros ->.
Qed.

Lemma urls_fails (n : net) (mb_artist_id : json) (st : state) :
  request_fails n = true →
  (get_artist_urls n mb_artist_id st).1 = Ok (JList []).
Proof.
  unfold request_fails, get_artist_urls, session_get. simpl.
  destruct (answer n) as [r | e]; simpl.
  - unfold raise_for_status. destruct (_ && _); simpl; [reflexivity |].
    destruct (json_body r) as [j | e]; simpl; [discriminate |].
    by intros ->.
  - by intros ->.
Qed.

Lemma check_artist_not_found (a : artist) (st : state) :
  (search_artist_by_spotify_id (search_net a) (id a)
     (pass_time (search_net a) st)).1 = Ok (JDict []) →
  check_artist a st
  = (Ok (ArtistResult (name a) (id a) false no_services),
     do_call (SearchArtist (id a), search_net a) st).
Proof.
  intros Hres. unfold check_artist, do_call. cbn [fst snd].
  destruct (search_artist_by_spotify_id (search_net a) (id a)
              (pass_time (search_net a) st)) as [searched st1].
  simpl in Hres. subst searched. reflexivity.
Qed.

(** X3. A failed search is a search without result: the artist is reported as
    not in MusicBrainz, with every flag false, after a single request, exactly
    as if MusicBrainz had answered with an empty object. *)
Theorem failed_search_reads_as_not_found (a : artist) (st : state) :
  request_fails (search_net a) = true →
  check_artist a st = check_artist (with_search_answer a (ok_json (JDict []))) st
  ∧ (check_artist a st).1 = Ok (ArtistResult (name a) (id a) false no_services)
  ∧ ∃ t, issue_times (trace (check_artist a st).2) = issue_times (trace st) ++ [t].
Proof.
  intros Hfail.
  rewrite (check_artist_not_found a st)
    by (apply search_fails; exact Hfail).
  rewrite (check_artist_not_found (with_search_answer a (ok_json (JDict []))) st)
    by reflexivity.
  split; [reflexivity |]. split; [reflexivity |].
  apply do_call_issues.
Qed.

Lemma failed_search_reads_as_not_found_witness :
  check_artist artist_while_down (init 1000)
  = check_artist (with_search_answer artist_while_down (ok_json (JDict [])))
      (init 1000)
  ∧ (check_artist artist_while_down (init 1000)).1
    = Ok (ArtistResult "Radiohead" "4Z8W4fKeB5YxbusRsdQVPb" false no_services)
  ∧ ∃ t, issue_times (trace (check_artist artist_while_down (init 1000)).2)
         = issue_times (trace (init 1000)) ++ [t].
Proof.
  apply (failed_search_reads_as_not_found artist_while_down (init 1000)).
  reflexivity.
Defined.

Lemma urls_fails_eq (n : net) (mb_artist_id : json) (st : state) :
  request_fails n = true →
  get_artist_urls (with_answer n (ok_json (JDict []))) mb_artist_id st
  = get_artist_urls n mb_artist_id st.
Proof.
  intros Hfail.
  rewrite (surjective_pairing (get_artist_urls n mb_artist_id st)).
  rewrite (urls_fails n mb_artist_id st Hfail). reflexivity.
Qed.

(** X4. A failed lookup of the relations is a lookup without relations: an
    artist that the search found is reported as in MusicBrainz with every
    flag false, exactly as if MusicBrainz had listed no relation. *)
Theorem failed_lookup_reads_as_no_links (a : artist) (st : state) :
  request_fails (urls_net a) = true →
  check_artist a st = check_artist (with_urls_answer a (ok_json (JDict []))) st
  ∧ ∀ r, (check_artist a st).1 = Ok r → mb_found r = true →
         services r = no_services.
Proof.
  intros Hfail. unfold check_artist.
  cbn [with_urls_answer search_net urls_net id name].
  destruct (search_artist_by_spotify_id (search_net a) (id a)
              (pass_time (search_net a) st)) as [[mb_search | e] st1];
    [| split; [reflexivity | discriminate]].
  destruct (get mb_search "artists" JNull) as [listed | e];
    [| split; [reflexivity | discriminate]].
  destruct (truthy listed); [| split; [reflexivity | by intros r [= <-]]].
  destruct (first_item listed ≫= _) as [mb_id | e];
    [| split; [reflexivity | discriminate]].
  change (pass_time (with_answer (urls_net a) (ok_json (JDict []))) st1)
    with (pass_time (urls_net a) st1).
  rewrite (urls_fails_eq (urls_net a) mb_id (pass_time (urls_net a) st1) Hfail).
  split; [reflexivity |].
  pose proof (urls_fails (urls_net a) mb_id (pass_time (urls_net a) st1) Hfail)
    as Hres.
  destruct (get_artist_urls (urls_net a) mb_id (pass_time (urls_net a) st1))
    as [fetched st2].
  simpl in Hres. subst fetched. by intros r [= <-].
Qed.

Lemma failed_lookup_reads_as_no_links_witness :
  check_artist artist_without_lookup (init 1000)
  = check_artist (with_urls_answer artist_without_lookup (ok_json (JDict [])))
      (init 1000)
  ∧ (check_artist artist_without_lookup (init 1000)).1
    = Ok (ArtistResult "Future" "0OdUWJ0sBjDrqHygGUXeCF" true no_services).
Proof.
  split; [| vm_compute; reflexivity].
  apply (failed_lookup_reads_as_no_links artist_without_lookup (init 1000)).
  reflexivity.
Defined.

Lemma run_calls_issues (calls : list (call * net)) (st : state) :
  ∃ ts, issue_times (trace (run_calls calls st)) = issue_times (trace st) ++ ts
        ∧ length ts = length calls.
Proof.
  revert st. induction calls as [| c calls IH]; intros st.
  - exists []. by rewrite app_nil_r.
  - destruct (do_call_issues c st) as [t Ht].
    destruct (IH (do_call c st)) as (ts & Hts & Hlen).
    exists (t :: ts). simpl. rewrite Hts, Ht, <- app_assoc. simpl.
    split; [reflexivity | by rewrite Hlen].
Qed.

Lemma check_artist_call_count (a : artist) (st : state) :
  ∃ calls, (check_artist a st).2 = run_calls calls st
    ∧ (length calls = 1 ∨ length calls = 2)%nat.
Proof.
  unfold check_artist.
  destruct (search_artist_by_spotify_id (search_net a) (id a)
              (pass_time (search_net a) st)) as [searched st1] eqn:Hsearch.
  assert (st1 = run_calls [(SearchArtist (id a), search_net a)] st) as Hst1.
  { change (run_calls [(SearchArtist (id a), search_net a)] st)
      with (search_artist_by_spotify_id (search_net a) (id a)
              (pass_time (search_net a) st)).2.
    by rewrite Hsearch. }
  destruct searched as [mb_search | e]; [| eauto].
  destruct (get mb_search "artists" JNull) as [listed | e]; [| eauto].
  destruct (truthy listed); [| eauto].
  destruct (first_item listed ≫= _) as [mb_id | e]; [| eauto].
  destruct (get_artist_urls (urls_net a) mb_id (pass_time (urls_net a) st1))
    as [fetched st2] eqn:Hurls.
  exists [(SearchArtist (id a), search_net a); (GetArtistUrls mb_id, urls_net a)].
  split; [| by right].
  change (run_calls _ st) with
    (get_artist_urls (urls_net a) mb_id
       (pass_time (urls_net a)
          (run_calls [(SearchArtist (id a), search_net a)] st))).2.
  rewrite <- Hst1, Hurls. reflexivity.
Qed.

Lemma check_artist_labels (a : artist) (st st' : state) (r : artist_result) :
  check_artist a st = (Ok r, st') → r_spotify_id r = id a ∧ r_name r = name a.
Proof.
  unfold check_artist.
  destruct (search_artist_by_spotify_id _ _ _) as [[mb_search | e] st1];
    [| discriminate].
  destruct (get mb_search "artists" JNull) as [listed | e]; [| discriminate].
  destruct (truthy listed); [| by intros [= <- _]].
  destruct (first_item listed ≫= _) as [mb_id | e]; [| discriminate].
  destruct (get_artist_urls _ _ _) as [[relations | e] st2]; [| discriminate].
  simpl. destruct (check_streaming_services relations); [| discriminate].
  by intros [= <- _].
Qed.

(** X5. When the loop over the playlist's artists runs to its end, [results] has
    one entry per artist, in order and under the artist's id and name, and
    the loop has made one or two requests per artist. *)
Theorem results_follow_artists (artists : list artist) (st st' : state)
    (results : list artist_result) :
  check_artists artists st = (Ok results, st') →
  map r_spotify_id results = map id artists
  ∧ map r_name results = map name artists
  ∧ ∃ ts, issue_times (trace st') = issue_times (trace st) ++ ts
          ∧ (length artists <= length ts <= 2 * length artists)%nat.
Proof.
  revert st results.
  induction artists as [| a artists IH]; intros st results; simpl.
  - intros [= <- <-]. repeat split. exists [].
    split; [by rewrite app_nil_r | simpl; lia].
  - destruct (check_artist_call_count a st) as (calls & Hst1 & Hcount).
    destruct (run_calls_issues calls st) as (ts1 & Hts1 & Hlen1).
    destruct (check_artist a st) as [[r | e] st1] eqn:Hone; [| discriminate].
    simpl in Hst1. subst st1.
    destruct (check_artists artists (run_calls calls st)) as [[rs | e] st2] eqn:Hrest;
      [| discriminate].
    intros [= <- <-].
    destruct (IH _ _ Hrest) as (Hids & Hnames & ts2 & Hts2 & Hlen2).
    destruct (check_artist_labels a st _ r Hone) as [Hid Hname].
    simpl. rewrite Hids, Hnames, Hid, Hname. repeat split.
    exists (ts1 ++ ts2). rewrite Hts2, Hts1, <- app_assoc.
    split; [reflexivity |]. rewrite length_app. lia.
Qed.

Lemma results_follow_artists_witness :
  map r_spotify_id
    [ArtistResult "Radiohead" "4Z8W4fKeB5YxbusRsdQVPb" false no_services;
     ArtistResult "Future" "0OdUWJ0sBjDrqHygGUXeCF" true no_services]
  = map id sample_artists.
Proof.
  eapply (results_follow_artists sample_artists (init 1000)).
  vm_compute. reflexivity.
Defined.

End ClientRun.

(** ** More on the presence report *)

Section PresenceAlgebra.
Import Py World SpotifyPlaylistChecker.

Lemma mark_services_other (url k : string) (services : gmap string bool) :
  k ∉ SERVICE_PATTERNS.*1 → mark_services url services !! k = services !! k.
Proof.
  intros Hk. unfold mark_services, SERVICE_PATTERNS in *. simpl in *.
  repeat match goal with
         | |- context [Re.search ?p true url] => destruct (Re.search p true url)
         end;
    rewrite ?lookup_insert_ne by (intros <-; apply Hk; set_solver);
    reflexivity.
Qed.

Lemma check_relations_other (relations : list json) (k : string)
    (services services' : gmap string bool) :
  k ∉ SERVICE_PATTERNS.*1 →
  check_relations relations services = Ok services' →
  services' !! k = services !! k.
Proof.
  intros Hk. revert services.
  induction relations as [| relation rest IH]; intros services; simpl.
  - by intros [= <-].
  - destruct (check_relation relation services) as [s1 | e] eqn:Hstep; simpl;
      [| discriminate].
    intros Hrest. rewrite (IH _ Hrest).
    unfold check_relation in Hstep. unfold mbind, result_bind in Hstep.
    repeat match type of Hstep with
           | context [match ?x with _ => _ end] =>
               destruct x; try discriminate Hstep
           | context [if ?x then _ else _] =>
               destruct x; try discriminate Hstep
           end;
      injection Hstep as <-; auto using mark_services_other.
Qed.

Lemma check_relations_app (l1 l2 : list json) (services : gmap string bool) :
  check_relations (l1 ++ l2) services
  = check_relations l1 services ≫= check_relations l2.
Proof.
  revert services. induction l1 as [| r l1 IH]; intros services; simpl;
    [reflexivity |].
  destruct (check_relation r services); simpl; [apply IH | reflexivity].
Qed.

(** X6. The report does not depend on the order of the relations. *)
Theorem presence_ignores_order (relations relations' : list json) :
  relations ≡ₚ relations' →
  Forall relation_shaped relations →
  check_streaming_services (JList relations)
  = check_streaming_services (JList relations').
Proof.
  intros Hperm Hall.
  assert (Forall relation_shaped relations') as Hall'.
  { rewrite Forall_forall in Hall |- *. intros r Hr. apply Hall. by rewrite Hperm. }
  unfold check_streaming_services. simpl.
  destruct (check_relations_shaped relations no_services Hall) as (s & Hs & Hl).
  destruct (check_relations_shaped relations' no_services Hall') as (s' & Hs' & Hl').
  rewrite Hs, Hs'. f_equal. apply map_eq. intros k.
  destruct (decide (k ∈ SERVICE_PATTERNS.*1)) as [Hin | Hout].
  - apply list_elem_of_fmap in Hin as ([platform pattern] & -> & Hin). simpl.
    destruct (Hl platform pattern Hin) as (b & Hb & ->).
    destruct (Hl' platform pattern Hin) as (b' & Hb' & ->).
    assert (b = b') as ->; [| reflexivity].
    apply eq_true_iff_eq. rewrite Hb, Hb', !Exists_exists.
    split; intros (r & Hr & Hlink); exists r; (split; [| exact Hlink]).
    + by rewrite <- Hperm.
    + by rewrite Hperm.
  - rewrite (check_relations_other _ _ _ _ Hout Hs),
            (check_relations_other _ _ _ _ Hout Hs'). reflexivity.
Qed.

Lemma presence_ignores_order_witness :
  check_streaming_services (JList sample_relations)
  = check_streaming_services (JList (reverse sample_relations)).
Proof.
  apply (presence_ignores_order sample_relations (reverse sample_relations)).
  - symmetry. apply reverse_Permutation.
  - repeat constructor;
      (eexists; split; [reflexivity |]);
      intros _ target [= <-]; eexists _, _; split; reflexivity.
Defined.

(** X7. More relations never turn a flag off. *)
Theorem presence_grows_with_relations (relations more : list json)
    (services services' : gmap string bool) (platform : string) :
  check_streaming_services (JList relations) = Ok services →
  check_streaming_services (JList (relations ++ more)) = Ok services' →
  services !! platform = Some true →
  services' !! platform = Some true.
Proof.
  unfold check_streaming_services. simpl. rewrite check_relations_app.
  intros ->. simpl. clear relations. revert services.
  induction more as [| relation rest IH]; intros services; simpl.
  - by intros [= <-].
  - destruct (check_relation relation services) as [s1 | e] eqn:Hstep; simpl;
      [| discriminate].
    intros Hrest Hon. apply (IH s1 Hrest).
    unfold check_relation in Hstep. unfold mbind, result_bind in Hstep.
    repeat match type of Hstep with
           | context [match ?x with _ => _ end] =>
               destruct x; try discriminate Hstep
           | context [if ?x then _ else _] =>
               destruct x; try discriminate Hstep
           end;
      injection Hstep as <-; try exact Hon.
    unfold mark_services, SERVICE_PATTERNS. simpl.
    repeat match goal with
           | |- context [Re.search ?p true ?u] => destruct (Re.search p true u)
           end;
      repeat (rewrite lookup_insert; case_decide; [reflexivity |]);
      try exact Hon.
Qed.

Lemma presence_grows_with_relations_witness :
  ({[ "spotify" := true; "tidal" := true; "deezer" := false ]}
     : gmap string bool) !! "spotify" = Some true.
Proof.
  apply (presence_grows_with_relations sample_relations
           [JDict [("type", JStr "streaming");
                   ("url", JDict [("resource",
                                    JStr "https://tidal.com/artist/3528326")])]]
           {[ "spotify" := true; "tidal" := false; "deezer" := false ]}).
  - vm_compute. reflexivity.
  - vm_compute. reflexivity.
  - reflexivity.
Defined.

(** X8. A streaming relation whose [url] is there but is not an object makes the
    check raise AttributeError, whatever comes after it; nothing in [main]
    catches it. *)
Theorem odd_url_raises (before after : list json) (d : list (string * json))
    (target : json) :
  Forall relation_shaped before →
  dict_lookup d "type" = Some (JStr "streaming") →
  dict_lookup d "url" = Some target →
  (∀ t, target ≠ JDict t) →
  check_streaming_services (JList (before ++ JDict d :: after))
  = Raise AttributeError.
Proof.
  intros Hbefore Htype Hurl Hodd.
  unfold check_streaming_services. simpl. rewrite check_relations_app.
  destruct (check_relations_shaped before no_services Hbefore) as (s & -> & _).
  simpl. unfold check_relation. simpl.
  unfold dict_get. rewrite Htype, Hurl. simpl.
  destruct target; try reflexivity. by destruct (Hodd d0).
Qed.

Lemma odd_url_raises_witness :
  check_streaming_services
    (JList (sample_relations
            ++ JDict [("type", JStr "streaming"); ("url", JNull)] :: []))
  = Raise AttributeError.
Proof.
  apply (odd_url_raises sample_relations []
           [("type", JStr "streaming"); ("url", JNull)] JNull).
  - repeat constructor;
      (eexists; split; [reflexivity |]);
      intros _ target [= <-]; eexists _, _; split; reflexivity.
  - reflexivity.
  - reflexivity.
  - discriminate.
Defined.

End PresenceAlgebra.

(** ** More on the reports *)

Section ReportFigures.
Import Py World SpotifyPlaylistChecker.

Lemma count_if_le_length (flag : artist_result → result bool)
    (results : list artist_result) (n : nat) :
  count_if flag results = Ok n → (n <= length results)%nat.
Proof.
  revert n. induction results as [| r results IH]; intros n; simpl.
  - intros [= <-]. lia.
  - destruct (flag r) as [b | e]; simpl; [| discriminate].
    destruct (count_if flag results) as [m | e]; simpl; [| discriminate].
    specialize (IH m eq_refl). destruct b; intros [= <-]; lia.
Qed.

Lemma count_if_mono (f g : artist_result → result bool)
    (results : list artist_result) (n m : nat) :
  (∀ r b, f r = Ok true → g r = Ok b → b = true) →
  count_if f results = Ok n → count_if g results = Ok m → (n <= m)%nat.
Proof.
  intros Himp. revert n m.
  induction results as [| r results IH]; intros n m; simpl.
  - intros [= <-] [= <-]. lia.
  - destruct (f r) as [b1 | e] eqn:Hf; simpl; [| discriminate].
    destruct (count_if f results) as [n' | e]; simpl; [| discriminate].
    destruct (g r) as [b2 | e] eqn:Hg; simpl; [| discriminate].
    destruct (count_if g results) as [m' | e]; simpl; [| discriminate].
    specialize (IH n' m' eq_refl eq_refl).
    intros [= <-] [= <-].
    destruct b1; [rewrite (Himp r b2 Hf Hg) |]; destruct b2; lia.
Qed.

Lemma all_services_flag (k : string) (r : artist_result) (b : bool) :
  all_services r = true → service_flag k r = Ok b → b = true.
Proof.
  unfold all_services, service_flag. intros Hall.
  destruct (services r !! k) as [v |] eqn:Hk; [| discriminate].
  intros [= <-].
  rewrite forallb_forall in Hall.
  apply (Hall (k, v)). apply list_elem_of_In. by apply elem_of_map_to_list.
Qed.

Lemma percent_range (n total : nat) (q : Q) :
  (n <= total)%nat → percent n total = Ok q → (0 <= q)%Q ∧ (q <= 100)%Q.
Proof.
  intros Hle. unfold percent.
  destruct (Nat.eqb_spec total 0) as [| Hne]; [discriminate |].
  intros [= <-].
  assert (0 < inject_Z (Z.of_nat total))%Q as Hpos.
  { change 0%Q with (inject_Z 0). rewrite <- Zlt_Qlt. lia. }
  assert (0 <= inject_Z (Z.of_nat n))%Q as Hn.
  { change 0%Q with (inject_Z 0). rewrite <- Zle_Qle. lia. }
  assert (inject_Z (Z.of_nat n) <= inject_Z (Z.of_nat total))%Q as Hnt.
  { rewrite <- Zle_Qle. lia. }
  assert (0 <= inject_Z (Z.of_nat n) / inject_Z (Z.of_nat total))%Q as H0.
  { apply Qle_shift_div_l; [exact Hpos | lra]. }
  assert (inject_Z (Z.of_nat n) / inject_Z (Z.of_nat total) <= 1)%Q as H1.
  { apply Qle_shift_div_r; [exact Hpos | lra]. }
  split; lra.
Qed.

(** X9. The figures of a summary are consistent: no count exceeds the number of
    artists, the "all three" count exceeds no single service's count, every
    percentage lies between 0 and 100, and the artists listed as missing are
    known to MusicBrainz and lack at least one service. *)
Theorem summary_figures_consistent (results : list artist_result) (s : summary) :
  print_summary results = Ok s →
  (in_mb s <= total s ∧ has_spotify s <= total s
   ∧ has_tidal s <= total s ∧ has_deezer s <= total s)%nat
  ∧ (has_all s <= has_spotify s ∧ has_all s <= has_tidal s
     ∧ has_all s <= has_deezer s)%nat
  ∧ Forall (fun q => (0 <= q)%Q ∧ (q <= 100)%Q)
      [pct_in_mb s; pct_spotify s; pct_tidal s; pct_deezer s; pct_all s]
  ∧ Forall (fun r => mb_found r = true ∧ all_services r = false) (missing_any s).
Proof.
  unfold print_summary. unfold mbind, result_bind.
  destruct (count_if (fun r => Ok (mb_found r)) results) as [n1 |] eqn:H1;
    [| discriminate].
  destruct (count_if (service_flag "spotify") results) as [n2 |] eqn:H2;
    [| discriminate].
  destruct (count_if (service_flag "tidal") results) as [n3 |] eqn:H3;
    [| discriminate].
  destruct (count_if (service_flag "deezer") results) as [n4 |] eqn:H4;
    [| discriminate].
  destruct (count_if (fun r => Ok (all_services r)) results) as [n5 |] eqn:H5;
    [| discriminate].
  pose proof (count_if_le_length _ _ _ H1) as L1.
  pose proof (count_if_le_length _ _ _ H2) as L2.
  pose proof (count_if_le_length _ _ _ H3) as L3.
  pose proof (count_if_le_length _ _ _ H4) as L4.
  pose proof (count_if_le_length _ _ _ H5) as L5.
  assert (∀ k, ∀ r b, (fun r => Ok (all_services r)) r = Ok true →
                      service_flag k r = Ok b → b = true) as Hall.
  { intros k r b [= Hr]. by apply all_services_flag. }
  pose proof (count_if_mono _ _ _ _ _ (Hall "spotify") H5 H2) as M2.
  pose proof (count_if_mono _ _ _ _ _ (Hall "tidal") H5 H3) as M3.
  pose proof (count_if_mono _ _ _ _ _ (Hall "deezer") H5 H4) as M4.
  destruct (percent n1 _) as [q1 |] eqn:P1; [| discriminate].
  destruct (percent n2 _) as [q2 |] eqn:P2; [| discriminate].
  destruct (percent n3 _) as [q3 |] eqn:P3; [| discriminate].
  destruct (percent n4 _) as [q4 |] eqn:P4; [| discriminate].
  destruct (percent n5 _) as [q5 |] eqn:P5; [| discriminate].
  intros [= <-]. simpl.
  split; [auto |]. split; [auto |]. split.
  - constructor; [exact (percent_range _ _ _ L1 P1) |].
    constructor; [exact (percent_range _ _ _ L2 P2) |].
    constructor; [exact (percent_range _ _ _ L3 P3) |].
    constructor; [exact (percent_range _ _ _ L4 P4) |].
    constructor; [exact (percent_range _ _ _ L5 P5) | constructor].
  - apply Forall_forall. intros r Hr.
    apply list_elem_of_filter in Hr as [Hr _].
    apply andb_prop_elim in Hr as [Hf Hn].
    split; [by apply Is_true_true | ].
    apply negb_prop_elim in Hn. by apply Is_true_false.
Qed.

Lemma summary_figures_consistent_witness :
  ∃ s, print_summary sample_results = Ok s
       ∧ (has_all s <= has_spotify s ∧ has_all s <= has_tidal s
          ∧ has_all s <= has_deezer s)%nat.
Proof.
  eexists. split; [vm_compute; reflexivity |].
  eapply (summary_figures_consistent sample_results).
  vm_compute. reflexivity.
Defined.

Lemma print_csv_reported (results : list artist_result) :
  Forall reported results → print_csv results = Ok results.
Proof.
  induction 1 as [| r results (Hs & Ht & Hd) _ IH]; simpl; [reflexivity |].
  unfold read_flags, service_flag.
  destruct Hs as [? ->], Ht as [? ->], Hd as [? ->]. simpl.
  by rewrite IH.
Qed.

Lemma print_detailed_reported (results : list artist_result) :
  Forall reported results → print_detailed results = Ok results.
Proof.
  induction 1 as [| r results (Hs & Ht & Hd) _ IH]; simpl; [reflexivity |].
  unfold read_flags, service_flag.
  destruct Hs as [? ->], Ht as [? ->], Hd as [? ->].
  destruct (mb_found r); simpl; by rewrite IH.
Qed.

(** X10. The detailed and the CSV output never fail on the entries [main] builds,
    the empty list included: they show every artist once, in order, or with
    [--missing-only] exactly the artists that lack a service. *)
Theorem listings_show_every_artist (missing_only : bool)
    (results : list artist_result) :
  Forall reported results →
  let shown :=
    if missing_only then filter (fun r => negb (all_services r)) results
    else results in
  print_results missing_only OutCsv results = Ok (CsvReport shown)
  ∧ print_results missing_only OutDetailed results = Ok (DetailedReport shown).
Proof.
  intros Hrep shown.
  assert (Forall reported shown) as Hshown.
  { subst shown. destruct missing_only; [| exact Hrep].
    rewrite Forall_forall in Hrep |- *. intros r Hr.
    apply list_elem_of_filter in Hr as [_ Hr]. by apply Hrep. }
  unfold print_results. fold shown.
  by rewrite (print_csv_reported shown Hshown),
             (print_detailed_reported shown Hshown).
Qed.

Lemma listings_show_every_artist_witness :
  print_results true OutCsv sample_results
  = Ok (CsvReport
          [ArtistResult "Garage Band Nobody Knows" "0OdUWJ0sBjDrqHygGUXeCF"
             false no_services])
  ∧ print_results false OutDetailed [] = Ok (DetailedReport []).
Proof.
  split.
  - apply (listings_show_every_artist true sample_results).
    repeat constructor; vm_compute; eauto.
  - apply (listings_show_every_artist false []). constructor.
Defined.

End ReportFigures.

(** ** More on the album import *)

Section AlbumImportRun.
Import Py World ImportNfoAlbums.

Ltac split_on_scrutinee H :=
  match type of H with
  | context [match ?x with _ => _ end] =>
      destruct x eqn:?; simpl in H; try discriminate H
  | context [if ?x then _ else _] =>
      destruct x eqn:?; simpl in H; try discriminate H
  end.

Lemma album_listed_true (albums : list json) (mb_id : string) :
  album_listed albums mb_id = Ok true →
  ∃ d, JDict d ∈ albums ∧ dict_lookup d "foreignAlbumId" = Some (JStr mb_id).
Proof.
  induction albums as [| album rest IH]; simpl; [discriminate |].
  destruct album as [| | | | | | d]; simpl; try discriminate.
  destruct (eq_str (dict_get d "foreignAlbumId" JNull) mb_id) eqn:Heq.
  - intros _. exists d. split; [apply list_elem_of_here |].
    apply eq_str_true in Heq. by apply dict_get_null.
  - intros H. destruct (IH H) as (d' & Hin & Hid).
    exists d'. split; [by apply list_elem_of_further | exact Hid].
Qed.

Lemma album_listed_dicts (albums : list json) (mb_id : string) :
  Forall (fun album => ∃ d, album = JDict d) albums →
  (∃ d, JDict d ∈ albums ∧ dict_lookup d "foreignAlbumId" = Some (JStr mb_id)) →
  album_listed albums mb_id = Ok true.
Proof.
  induction 1 as [| album rest [d ->] _ IH]; intros (d' & Hin & Hid).
  - by apply elem_of_nil in Hin.
  - simpl. destruct (eq_str (dict_get d "foreignAlbumId" JNull) mb_id) eqn:Heq;
      [reflexivity |].
    apply IH. exists d'. split; [| exact Hid].
    apply elem_of_cons in Hin as [[= ->] | Hin]; [| exact Hin].
    apply dict_get_null, eq_str_true in Hid. congruence.
Qed.

(** X11. An album counts as already present exactly when the library listing
    (answered 200 with a list of objects) holds an album with that foreign
    id; then [add_album_to_lidarr] returns None and posts nothing, whatever
    the search would have answered. *)
Theorem listed_album_is_not_added (srv : lidarr) (albums : list json)
    (mb_id : string) :
  get_album srv = Ok (Response 200 (Ok (JList albums))) →
  Forall (fun album => ∃ d, album = JDict d) albums →
  (check_album_exists srv mb_id = true
   ↔ ∃ d, JDict d ∈ albums ∧ dict_lookup d "foreignAlbumId" = Some (JStr mb_id))
  ∧ (check_album_exists srv mb_id = true →
     add_album_to_lidarr srv mb_id = (None, [])).
Proof.
  intros Hget Hdicts. split.
  - unfold check_album_exists. rewrite Hget. simpl. split.
    + destruct (album_listed albums mb_id) as [[] | e] eqn:Hl; try discriminate.
      intros _. by apply album_listed_true.
    + intros Hex. by rewrite (album_listed_dicts albums mb_id Hdicts Hex).
  - intros Hex. unfold add_album_to_lidarr. by rewrite Hex.
Qed.

Lemma listed_album_is_not_added_witness :
  add_album_to_lidarr
    (Lidarr (Ok (Response 200 (Ok (JList [other_album; sample_album]))))
       (get_search sample_lidarr) (post_album sample_lidarr)) sample_id
  = (None, []).
Proof.
  apply (listed_album_is_not_added _ [other_album; sample_album] sample_id).
  - reflexivity.
  - repeat constructor; eexists; reflexivity.
  - vm_compute. reflexivity.
Defined.

(** What the [try] block returns: no POST and False, or one POST and True
    exactly when that POST was answered 200 or 201. *)
Lemma add_album_body_cases (srv : lidarr) (mb_id : string) (b : bool)
    (posted : list json) :
  add_album_body srv mb_id = Ok (b, posted) →
  (posted = [] ∧ b = false)
  ∨ ∃ payload, posted = [payload]
      ∧ (b = true ↔ ∃ resp, post_album srv payload = Ok resp
                      ∧ (status_code resp = 200 ∨ status_code resp = 201)%Z).
Proof.
  intros H. unfold add_album_body in H. unfold mbind, result_bind in H.
  repeat split_on_scrutinee H;
    injection H as <- <-; try (by left); right; eexists; (split; [reflexivity |]).
  - split; [intros _ | reflexivity].
    eexists. split; [eassumption |].
    match goal with
    | Hs : (_ || _)%bool = true |- _ =>
        apply orb_true_iff in Hs as [Hs | Hs]; apply Z.eqb_eq in Hs; auto
    end.
  - split; [discriminate |]. intros (resp & Hpost & Hstatus).
    match goal with
    | Hp : post_album srv ?p = Ok ?r, Hs : (_ || _)%bool = false |- _ =>
        rewrite Hp in Hpost; injection Hpost as <-;
        apply orb_false_iff in Hs as [Hs1 Hs2];
        apply Z.eqb_neq in Hs1, Hs2
    end.
    destruct Hstatus; contradiction.
  - split; [discriminate |]. intros (resp & Hpost & _). congruence.
Qed.

(** X12. [add_album_to_lidarr] posts at most one body.  It returns True exactly
    when it posted and the POST was answered 200 or 201, and it posts nothing
    when it returns None. *)
Theorem album_added_iff_post_accepted (srv : lidarr) (mb_id : string) :
  let '(outcome, posted) := add_album_to_lidarr srv mb_id in
  (length posted <= 1)%nat
  ∧ (outcome = None → posted = [])
  ∧ (outcome = Some true
     ↔ ∃ payload resp, posted = [payload]
         ∧ post_album srv payload = Ok resp
         ∧ (status_code resp = 200 ∨ status_code resp = 201)%Z).
Proof.
  unfold add_album_to_lidarr.
  destruct (check_album_exists srv mb_id).
  - split; [simpl; lia |]. split; [reflexivity |].
    split; [discriminate | intros (? & ? & [=] & _)].
  - destruct (add_album_body srv mb_id) as [[b posted] | e] eqn:Hbody.
    + destruct (add_album_body_cases srv mb_id b posted Hbody)
        as [[-> ->] | (payload & -> & Hiff)].
      * split; [simpl; lia |]. split; [discriminate |].
        split; [discriminate | intros (? & ? & [=] & _)].
      * split; [simpl; lia |]. split; [discriminate |].
        split.
        -- intros [= ->]. destruct Hiff as [Hiff _].
           destruct (Hiff eq_refl) as (resp & Hp & Hs). eauto.
        -- intros (payload' & resp & [= <-] & Hp & Hs).
           f_equal. apply Hiff. eauto.
    + split; [simpl; lia |]. split; [discriminate |].
      split; [discriminate | intros (? & ? & [=] & _)].
Qed.

(** X13. Every body [add_album_to_lidarr] posts names the album by the input id,
    not by the id of the matched search result, asks for monitoring with any
    release, sets the configured quality profile and asks for no search. *)
Theorem posted_body_names_the_input (srv : lidarr) (mb_id : string)
    (payload : json) :
  payload ∈ (add_album_to_lidarr srv mb_id).2 →
  getitem payload "foreignAlbumId" = Ok (JStr mb_id)
  ∧ getitem payload "monitored" = Ok (JBool true)
  ∧ getitem payload "anyReleaseOk" = Ok (JBool true)
  ∧ getitem payload "profileId" = Ok (JInt QUALITY_PROFILE_ID)
  ∧ getitem payload "addOptions"
    = Ok (JDict [("searchForNewAlbum", JBool false)]).
Proof.
  unfold add_album_to_lidarr.
  destruct (check_album_exists srv mb_id); [by intros ?%elem_of_nil |].
  destruct (add_album_body srv mb_id) as [[b posted] | e] eqn:Hbody;
    [| by intros ?%elem_of_nil].
  simpl. intros Hin.
  destruct (add_album_body_cases srv mb_id b posted Hbody)
    as [[-> _] | (payload' & -> & _)]; [by apply elem_of_nil in Hin |].
  apply list_elem_of_singleton in Hin as ->.
  destruct (add_album_body_posted srv mb_id b payload' Hbody)
    as (_ & _ & _ & _ & album & _ & posted & _ & _ & _ & _ & _ & _ & ->).
  repeat split; reflexivity.
Qed.

Lemma posted_body_names_the_input_witness :
  ∃ payload,
    (add_album_to_lidarr
       (Lidarr (get_album sample_lidarr)
          (fun _ => Ok (Response 200 (Ok (JList [qualified_album]))))
          (post_album sample_lidarr)) sample_id).2 = [payload]
    ∧ getitem payload "foreignAlbumId" = Ok (JStr sample_id).
Proof.
  eexists. split; [vm_compute; reflexivity |].
  eapply (posted_body_names_the_input
            (Lidarr (get_album sample_lidarr)
               (fun _ => Ok (Response 200 (Ok (JList [qualified_album]))))
               (post_album sample_lidarr)) sample_id).
  vm_compute. apply list_elem_of_here.
Defined.

End AlbumImportRun.

(** ** More on identifier extraction *)

Section ExtractionRoundTrips.
Import Py World ImportNfoAlbums.

Lemma string_app_cons (c : ascii) (s t : string) :
  String c s +:+ t = String c (s +:+ t).
Proof. reflexivity. Qed.

Lemma string_app_nil_l (t : string) : "" +:+ t = t.
Proof. reflexivity. Qed.

Lemma string_app_nil_r (s : string) : s +:+ "" = s.
Proof.
  induction s as [| c s IH]; [reflexivity |].
  by rewrite string_app_cons, IH.
Qed.

Lemma string_app_assoc (s1 s2 s3 : string) :
  (s1 +:+ s2) +:+ s3 = s1 +:+ (s2 +:+ s3).
Proof.
  induction s1 as [| c s1 IH]; [reflexivity |].
  by rewrite !string_app_cons, IH.
Qed.

Lemma rev_app_append (s1 s2 s3 : string) :
  String.rev_app s1 s2 +:+ s3 = String.rev_app s1 (s2 +:+ s3).
Proof.
  revert s2. induction s1 as [| c s1 IH]; intros s2; simpl; [reflexivity |].
  by rewrite IH.
Qed.

Lemma rev_app_app (s1 s2 s3 : string) :
  String.rev_app (s1 +:+ s2) s3 = String.rev_app s2 (String.rev_app s1 s3).
Proof.
  revert s3. induction s1 as [| c s1 IH]; intros s3; [reflexivity |].
  rewrite string_app_cons. simpl. by rewrite IH.
Qed.

Lemma rev_app_rev_app (s1 s2 s3 : string) :
  String.rev_app (String.rev_app s1 s2) s3 = String.rev_app s2 (s1 +:+ s3).
Proof.
  revert s2 s3. induction s1 as [| c s1 IH]; intros s2 s3; [reflexivity |].
  rewrite string_app_cons. simpl. by rewrite IH.
Qed.

Lemma string_rev_app (s1 s2 : string) :
  String.rev (s1 +:+ s2) = String.rev s2 +:+ String.rev s1.
Proof.
  unfold String.rev. by rewrite rev_app_app, rev_app_append.
Qed.

Lemma string_rev_involutive (s : string) : String.rev (String.rev s) = s.
Proof.
  unfold String.rev. rewrite rev_app_rev_app. simpl. apply string_app_nil_r.
Qed.

Lemma all_chars_rev_app (p : ascii → bool) (s1 s2 : string) :
  all_chars p (String.rev_app s1 s2) = all_chars p s1 && all_chars p s2.
Proof.
  revert s2. induction s1 as [| c s1 IH]; intros s2; simpl; [reflexivity |].
  rewrite IH. simpl. by destruct (p c), (all_chars p s1), (all_chars p s2).
Qed.

Lemma all_chars_rev (p : ascii → bool) (s : string) :
  all_chars p (String.rev s) = all_chars p s.
Proof. unfold String.rev. rewrite all_chars_rev_app. simpl. apply andb_true_r. Qed.

Lemma lstrip_spaces (ws s : string) :
  all_chars isspace ws = true → lstrip (ws +:+ s) = lstrip s.
Proof.
  induction ws as [| c ws IH]; [reflexivity |].
  rewrite string_app_cons. simpl.
  intros [Hc Hws]%andb_true_iff. rewrite Hc. by apply IH.
Qed.

Lemma lstrip_clean (s rest : string) :
  s ≠ "" → all_chars not_space s = true → lstrip (s +:+ rest) = s +:+ rest.
Proof.
  destruct s as [| c s]; [done |]. rewrite string_app_cons. simpl.
  unfold not_space at 1.
  intros _ [Hc _]%andb_true_iff. apply negb_true_iff in Hc. by rewrite Hc.
Qed.

(** [strip] takes the whitespace off both ends of a text without
    whitespace. *)
Lemma strip_padded (ws1 token ws2 : string) :
  all_chars isspace ws1 = true → all_chars isspace ws2 = true →
  token ≠ "" → all_chars not_space token = true →
  strip (ws1 +:+ token +:+ ws2) = token.
Proof.
  intros Hws1 Hws2 Hne Hclean. unfold strip.
  rewrite (lstrip_spaces ws1 _ Hws1), (lstrip_clean token ws2 Hne Hclean).
  rewrite string_rev_app, lstrip_spaces by (by rewrite all_chars_rev).
  rewrite <- (string_app_nil_r (String.rev token)).
  rewrite lstrip_clean.
  - rewrite string_app_nil_r. apply string_rev_involutive.
  - intros Hrev. apply (f_equal String.rev) in Hrev.
    rewrite string_rev_involutive in Hrev. done.
  - by rewrite all_chars_rev.
Qed.

(** X14. From a file that parses, extraction returns the release-group token
    itself, whatever whitespace surrounds it inside the tag. *)
Theorem token_returned_without_padding (f : nfo_file) (root e : Element)
    (ws1 token ws2 : string) :
  et_parse f = Ok root →
  find root "musicbrainzreleasegroupid" = Some e →
  text e = Some (ws1 +:+ token +:+ ws2) →
  all_chars isspace ws1 = true → all_chars isspace ws2 = true →
  token ≠ "" → all_chars not_space token = true →
  extract_musicbrainz_id f = Ok (Some token).
Proof.
  intros Hparse Hfind Htext Hws1 Hws2 Hne Hclean.
  unfold extract_musicbrainz_id. rewrite Hparse, Hfind.
  unfold has_text. simpl. rewrite Htext. simpl.
  destruct (String.eqb_spec (ws1 +:+ token +:+ ws2) "") as [Hempty | _].
  - exfalso. destruct ws1; [| discriminate Hempty].
    destruct token; [done | discriminate Hempty].
  - by rewrite strip_padded.
Qed.

Lemma token_returned_without_padding_witness :
  extract_musicbrainz_id padded_nfo = Ok (Some sample_id).
Proof.
  eapply (token_returned_without_padding padded_nfo _ _
            (String "010" "    ") sample_id (String "010" "  ")).
  - reflexivity.
  - reflexivity.
  - reflexivity.
  - reflexivity.
  - reflexivity.
  - discriminate.
  - reflexivity.
Defined.

Lemma match_atom_all (ignorecase : bool) (a : Re.atom) (token rest : string) :
  all_chars (Re.atom_matches ignorecase a) token = true →
  Re.match_atom ignorecase a (String.length token) (token +:+ rest)
  = Some (token, rest).
Proof.
  induction token as [| c token IH]; [reflexivity |].
  rewrite string_app_cons. simpl.
  intros [Hc Htoken]%andb_true_iff. rewrite Hc, (IH Htoken). reflexivity.
Qed.

Lemma match_here_literal (text s : string) (nodes : list Re.node)
    (captured : string) :
  Re.match_here true (Re.literal_nodes text ++ nodes) (text +:+ s) false captured
  = Re.match_here true nodes s false captured.
Proof.
  unfold Re.literal_nodes.
  induction text as [| c text IH]; [reflexivity |].
  rewrite string_app_cons. simpl. by rewrite Ascii.eqb_refl.
Qed.

Lemma atom_matches_id_char (c : ascii) :
  Re.atom_matches true
    (Re.CharSet [("a", "f"); ("0", "9"); ("-", "-")]%char) c = id_char c.
Proof. destruct c as [[] [] [] [] [] [] [] []]; reflexivity. Qed.

Lemma lower_is_lt (c : ascii) :
  Ascii.eqb (Re.lower c) (Re.lower "<") = Ascii.eqb c "<".
Proof. destruct c as [[] [] [] [] [] [] [] []]; reflexivity. Qed.

Lemma release_group_nodes :
  Re.parse RELEASE_GROUP_RE
  = Some (Re.literal_nodes "<musicbrainzreleasegroupid>"
          ++ [Re.GroupOpen;
              Re.Atom (Re.CharSet [("a", "f"); ("0", "9"); ("-", "-")]%char) 36;
              Re.GroupClose]
          ++ Re.literal_nodes "</musicbrainzreleasegroupid>").
Proof. vm_compute. reflexivity. Qed.

Lemma album_nodes :
  Re.parse ALBUM_RE
  = Some (Re.literal_nodes "<musicbrainzalbumid>"
          ++ [Re.GroupOpen;
              Re.Atom (Re.CharSet [("a", "f"); ("0", "9"); ("-", "-")]%char) 36;
              Re.GroupClose]
          ++ Re.literal_nodes "</musicbrainzalbumid>").
Proof. vm_compute. reflexivity. Qed.

(** A tagged token is matched where it stands. *)
Lemma match_here_tagged (open_tag close_tag token rest : string) :
  String.length token = 36%nat → all_chars id_char token = true →
  Re.match_here true
    (Re.literal_nodes open_tag
     ++ [Re.GroupOpen;
         Re.Atom (Re.CharSet [("a", "f"); ("0", "9"); ("-", "-")]%char) 36;
         Re.GroupClose]
     ++ Re.literal_nodes close_tag)
    (open_tag +:+ token +:+ close_tag +:+ rest) false ""
  = Some token.
Proof.
  intros Hlen Hchars. rewrite match_here_literal.
  cbn [Re.match_here app]. rewrite <- Hlen at 1.
  rewrite match_atom_all.
  - cbn [mbind option_bind]. rewrite string_app_nil_l.
    rewrite <- (app_nil_r (Re.literal_nodes close_tag)).
    by rewrite match_here_literal.
  - clear Hlen. induction token as [| c token IH]; [reflexivity |].
    cbn [all_chars] in Hchars |- *.
    apply andb_true_iff in Hchars as [Hc Htoken].
    rewrite atom_matches_id_char, Hc. by apply IH.
Qed.

(** Before the first angle bracket nothing matches. *)
Lemma search_skips_text (open_tag : string) (nodes : list Re.node)
    (before s : string) (found : string) :
  all_chars not_lt before = true →
  Re.match_here true
    (Re.literal_nodes (String "<" open_tag) ++ nodes) s false "" = Some found →
  Re.search_nodes true (Re.literal_nodes (String "<" open_tag) ++ nodes)
    (before +:+ s) = Some found.
Proof.
  intros Hbefore Hhere.
  induction before as [| c before IH].
  - rewrite string_app_nil_l. destruct s; cbn [Re.search_nodes]; by rewrite Hhere.
  - rewrite string_app_cons. simpl in Hbefore.
    apply andb_true_iff in Hbefore as [Hc Hrest].
    unfold not_lt in Hc. apply negb_true_iff in Hc.
    cbn [Re.search_nodes]. unfold Re.literal_nodes at 1.
    cbn [list_ascii_of_string map app Re.match_here Re.match_atom
         Re.atom_matches].
    rewrite lower_is_lt, Hc. cbn [mbind option_bind]. by apply IH.
Qed.

(** X15. From a file the parser rejects, extraction returns the first
    release-group token as it stands in the text: 36 characters out of
    digits, the letters a to f and hyphens, between the opening and the
    closing tag, with no angle bracket before the opening tag. *)
Theorem fallback_returns_embedded_token (f : nfo_file)
    (before token rest : string) :
  et_parse f = Raise ParseError →
  read_text f = Ok (before +:+ "<musicbrainzreleasegroupid>" +:+ token
                    +:+ "</musicbrainzreleasegroupid>" +:+ rest) →
  all_chars not_lt before = true →
  String.length token = 36%nat → all_chars id_char token = true →
  extract_musicbrainz_id f = Ok (Some token).
Proof.
  intros Hparse Hread Hbefore Hlen Hchars.
  unfold extract_musicbrainz_id. rewrite Hparse, Hread.
  unfold extract_by_regex, Re.search. rewrite release_group_nodes.
  cbn [mbind option_bind].
  rewrite (search_skips_text "musicbrainzreleasegroupid>" _ before _ token Hbefore);
    [reflexivity |].
  by apply (match_here_tagged "<musicbrainzreleasegroupid>"
              "</musicbrainzreleasegroupid>").
Qed.

Lemma fallback_returns_embedded_token_witness :
  extract_musicbrainz_id ampersand_nfo = Ok (Some sample_id).
Proof.
  apply (fallback_returns_embedded_token ampersand_nfo
           "album: Simon & Garfunkel " sample_id "</album>");
    reflexivity.
Defined.

Lemma all_chars_app (p : ascii → bool) (s1 s2 : string) :
  all_chars p (s1 +:+ s2) = all_chars p s1 && all_chars p s2.
Proof.
  induction s1 as [| c s1 IH]; [reflexivity |].
  rewrite string_app_cons. simpl. by rewrite IH, andb_assoc.
Qed.

Lemma match_atom_chars (ignorecase : bool) (a : Re.atom) (count : nat)
    (s consumed rest : string) :
  Re.match_atom ignorecase a count s = Some (consumed, rest) →
  all_chars (Re.atom_matches ignorecase a) consumed = true.
Proof.
  revert s consumed rest.
  induction count as [| count IH]; intros s consumed rest; simpl.
  - by intros [= <- _].
  - destruct s as [| c s]; [discriminate |].
    destruct (Re.atom_matches ignorecase a c) eqn:Hc; [| discriminate].
    destruct (Re.match_atom ignorecase a count s) as [[consumed' rest'] |] eqn:Hm;
      [| discriminate].
    simpl. intros [= <- _]. simpl. rewrite Hc. exact (IH _ _ _ Hm).
Qed.

Lemma match_here_chars (p : ascii → bool) (ignorecase : bool)
    (nodes : list Re.node) (s : string) (in_group : bool)
    (captured out : string) :
  Re.captures_only p ignorecase nodes in_group →
  all_chars p captured = true →
  Re.match_here ignorecase nodes s in_group captured = Some out →
  all_chars p out = true.
Proof.
  revert s in_group captured.
  induction nodes as [| [a count | |] nodes IH]; intros s in_group captured; simpl.
  - by intros _ Hcap [= <-].
  - intros [Hatom Hrest] Hcap.
    destruct (Re.match_atom ignorecase a count s) as [[consumed rest] |] eqn:Hm;
      [| discriminate].
    simpl. apply IH; [exact Hrest |].
    destruct in_group; [| exact Hcap].
    rewrite all_chars_app, Hcap. simpl.
    apply match_atom_chars in Hm.
    clear -Hm Hatom. induction consumed as [| c consumed IHc]; [reflexivity |].
    simpl in Hm |- *. apply andb_true_iff in Hm as [Hc Hm].
    rewrite (Hatom eq_refl c Hc). by apply IHc.
  - apply IH.
  - apply IH.
Qed.

Lemma search_nodes_chars (p : ascii → bool) (ignorecase : bool)
    (nodes : list Re.node) (s out : string) :
  Re.captures_only p ignorecase nodes false →
  Re.search_nodes ignorecase nodes s = Some out →
  all_chars p out = true.
Proof.
  intros Hnodes. induction s as [| c s IH]; simpl.
  - destruct (Re.match_here ignorecase nodes "" false "") eqn:Hm; [| discriminate].
    intros [= <-]. exact (match_here_chars p _ _ _ _ "" _ Hnodes eq_refl Hm).
  - destruct (Re.match_here ignorecase nodes (String c s) false "") eqn:Hm.
    + intros [= <-]. exact (match_here_chars p _ _ _ _ "" _ Hnodes eq_refl Hm).
    + exact IH.
Qed.

Lemma tagged_nodes_capture_ids (open_tag close_tag : string) :
  Re.captures_only id_char true
    (Re.literal_nodes open_tag
     ++ [Re.GroupOpen;
         Re.Atom (Re.CharSet [("a", "f"); ("0", "9"); ("-", "-")]%char) 36;
         Re.GroupClose]
     ++ Re.literal_nodes close_tag) false.
Proof.
  unfold Re.literal_nodes.
  induction (list_ascii_of_string open_tag) as [| c l IH]; simpl.
  - split; [intros _ c Hc; by rewrite <- atom_matches_id_char |].
    induction (list_ascii_of_string close_tag) as [| c l IH]; simpl; [done |].
    split; [discriminate | exact IH].
  - split; [discriminate | exact IH].
Qed.

(** X16. Whatever the regex fallback returns is 36 characters long and made of
    digits, the letters a to f in either case, and hyphens. *)
Theorem fallback_identifier_is_a_token (f : nfo_file) (mb_id : string) :
  et_parse f = Raise ParseError →
  extract_musicbrainz_id f = Ok (Some mb_id) →
  String.length mb_id = 36%nat ∧ all_chars id_char mb_id = true.
Proof.
  intros Hparse. unfold extract_musicbrainz_id. rewrite Hparse.
  destruct (read_text f) as [content | e]; [| discriminate].
  intros [= Hfound]. split; [exact (fallback_identifier_length _ _ Hfound) |].
  unfold extract_by_regex, Re.search in Hfound.
  rewrite release_group_nodes, album_nodes in Hfound.
  cbn [mbind option_bind] in Hfound.
  destruct (Re.search_nodes true _ content) as [g1 |] eqn:Hs1.
  - injection Hfound as <-.
    exact (search_nodes_chars _ _ _ _ _ (tagged_nodes_capture_ids _ _) Hs1).
  - destruct (Re.search_nodes true _ content) as [g2 |] eqn:Hs2 in Hfound;
      [| discriminate].
    injection Hfound as <-.
    exact (search_nodes_chars _ _ _ _ _ (tagged_nodes_capture_ids _ _) Hs2).
Qed.

Lemma fallback_identifier_is_a_token_witness :
  String.length sample_id = 36%nat ∧ all_chars id_char sample_id = true.
Proof.
  apply (fallback_identifier_is_a_token malformed_nfo sample_id).
  - reflexivity.
  - vm_compute. reflexivity.
Defined.

End ExtractionRoundTrips.

(** ** The artists of a release *)

Section ReleaseArtists.
Import Py World MbLidarrImport.

Lemma distinct_keys_snoc (ks : list json) (k : json) :
  distinct_keys ks →
  existsb (fun k' => key_eq k' k) ks = false →
  distinct_keys (ks ++ [k]).
Proof.
  intros Hks Hnew i j a b Hij Ha Hb.
  apply lookup_lt_Some in Hb as Hj. rewrite length_app in Hj. simpl in Hj.
  rewrite lookup_app_l in Ha by lia.
  destruct (decide (j < length ks)%nat) as [Hlt | Hge].
  - rewrite lookup_app_l in Hb by lia. eauto.
  - rewrite lookup_app_r in Hb by lia.
    replace (j - length ks)%nat with 0%nat in Hb by lia. injection Hb as <-.
    destruct (key_eq a k) eqn:Heq; [| reflexivity].
    assert (existsb (fun k' => key_eq k' k) ks = true) as Hex; [| congruence].
    apply existsb_exists. exists a. split; [| exact Heq].
    apply list_elem_of_In, list_elem_of_lookup. eauto.
Qed.

(** What one credit does to the two lists. *)
Lemma add_credit_cases (credit : json) (artists seen_ids artists' seen_ids' : list json) :
  add_credit credit (artists, seen_ids) = Ok (artists', seen_ids') →
  (artists' = artists ∧ seen_ids' = seen_ids)
  ∨ ∃ (c a : list (string * json)) (mb_id name sort_name : json),
      credit = JDict c
      ∧ dict_lookup c "artist" = Some (JDict a)
      ∧ dict_lookup a "id" = Some mb_id
      ∧ dict_lookup a "name" = Some name
      ∧ sort_name = dict_get a "sort-name" name
      ∧ existsb (fun k => key_eq k mb_id) seen_ids = false
      ∧ artists' = artists ++ [JDict [("id", mb_id); ("name", name);
                                      ("sort_name", sort_name)]]
      ∧ seen_ids' = seen_ids ++ [mb_id].
Proof.
  unfold add_credit.
  destruct credit as [| | | | | | c]; try (intros [= <- <-]; by left).
  destruct (dict_lookup c "artist") as [artist |] eqn:Hartist;
    [| intros [= <- <-]; by left].
  destruct artist as [| | | | | | a]; try discriminate.
  simpl. destruct (dict_lookup a "id") as [mb_id |] eqn:Hid; [| discriminate].
  simpl. unfold seen. destruct (hashable mb_id); [| discriminate]. simpl.
  destruct (existsb _ seen_ids) eqn:Hseen; [intros [= <- <-]; by left |].
  destruct (dict_lookup a "name") as [name |] eqn:Hname; [| discriminate].
  simpl. intros [= <- <-]. right.
  exists c, a, mb_id, name, (dict_get a "sort-name" name). auto 10.
Qed.

Lemma add_credits_distinct (credits : list json)
    (artists seen_ids artists' seen_ids' : list json) :
  artist_ids artists = seen_ids → distinct_keys seen_ids →
  add_credits credits (artists, seen_ids) = Ok (artists', seen_ids') →
  artist_ids artists' = seen_ids' ∧ distinct_keys seen_ids'.
Proof.
  revert artists seen_ids.
  induction credits as [| credit rest IH]; intros artists seen_ids Hids Hdis;
    cbn [add_credits].
  - by intros [= <- <-].
  - destruct (add_credit credit (artists, seen_ids)) as [[a1 s1] | e] eqn:Hstep;
      simpl; [| discriminate].
    apply IH.
    + destruct (add_credit_cases _ _ _ _ _ Hstep)
        as [[-> ->] | (c & a & mb_id & name & sort & _ & _ & _ & _ & _ & _ & -> & ->)];
        [exact Hids |].
      unfold artist_ids in *. rewrite map_app, Hids. reflexivity.
    + destruct (add_credit_cases _ _ _ _ _ Hstep)
        as [[-> ->] | (c & a & mb_id & name & sort & _ & _ & _ & _ & _ & Hnew & -> & ->)];
        [exact Hdis |].
      by apply distinct_keys_snoc.
Qed.

(** X17. [get_release_artists] returns no artist twice: the ids of the artists
    it returns are pairwise different, whatever MusicBrainz answered. *)
Theorem release_artists_are_distinct (fetched : result json) :
  distinct_keys (artist_ids (get_release_artists fetched)).
Proof.
  assert (distinct_keys []) as Hnil by (intros i j a b _ [=]).
  unfold get_release_artists. unfold mbind, result_bind.
  destruct fetched as [result | e]; [| exact Hnil].
  destruct (getitem result "release") as [release | e]; [| exact Hnil].
  destruct (contains "artist-credit" release) as [[] | e]; try exact Hnil.
  destruct (getitem release "artist-credit") as [credit_list | e]; [| exact Hnil].
  destruct (iterate credit_list) as [credits | e]; [| exact Hnil].
  destruct (add_credits credits ([], [])) as [[artists seen_ids] | e] eqn:Hloop;
    [| exact Hnil].
  simpl.
  destruct (add_credits_distinct credits [] [] artists seen_ids eq_refl Hnil Hloop)
    as [-> Hdis].
  exact Hdis.
Qed.

Lemma add_credits_app (l1 l2 : list json) (acc : list json * list json) :
  add_credits (l1 ++ l2) acc = add_credits l1 acc ≫= add_credits l2.
Proof.
  revert acc. induction l1 as [| c l1 IH]; intros acc; [reflexivity |].
  cbn [app add_credits]. destruct (add_credit c acc); simpl; [apply IH | reflexivity].
Qed.

(** X18. One credit whose artist has no id empties the whole answer: the artists
    credited before it are dropped with it. *)
Theorem credit_without_id_empties_answer (result : json)
    (release : list (string * json)) (before after : list json)
    (c a : list (string * json)) :
  getitem result "release" = Ok (JDict release) →
  dict_lookup release "artist-credit" = Some (JList (before ++ JDict c :: after)) →
  dict_lookup c "artist" = Some (JDict a) →
  dict_lookup a "id" = None →
  get_release_artists (Ok result) = [].
Proof.
  intros Hrelease Hcredits Hartist Hid.
  unfold get_release_artists. simpl. rewrite Hrelease. simpl.
  rewrite Hcredits. simpl. rewrite add_credits_app.
  destruct (add_credits before ([], [])) as [[artists seen_ids] | e];
    [| reflexivity].
  simpl. rewrite Hartist. simpl. rewrite Hid. reflexivity.
Qed.

Lemma credit_without_id_empties_answer_witness :
  get_release_artists
    (Ok (JDict [("release", JDict [("artist-credit", JList (
       [JDict [("artist", JDict [("id", JStr "a74b1b7f"); ("name", JStr "Radiohead")])]]
       ++ JDict [("artist", JDict [("name", JStr "[unknown]")])] :: []))])]))
  = [].
Proof.
  eapply (credit_without_id_empties_answer _ _ _ []
            [("artist", JDict [("name", JStr "[unknown]")])]
            [("name", JStr "[unknown]")]).
  - reflexivity.
  - reflexivity.
  - reflexivity.
  - reflexivity.
Defined.

Lemma add_credits_from_credits (credits : list json)
    (artists seen_ids artists' seen_ids' : list json) (entry : json) :
  add_credits credits (artists, seen_ids) = Ok (artists', seen_ids') →
  entry ∈ artists' →
  entry ∈ artists
  ∨ ∃ (c a : list (string * json)) (mb_id name : json),
      JDict c ∈ credits
      ∧ dict_lookup c "artist" = Some (JDict a)
      ∧ dict_lookup a "id" = Some mb_id
      ∧ dict_lookup a "name" = Some name
      ∧ entry = JDict [("id", mb_id); ("name", name);
                        ("sort_name", dict_get a "sort-name" name)].
Proof.
  revert artists seen_ids.
  induction credits as [| credit rest IH]; intros artists seen_ids;
    cbn [add_credits].
  - intros [= <- <-] Hin. by left.
  - destruct (add_credit credit (artists, seen_ids)) as [[a1 s1] | e] eqn:Hstep;
      simpl; [| discriminate].
    intros Hrest Hin.
    destruct (IH _ _ Hrest Hin) as [Hold | (c & a & mb_id & name & Hc & H)].
    + destruct (add_credit_cases _ _ _ _ _ Hstep)
        as [[-> ->] | (c & a & mb_id & name & sort & -> & Ha & Hid & Hname & -> & _ & -> & _)];
        [by left |].
      apply elem_of_app in Hold as [Hold | Hnew]; [by left |].
      apply list_elem_of_singleton in Hnew as ->. right.
      exists c, a, mb_id, name. split; [apply list_elem_of_here | auto].
    + right. exists c, a, mb_id, name. split; [by apply list_elem_of_further | exact H].
Qed.

(** X19. Every artist [get_release_artists] returns is taken from a credit of the
    release: its id and name are that credit's, and its sort name is the
    credit's or, when the credit has none, the name. *)
Theorem release_artists_come_from_credits (result : json)
    (release : list (string * json)) (credits : list json) (entry : json) :
  getitem result "release" = Ok (JDict release) →
  dict_lookup release "artist-credit" = Some (JList credits) →
  entry ∈ get_release_artists (Ok result) →
  ∃ (c a : list (string * json)) (mb_id name : json),
    JDict c ∈ credits
    ∧ dict_lookup c "artist" = Some (JDict a)
    ∧ dict_lookup a "id" = Some mb_id
    ∧ dict_lookup a "name" = Some name
    ∧ entry = JDict [("id", mb_id); ("name", name);
                      ("sort_name", dict_get a "sort-name" name)].
Proof.
  intros Hrelease Hcredits.
  unfold get_release_artists. simpl. rewrite Hrelease. simpl.
  rewrite Hcredits. simpl.
  destruct (add_credits credits ([], [])) as [[artists seen_ids] | e] eqn:Hloop;
    simpl; [| by intros ?%elem_of_nil].
  intros Hin.
  destruct (add_credits_from_credits _ _ _ _ _ _ Hloop Hin) as [Hnil | H];
    [by apply elem_of_nil in Hnil | exact H].
Qed.

Lemma release_artists_come_from_credits_witness :
  get_release_artists (Ok sample_release)
  = [JDict [("id", JStr "a74b1b7f-71a5-4011-9441-d0b5e4122711");
            ("name", JStr "Radiohead"); ("sort_name", JStr "Radiohead")];
     JDict [("id", JStr "83d91898-7763-47d7-b03b-b92132375c47");
            ("name", JStr "Pink Floyd"); ("sort_name", JStr "Pink Floyd")]]
  ∧ ∃ (c a : list (string * json)) (mb_id name : json),
      dict_lookup c "artist" = Some (JDict a)
      ∧ dict_lookup a "id" = Some mb_id
      ∧ dict_lookup a "name" = Some name
      ∧ JDict [("id", JStr "83d91898-7763-47d7-b03b-b92132375c47");
               ("name", JStr "Pink Floyd"); ("sort_name", JStr "Pink Floyd")]
        = JDict [("id", mb_id); ("name", name);
                 ("sort_name", dict_get a "sort-name" name)].
Proof.
  split; [vm_compute; reflexivity |].
  destruct (release_artists_come_from_credits sample_release _ _
              (JDict [("id", JStr "83d91898-7763-47d7-b03b-b92132375c47");
                      ("name", JStr "Pink Floyd"); ("sort_name", JStr "Pink Floyd")])
              eq_refl eq_refl)
    as (c & a & mb_id & name & _ & H).
  - vm_compute. apply list_elem_of_further, list_elem_of_here.
  - exists c, a, mb_id, name. exact H.
Defined.

End ReleaseArtists.

(** ** A run of mb_lidarr_import.py *)

Section ArtistImportRun.
Import Py World MbLidarrImport.

Variable float_repr : float → string.

(** With a root folder that is a string and profile ids that are integers,
    [main] calls [add_artist] as modelled under its own signature. *)
Lemma add_artist_with_typed (post : json → result response) (artist_data : json)
    (root_folder : string) (quality_profile metadata_profile : Z)
    (monitor search : bool) :
  add_artist_with float_repr post artist_data (JStr root_folder)
    (JInt quality_profile) (JInt metadata_profile) monitor search
  = add_artist float_repr post artist_data root_folder quality_profile
      metadata_profile monitor search.
Proof.
  unfold add_artist_with, add_artist, artist_payload.
  destruct (getitem artist_data "foreignArtistId"); simpl; [| reflexivity].
  destruct (getitem artist_data "artistName"); reflexivity.
Qed.

(** X20. [add_artist] raises in one case only: the POST was answered 400 with a
    body that is not JSON.  The exception comes out of the HTTPError handler,
    past the handler for every other exception. *)
Theorem add_artist_raises_iff_bad_400 (post : json → result response)
    (artist_data : json) (root_folder : string)
    (quality_profile metadata_profile : Z) (monitor search : bool)
    (payload : json) (e : exn) :
  artist_payload artist_data root_folder quality_profile metadata_profile
    monitor search = Ok payload →
  add_artist float_repr post artist_data root_folder quality_profile
    metadata_profile monitor search = Raise e
  ↔ ∃ resp, post payload = Ok resp ∧ status_code resp = 400%Z
            ∧ json_body resp = Raise e.
Proof.
  intros Hpayload. unfold add_artist. rewrite Hpayload. simpl. split.
  - destruct (post payload) as [resp | e']; [| discriminate].
    unfold raise_for_status.
    destruct ((400 <=? status_code resp)%Z && (status_code resp <? 600)%Z);
      [| discriminate].
    destruct (status_code resp =? 400)%Z eqn:H400; [| discriminate].
    apply Z.eqb_eq in H400.
    destruct (json_body resp) as [error | e'] eqn:Hbody; simpl.
    + destruct (str_contains _ _); discriminate.
    + intros [= ->]. eauto.
  - intros (resp & -> & Hstatus & Hbody).
    unfold raise_for_status. rewrite Hstatus, Hbody. reflexivity.
Qed.

End ArtistImportRun.

Section ArtistImportSamples.
Import Py World MbLidarrImport.

Lemma add_artist_raises_iff_bad_400_witness :
  add_artist sample_float_repr
    (fun _ => Ok (Response 400 (Raise JSONDecodeError)))
    sample_artist_data "/music" 1 1 true false
  = Raise JSONDecodeError.
Proof.
  eapply (add_artist_raises_iff_bad_400 sample_float_repr).
  - vm_compute. reflexivity.
  - eexists. repeat split; reflexivity.
Defined.

Lemma process_artist_counts (float_repr : float → string)
    (root_folder quality_profile metadata_profile : json)
    (monitor search : bool) (t t' : tally) (w : artist_world) :
  process_artist float_repr root_folder quality_profile metadata_profile
    monitor search t w = Ok t' →
  (added t' + skipped t' = added t + skipped t + 1)%nat.
Proof.
  unfold process_artist.
  destruct (negb (truthy (search_artist (search_answer w)))).
  - intros [= <-]. simpl. lia.
  - destruct (add_artist_with _ _ _ _ _ _ _ _) as [[[] printed] | e]; simpl;
      try discriminate; intros [= <-]; simpl; lia.
Qed.

Lemma process_artists_counts (float_repr : float → string)
    (root_folder quality_profile metadata_profile : json)
    (monitor search : bool) (artists : list json) (ws : list artist_world)
    (t t' : tally) :
  process_artists float_repr root_folder quality_profile metadata_profile
    monitor search t artists ws = Ok t' →
  (added t' + skipped t' = added t + skipped t + length artists)%nat.
Proof.
  revert t ws. induction artists as [| a rest IH]; intros t ws;
    cbn [process_artists].
  - intros [= <-]. simpl. lia.
  - destruct (process_artist _ _ _ _ _ _ t _) as [t1 | e] eqn:Hone; simpl;
      [| discriminate].
    intros Hrest. rewrite (IH _ _ Hrest).
    apply process_artist_counts in Hone. simpl. lia.
Qed.

(** X21. A run that reaches the summary has counted every artist of the release
    once, as added or as skipped; the total it prints is the number of
    artists, and is not zero. *)
Theorem artist_counters_add_up (float_repr : float → string)
    (monitor search : bool) (w : world) (t : tally) (total : nat) :
  main float_repr monitor search w = Summary t total →
  (added t + skipped t = total)%nat
  ∧ total = length (get_release_artists (release_fetched w))
  ∧ (0 < total)%nat.
Proof.
  unfold main.
  destruct (negb _); [discriminate |].
  destruct (get_release_artists (release_fetched w)) as [| a artists] eqn:Hlist;
    [discriminate |].
  destruct (process_artists _ _ _ _ _ _ _ (a :: artists) _) as [t1 | e] eqn:Hloop;
    [| discriminate].
  intros [= <- <-]. apply process_artists_counts in Hloop.
  simpl in *. repeat split; lia.
Qed.

Lemma artist_counters_add_up_witness :
  main sample_float_repr true false sample_world = Summary (Tally 0 2) 2
  ∧ (0 + 2 = 2)%nat.
Proof.
  split; [vm_compute; reflexivity |].
  eapply (artist_counters_add_up sample_float_repr true false sample_world).
  vm_compute. reflexivity.
Defined.


Lemma rstrip_keeps (c : ascii) (s : string) :
  ∃ tail, s = rstrip_char c s +:+ tail ∧ all_chars (Ascii.eqb c) tail = true.
Proof.
  unfold rstrip_char.
  assert (∀ r, ∃ tail, r = tail +:+ lstrip_char c r
                       ∧ all_chars (Ascii.eqb c) tail = true) as Hl.
  { induction r as [| c' r IH]; [by exists "" |].
    simpl. destruct (Ascii.eqb_spec c' c) as [-> | Hne].
    - destruct IH as (tail & Hr & Htail). exists (String c tail).
      rewrite string_app_cons, <- Hr. simpl. by rewrite Ascii.eqb_refl.
    - by exists "". }
  destruct (Hl (String.rev s)) as (tail & Hrev & Htail).
  exists (String.rev tail). split; [| by rewrite all_chars_rev].
  rewrite <- string_rev_app, <- Hrev. symmetry. apply string_rev_involutive.
Qed.

Lemma lstrip_char_not_head (c : ascii) (s t : string) :
  lstrip_char c s ≠ String c t.
Proof.
  induction s as [| c' s IH]; [discriminate |].
  simpl. destruct (Ascii.eqb_spec c' c) as [-> | Hne]; [exact IH |].
  intros [= Hc _]. contradiction.
Qed.

(** X23. The base URL kept by [LidarrAPI] never ends with a slash, and is the
    given URL without the slashes at its end. *)
Theorem base_url_has_no_trailing_slash (url : string) :
  endswith (base_url url) "/" = false
  ∧ ∃ slashes, url = base_url url +:+ slashes
               ∧ all_chars (Ascii.eqb "/") slashes = true.
Proof.
  split; [| apply rstrip_keeps].
  destruct (endswith (base_url url) "/") eqn:Hends; [exfalso | reflexivity].
  apply endswith_spec in Hends as [p Hp].
  unfold base_url, rstrip_char in Hp.
  apply (f_equal String.rev) in Hp.
  rewrite string_rev_involutive, string_rev_app in Hp.
  exact (lstrip_char_not_head _ _ _ Hp).
Qed.

End ArtistImportSamples.

(** ** The artists of a playlist *)

Section PlaylistArtists.
Import Py World SpotifyPlaylistChecker.

Lemma follow_pages_chained (results : json) (pages gathered : list json) :
  chained results pages gathered →
  ∀ (rest : list (result json)) (l : list json),
    follow_pages (map Ok pages ++ rest) results (JList l)
    = Ok (JList (l ++ gathered)).
Proof.
  induction 1 as [results next Hnext Hlast
                 | results next page items pages more gathered
                     Hnext Hmore Hitems Hiter _ IH]; intros rest l.
  - destruct (map Ok [] ++ rest); cbn [follow_pages];
      rewrite Hnext; simpl; rewrite Hlast, app_nil_r; reflexivity.
  - cbn [map app follow_pages]. rewrite Hnext. simpl. rewrite Hmore.
    rewrite Hitems. simpl. rewrite Hiter. simpl.
    rewrite IH, app_assoc. reflexivity.
Qed.

(** X24. The pages of a playlist are gathered in order, up to the first page that
    names no next one; what the service would have answered after that is
    never asked for. *)
Theorem pages_gathered_in_order (results : json) (l : list json)
    (pages gathered : list json) (rest : list (result json)) :
  getitem results "items" = Ok (JList l) →
  chained results pages gathered →
  gather_tracks (Ok results) (map Ok pages ++ rest) = Ok (l ++ gathered).
Proof.
  intros Hitems Hchain. unfold gather_tracks. simpl. rewrite Hitems. simpl.
  rewrite (follow_pages_chained _ _ _ Hchain). reflexivity.
Qed.

Lemma pages_gathered_in_order_witness :
  gather_tracks (Ok sample_first_page)
    (map Ok [sample_second_page] ++ [Raise RequestException])
  = Ok ([JDict [("track", JDict [("name", JStr "Creep"); ("artists", JList [
           JDict [("id", JStr "4Z8W4fKeB5YxbusRsdQVPb"); ("name", JStr "Radiohead")]])])];
         JDict [("track", JNull)]]
        ++ ([JDict [("track", JDict [("name", JStr "Mask Off (remix)"); ("artists", JList [
            JDict [("id", JStr "1RyvyyTE3xzB2ZywiAwp0i"); ("name", JStr "Future")];
            JDict [("id", JStr "4Z8W4fKeB5YxbusRsdQVPb"); ("name", JStr "Radiohead")]])])]]
            ++ [])).
Proof.
  apply pages_gathered_in_order.
  - reflexivity.
  - eapply chained_next.
    + reflexivity.
    + reflexivity.
    + reflexivity.
    + reflexivity.
    + eapply chained_last; reflexivity.
Defined.

(** What one credited artist does to the dict. *)
Lemma note_artist_cases (artist : json) (d d' : list (json * json)) :
  note_artist artist d = Ok d' →
  ∃ artist_id : json,
    getitem artist "id" = Ok artist_id
    ∧ ((existsb (fun kv => key_eq kv.1 artist_id) d = true ∧ d' = d)
       ∨ (existsb (fun kv => key_eq kv.1 artist_id) d = false
          ∧ ∃ name : json,
              getitem artist "name" = Ok name
              ∧ d' = d ++ [(artist_id,
                            JDict [("id", artist_id); ("name", name)])])).
Proof.
  unfold note_artist, known_artist.
  destruct (getitem artist "id") as [artist_id | e]; simpl; [| discriminate].
  destruct (hashable artist_id); simpl; [| discriminate].
  destruct (existsb _ d) eqn:Hknown.
  - intros [= <-]. exists artist_id. split; [reflexivity |]. left.
    by split.
  - destruct (getitem artist "name") as [name | e]; simpl; [| discriminate].
    intros [= <-]. exists artist_id. split; [reflexivity |]. right.
    split; [exact Hknown |]. by exists name.
Qed.

(** The artists [note_item] walks are [credited_artists]. *)
Lemma note_item_artists (item : json) (d : list (json * json)) :
  note_item item d = note_artists (credited_artists item) d
  ∨ ∃ e, note_item item d = Raise e.
Proof.
  unfold note_item, credited_artists.
  destruct (getitem item "track") as [track | e]; simpl; [| by right; eexists].
  destruct (truthy track); [| by left].
  destruct (getitem track "artists") as [credited | e]; simpl;
    [| by right; eexists].
  destruct (truthy credited); [| by left].
  destruct (iterate credited) as [artists | e]; simpl; [by left | by right; eexists].
Qed.

(** A property of the dict that every credited artist keeps is kept by the
    whole loop. *)
Lemma note_artists_keep (P : list (json * json) → Prop) (artists : list json) :
  (∀ artist d d', artist ∈ artists → note_artist artist d = Ok d' → P d → P d') →
  ∀ d d', note_artists artists d = Ok d' → P d → P d'.
Proof.
  induction artists as [| artist rest IH]; intros Hstep d d'; cbn [note_artists].
  - by intros [= <-].
  - destruct (note_artist artist d) as [d1 | e] eqn:Hone; simpl; [| discriminate].
    intros Hrest HP. eapply IH; [| exact Hrest |].
    + intros a x x' Hin. apply Hstep. by apply list_elem_of_further.
    + eapply Hstep; [apply list_elem_of_here | exact Hone | exact HP].
Qed.

Lemma note_items_keep (P : list (json * json) → Prop) (items : list json) :
  (∀ item artist d d', item ∈ items → artist ∈ credited_artists item →
     note_artist artist d = Ok d' → P d → P d') →
  ∀ d d', note_items items d = Ok d' → P d → P d'.
Proof.
  induction items as [| item rest IH]; intros Hstep d d'; cbn [note_items].
  - by intros [= <-].
  - destruct (note_item item d) as [d1 | e] eqn:Hone; simpl; [| discriminate].
    intros Hrest HP. eapply IH; [| exact Hrest |].
    + intros i a x x' Hin. apply (Hstep i). by apply list_elem_of_further.
    + destruct (note_item_artists item d) as [Heq | [e He]]; [| congruence].
      rewrite Heq in Hone.
      eapply (note_artists_keep P); [| exact Hone | exact HP].
      intros a x x' Hin. apply (Hstep item); [apply list_elem_of_here | exact Hin].
Qed.

Lemma existsb_keys (k : json) (d : list (json * json)) :
  existsb (fun k' => key_eq k' k) (d.*1) = existsb (fun kv => key_eq kv.1 k) d.
Proof.
  induction d as [| kv d IH]; [reflexivity |].
  rewrite fmap_cons. cbn [existsb]. by rewrite IH.
Qed.

(** X25. [get_playlist_artists] returns no artist twice: the ids of the entries
    it returns are pairwise different as dict keys. *)
Theorem playlist_artists_are_distinct (first_page : result json)
    (pages : list (result json)) (artists : list json) :
  get_playlist_artists first_page pages = Returned artists →
  distinct_keys (entry_ids artists).
Proof.
  unfold get_playlist_artists.
  destruct (gather_tracks first_page pages) as [items | e]; simpl; [| discriminate].
  destruct (note_items items []) as [d | e] eqn:Hloop; simpl; [| discriminate].
  intros [= <-].
  assert (distinct_keys (d.*1) ∧ entry_ids (d.*2) = d.*1) as [Hdis ->];
    [| exact Hdis].
  eapply (note_items_keep
            (fun d => distinct_keys (d.*1) ∧ entry_ids (d.*2) = d.*1));
    [| exact Hloop | split; [intros i j a b _ [=] | reflexivity]].
  intros item artist x x' _ _ Hone [Hdis Hids].
  destruct (note_artist_cases _ _ _ Hone)
    as (artist_id & _ & [[_ ->] | (Hnew & name & _ & ->)]); [by split |].
  rewrite !fmap_app. split.
  - apply distinct_keys_snoc; [exact Hdis |]. by rewrite existsb_keys.
  - unfold entry_ids in *. rewrite map_app, Hids. reflexivity.
Qed.

Lemma playlist_artists_are_distinct_witness :
  get_playlist_artists (Ok sample_first_page) [Ok sample_second_page]
  = Returned [JDict [("id", JStr "4Z8W4fKeB5YxbusRsdQVPb"); ("name", JStr "Radiohead")];
              JDict [("id", JStr "1RyvyyTE3xzB2ZywiAwp0i"); ("name", JStr "Future")]]
  ∧ distinct_keys [JStr "4Z8W4fKeB5YxbusRsdQVPb"; JStr "1RyvyyTE3xzB2ZywiAwp0i"].
Proof.
  split; [vm_compute; reflexivity |].
  apply (playlist_artists_are_distinct (Ok sample_first_page) [Ok sample_second_page]
           [JDict [("id", JStr "4Z8W4fKeB5YxbusRsdQVPb"); ("name", JStr "Radiohead")];
            JDict [("id", JStr "1RyvyyTE3xzB2ZywiAwp0i"); ("name", JStr "Future")]]).
  vm_compute. reflexivity.
Defined.

(** X26. Every entry [get_playlist_artists] returns carries the id and the name
    of an artist credited on one of the gathered tracks. *)
Theorem playlist_artists_come_from_tracks (first_page : result json)
    (pages : list (result json)) (artists : list json) (entry : json) :
  get_playlist_artists first_page pages = Returned artists →
  entry ∈ artists →
  ∃ (items : list json) (item artist artist_id name : json),
    gather_tracks first_page pages = Ok items
    ∧ item ∈ items
    ∧ artist ∈ credited_artists item
    ∧ getitem artist "id" = Ok artist_id
    ∧ getitem artist "name" = Ok name
    ∧ entry = JDict [("id", artist_id); ("name", name)].
Proof.
  unfold get_playlist_artists.
  destruct (gather_tracks first_page pages) as [items | e]; simpl; [| discriminate].
  destruct (note_items items []) as [d | e] eqn:Hloop; simpl; [| discriminate].
  intros [= <-] Hin. exists items.
  cut (∃ item artist artist_id name : json,
         item ∈ items ∧ artist ∈ credited_artists item
         ∧ getitem artist "id" = Ok artist_id
         ∧ getitem artist "name" = Ok name
         ∧ entry = JDict [("id", artist_id); ("name", name)]).
  { intros (item & artist & artist_id & name & H).
    exists item, artist, artist_id, name. split; [reflexivity | exact H]. }
  revert Hin.
  eapply (note_items_keep
            (fun d => entry ∈ d.*2 → ∃ item artist artist_id name : json,
               item ∈ items ∧ artist ∈ credited_artists item
               ∧ getitem artist "id" = Ok artist_id
               ∧ getitem artist "name" = Ok name
               ∧ entry = JDict [("id", artist_id); ("name", name)]));
    [| exact Hloop | by intros ?%elem_of_nil].
  intros item artist x x' Hitem Hartist Hone Hold.
  destruct (note_artist_cases _ _ _ Hone)
    as (artist_id & Hid & [[_ ->] | (_ & name & Hname & ->)]); [exact Hold |].
  rewrite fmap_app. intros [Hin | Hin]%elem_of_app; [by apply Hold |].
  apply list_elem_of_singleton in Hin. simpl in Hin.
  by exists item, artist, artist_id, name.
Qed.

Lemma playlist_artists_come_from_tracks_witness :
  ∃ (items : list json) (item artist artist_id name : json),
    gather_tracks (Ok sample_first_page) [Ok sample_second_page] = Ok items
    ∧ item ∈ items
    ∧ artist ∈ credited_artists item
    ∧ getitem artist "id" = Ok artist_id
    ∧ getitem artist "name" = Ok name
    ∧ JDict [("id", JStr "1RyvyyTE3xzB2ZywiAwp0i"); ("name", JStr "Future")]
      = JDict [("id", artist_id); ("name", name)].
Proof.
  eapply (playlist_artists_come_from_tracks (Ok sample_first_page)
            [Ok sample_second_page]).
  - vm_compute. reflexivity.
  - apply list_elem_of_further, list_elem_of_here.
Defined.

(** An artist is covered by a dict when its id is a key of the dict, or
    equal as a key to one. *)
Lemma note_artists_cover (artists : list json) (d d' : list (json * json)) :
  note_artists artists d = Ok d' →
  (∃ more, d' = d ++ more)
  ∧ ∀ artist, artist ∈ artists →
      ∃ artist_id k : json,
        getitem artist "id" = Ok artist_id ∧ k ∈ d'.*1
        ∧ (k = artist_id ∨ key_eq k artist_id = true).
Proof.
  revert d. induction artists as [| artist rest IH]; intros d; cbn [note_artists].
  - intros [= <-]. split; [exists []; by rewrite app_nil_r |].
    by intros a ?%elem_of_nil.
  - destruct (note_artist artist d) as [d1 | e] eqn:Hone; simpl; [| discriminate].
    intros Hrest. destruct (IH _ Hrest) as [[more ->] Hcov].
    assert (∃ first, d1 = d ++ first
            ∧ ∃ artist_id k : json,
                getitem artist "id" = Ok artist_id ∧ k ∈ d1.*1
                ∧ (k = artist_id ∨ key_eq k artist_id = true))
      as (first & -> & artist_id & k & Hid & Hk & Heq).
    { destruct (note_artist_cases _ _ _ Hone)
        as (artist_id & Hid & [[Hknown ->] | (_ & name & _ & ->)]).
      - exists []. split; [by rewrite app_nil_r |].
        apply existsb_exists in Hknown as ([k v] & Hin & Heq).
        exists artist_id, k. split; [exact Hid |]. split; [| by right].
        apply list_elem_of_fmap. exists (k, v).
        split; [reflexivity | by apply list_elem_of_In].
      - eexists. split; [reflexivity |]. exists artist_id, artist_id.
        split; [exact Hid |]. split; [| by left].
        rewrite fmap_app. apply elem_of_app. right. apply list_elem_of_here. }
    split; [exists (first ++ more); by rewrite app_assoc |].
    intros a [-> | Hin]%elem_of_cons; [| by apply Hcov].
    exists artist_id, k. split; [exact Hid |]. split; [| exact Heq].
    rewrite fmap_app. apply elem_of_app. by left.
Qed.

Lemma note_items_cover (items : list json) (d d' : list (json * json)) :
  note_items items d = Ok d' →
  (∃ more, d' = d ++ more)
  ∧ ∀ item artist, item ∈ items → artist ∈ credited_artists item →
      ∃ artist_id k : json,
        getitem artist "id" = Ok artist_id ∧ k ∈ d'.*1
        ∧ (k = artist_id ∨ key_eq k artist_id = true).
Proof.
  revert d. induction items as [| item rest IH]; intros d; cbn [note_items].
  - intros [= <-]. split; [exists []; by rewrite app_nil_r |].
    by intros i a ?%elem_of_nil.
  - destruct (note_item item d) as [d1 | e] eqn:Hone; simpl; [| discriminate].
    intros Hrest. destruct (IH _ Hrest) as [[more ->] Hcov].
    destruct (note_item_artists item d) as [Heq | [e He]]; [| congruence].
    rewrite Heq in Hone.
    destruct (note_artists_cover _ _ _ Hone) as [[first ->] Hfirst].
    split; [exists (first ++ more); by rewrite app_assoc |].
    intros i a [-> | Hin]%elem_of_cons Ha; [| by eapply Hcov].
    destruct (Hfirst a Ha) as (artist_id & k & Hid & Hk & Hkey).
    exists artist_id, k. split; [exact Hid |]. split; [| exact Hkey].
    rewrite fmap_app. apply elem_of_app. by left.
Qed.

(** X27. No credited artist is lost: when [get_playlist_artists] returns, every
    artist credited on a gathered track has its id among the ids returned,
    or an id equal to it as a dict key. *)
Theorem playlist_artists_cover_tracks (first_page : result json)
    (pages : list (result json)) (artists items : list json)
    (item artist : json) :
  get_playlist_artists first_page pages = Returned artists →
  gather_tracks first_page pages = Ok items →
  item ∈ items →
  artist ∈ credited_artists item →
  ∃ artist_id k : json,
    getitem artist "id" = Ok artist_id
    ∧ k ∈ entry_ids artists
    ∧ (k = artist_id ∨ key_eq k artist_id = true).
Proof.
  unfold get_playlist_artists. intros Hret Hitems. rewrite Hitems in Hret.
  simpl in Hret.
  destruct (note_items items []) as [d | e] eqn:Hloop; simpl in Hret;
    [| discriminate].
  injection Hret as <-. intros Hitem Hartist.
  destruct (note_items_cover _ _ _ Hloop) as [_ Hcov].
  destruct (Hcov item artist Hitem Hartist) as (artist_id & k & Hid & Hk & Hkey).
  exists artist_id, k. split; [exact Hid |]. split; [| exact Hkey].
  assert (entry_ids (d.*2) = d.*1) as ->; [| exact Hk].
  eapply (note_items_keep (fun d => entry_ids (d.*2) = d.*1));
    [| exact Hloop | reflexivity].
  intros i a x x' _ _ Hone Hids.
  destruct (note_artist_cases _ _ _ Hone)
    as (id & _ & [[_ ->] | (_ & name & _ & ->)]); [exact Hids |].
  rewrite !fmap_app. unfold entry_ids in *. rewrite map_app, Hids. reflexivity.
Qed.

Lemma playlist_artists_cover_tracks_witness :
  ∃ artist_id k : json,
    getitem (JDict [("id", JStr "4Z8W4fKeB5YxbusRsdQVPb"); ("name", JStr "Radiohead")])
      "id" = Ok artist_id
    ∧ k ∈ entry_ids
        [JDict [("id", JStr "4Z8W4fKeB5YxbusRsdQVPb"); ("name", JStr "Radiohead")];
         JDict [("id", JStr "1RyvyyTE3xzB2ZywiAwp0i"); ("name", JStr "Future")]]
    ∧ (k = artist_id ∨ key_eq k artist_id = true).
Proof.
  eapply (playlist_artists_cover_tracks (Ok sample_first_page)
            [Ok sample_second_page] _ _
            (JDict [("track", JDict [("name", JStr "Mask Off (remix)"); ("artists", JList [
               JDict [("id", JStr "1RyvyyTE3xzB2ZywiAwp0i"); ("name", JStr "Future")];
               JDict [("id", JStr "4Z8W4fKeB5YxbusRsdQVPb"); ("name", JStr "Radiohead")]])])])).
  - vm_compute. reflexivity.
  - vm_compute. reflexivity.
  - do 2 apply list_elem_of_further. apply list_elem_of_here.
  - vm_compute. apply list_elem_of_further, list_elem_of_here.
Defined.

End PlaylistArtists.

(** ** The playlist id *)

Section PlaylistUrl.
Import Py SpotifyPlaylistChecker.

Variable urlparse : string → option (string * string).

Lemma prefix_app (p s : string) : String.prefix p (p +:+ s) = true.
Proof.
  induction p as [| c p IH]; [by destruct s |].
  rewrite string_app_cons. simpl. by destruct (ascii_dec c c).
Qed.

Lemma split_clean (sep : ascii) (s : string) :
  all_chars (fun c => negb (Ascii.eqb c sep)) s = true → split sep s = [s].
Proof.
  induction s as [| c s IH]; [reflexivity |].
  cbn [all_chars split]. intros [Hc Hs]%andb_true_iff.
  apply negb_true_iff in Hc. rewrite Hc, (IH Hs). reflexivity.
Qed.

Lemma split_app (sep : ascii) (a b : string) :
  all_chars (fun c => negb (Ascii.eqb c sep)) a = true →
  split sep (a +:+ String sep b) = a :: split sep b.
Proof.
  induction a as [| c a IH].
  - intros _. rewrite string_app_nil_l. cbn [split]. by rewrite Ascii.eqb_refl.
  - cbn [all_chars]. intros [Hc Ha]%andb_true_iff.
    apply negb_true_iff in Hc.
    rewrite string_app_cons. cbn [split]. rewrite Hc, (IH Ha). reflexivity.
Qed.

Lemma split_pieces_clean (sep : ascii) (s : string) :
  Forall (fun piece => all_chars (fun c => negb (Ascii.eqb c sep)) piece = true)
         (split sep s).
Proof.
  induction s as [| c s IH]; [by repeat constructor |].
  cbn [split]. destruct (Ascii.eqb c sep) eqn:Hc; [by constructor |].
  destruct (split sep s) as [| piece pieces]; [by repeat constructor; simpl; rewrite Hc |].
  inversion IH as [| ? ? Hpiece Hpieces]; subst.
  constructor; [| exact Hpieces]. cbn [all_chars]. by rewrite Hc, Hpiece.
Qed.

Lemma split_pieces_keep (p : ascii → bool) (sep : ascii) (s : string) :
  all_chars p s = true →
  Forall (fun piece => all_chars p piece = true) (split sep s).
Proof.
  induction s as [| c s IH]; [by repeat constructor |].
  cbn [all_chars split]. intros [Hc Hs]%andb_true_iff. specialize (IH Hs).
  destruct (Ascii.eqb c sep); [by constructor |].
  destruct (split sep s) as [| piece pieces];
    [by repeat constructor; simpl; rewrite Hc |].
  inversion IH as [| ? ? Hpiece Hpieces]; subst.
  constructor; [| exact Hpieces]. cbn [all_chars]. by rewrite Hc, Hpiece.
Qed.

Lemma Forall_last {A} (P : A → Prop) (l : list A) (d : A) :
  Forall P l → P d → P (List.last l d).
Proof.
  induction 1 as [| x l Hx Hl IH]; intros Hd; [exact Hd |].
  destruct l; [exact Hx | by apply IH].
Qed.

Lemma lstrip_char_clean (c : ascii) (s rest : string) :
  s ≠ "" → all_chars (fun x => negb (Ascii.eqb x c)) s = true →
  lstrip_char c (s +:+ rest) = s +:+ rest.
Proof.
  destruct s as [| x s]; [done |]. rewrite string_app_cons.
  cbn [all_chars lstrip_char].
  intros _ [Hx _]%andb_true_iff. apply negb_true_iff in Hx. by rewrite Hx.
Qed.

Lemma rstrip_char_clean (c : ascii) (s rest : string) :
  s ≠ "" → all_chars (fun x => negb (Ascii.eqb x c)) s = true →
  rstrip_char c (rest +:+ s) = rest +:+ s.
Proof.
  intros Hne Hclean. unfold rstrip_char.
  rewrite string_rev_app, lstrip_char_clean.
  - by rewrite <- string_rev_app, string_rev_involutive.
  - intros Hrev. apply Hne. by rewrite <- (string_rev_involutive s), Hrev.
  - by rewrite all_chars_rev.
Qed.

(** X28. A playlist URI gives back its id: [spotify:playlist:] followed by an
    id without colon returns that id. *)
Theorem uri_gives_its_id (id : string) :
  all_chars (fun c => negb (Ascii.eqb c ":")) id = true →
  extract_playlist_id urlparse ("spotify:playlist:" +:+ id) = Some id.
Proof.
  intros Hid. unfold extract_playlist_id, startswith.
  rewrite prefix_app.
  change ("spotify:playlist:" +:+ id)
    with ("spotify" +:+ String ":" ("playlist" +:+ String ":" id)).
  rewrite !split_app by reflexivity. by rewrite (split_clean _ _ Hid).
Qed.

(** X29. A playlist address on the Spotify host gives back its id: when the path
    is [/playlist/] followed by a non-empty id without slash or question
    mark, that id is returned. *)
Theorem address_gives_its_id (playlist_url netloc id : string) :
  startswith playlist_url "spotify:playlist:" = false →
  urlparse playlist_url = Some (netloc, "/playlist/" +:+ id) →
  str_contains "open.spotify.com" netloc = true →
  id ≠ "" →
  all_chars (fun c => negb (Ascii.eqb c "/")) id = true →
  all_chars (fun c => negb (Ascii.eqb c "?")) id = true →
  extract_playlist_id urlparse playlist_url = Some id.
Proof.
  intros Huri Hparse Hhost Hne Hslash Hquery. unfold extract_playlist_id.
  rewrite Huri, Hparse. simpl. rewrite Hhost. unfold strip_char.
  change (lstrip_char "/" ("/playlist/" +:+ id)) with ("playlist/" +:+ id).
  rewrite (rstrip_char_clean "/" id "playlist/" Hne Hslash).
  change ("playlist/" +:+ id) with ("playlist" +:+ String "/" id).
  rewrite split_app by reflexivity. rewrite (split_clean _ _ Hslash).
  simpl. by rewrite (split_clean _ _ Hquery).
Qed.

Lemma Forall_hd {A} (P : A → Prop) (l : list A) (d : A) :
  Forall P l → P d → P (List.hd d l).
Proof. by intros [| x l' Hx _] Hd. Qed.

(** X30. The id returned is one segment of what was given: from a URI it holds
    no colon, from an address neither a slash nor a question mark. *)
Theorem returned_id_is_one_segment (playlist_url id : string) :
  extract_playlist_id urlparse playlist_url = Some id →
  (startswith playlist_url "spotify:playlist:" = true →
     all_chars (fun c => negb (Ascii.eqb c ":")) id = true)
  ∧ (startswith playlist_url "spotify:playlist:" = false →
     all_chars (fun c => negb (Ascii.eqb c "/")) id = true
     ∧ all_chars (fun c => negb (Ascii.eqb c "?")) id = true).
Proof.
  unfold extract_playlist_id.
  destruct (startswith playlist_url "spotify:playlist:").
  - intros [= <-]. split; [intros _ | discriminate].
    apply (Forall_last (fun piece => all_chars _ piece = true));
      [apply split_pieces_clean | reflexivity].
  - destruct (urlparse playlist_url) as [[netloc path] |]; simpl; [| discriminate].
    destruct (str_contains "open.spotify.com" netloc); [| discriminate].
    pose proof (split_pieces_clean "/" (strip_char "/" path)) as Hpieces.
    destruct (split "/" (strip_char "/" path)) as [| first [| second rest]];
      try discriminate.
    destruct (String.eqb first "playlist"); [| discriminate].
    intros [= <-]. split; [discriminate | intros _].
    inversion Hpieces as [| ? ? _ Hrest]; subst.
    inversion Hrest as [| ? ? Hsecond _]; subst.
    split.
    + apply (Forall_hd (fun piece => all_chars _ piece = true));
        [by apply split_pieces_keep | reflexivity].
    + apply (Forall_hd (fun piece => all_chars _ piece = true));
        [apply split_pieces_clean | reflexivity].
Qed.

End PlaylistUrl.

Section PlaylistUrlSamples.
Import Py SpotifyPlaylistChecker.

Lemma uri_gives_its_id_witness :
  extract_playlist_id sample_urlparse
    ("spotify:playlist:" +:+ "37i9dQZF1DXcBWIGoYBM5M")
  = Some "37i9dQZF1DXcBWIGoYBM5M".
Proof. apply (uri_gives_its_id sample_urlparse). reflexivity. Defined.

Lemma address_gives_its_id_witness :
  extract_playlist_id sample_urlparse
    "https://open.spotify.com/playlist/37i9dQZF1DXcBWIGoYBM5M"
  = Some "37i9dQZF1DXcBWIGoYBM5M".
Proof.
  apply (address_gives_its_id sample_urlparse _ "open.spotify.com"
           "37i9dQZF1DXcBWIGoYBM5M").
  - reflexivity.
  - reflexivity.
  - reflexivity.
  - discriminate.
  - reflexivity.
  - reflexivity.
Defined.

Lemma returned_id_is_one_segment_witness :
  extract_playlist_id sample_urlparse "spotify:playlist:37i9dQZF1DXcBWIGoYBM5M:x"
  = Some "x"
  ∧ all_chars (fun c => negb (Ascii.eqb c ":")) "x" = true.
Proof.
  split; [reflexivity |].
  destruct (returned_id_is_one_segment sample_urlparse
              "spotify:playlist:37i9dQZF1DXcBWIGoYBM5M:x" "x" eq_refl)
    as [Huri _].
  exact (Huri eq_refl).
Defined.

End PlaylistUrlSamples.
